(** * unifi: API path resolution and the tolerant scalar decoders

    A shallow embedding of [core/unifi/types.go]: the method [Unifi.path]
    and the two decoders [FlexInt.UnmarshalJSON] and
    [FlexBool.UnmarshalJSON], together with the parts of Go's standard
    library they call ([strings], [unicode/utf8], [unicode], [strconv],
    [encoding/json]).

    A Go [string] is an immutable sequence of bytes; it is modelled by
    [string], whose characters are the 256 values of [ascii].  A [rune]
    and an [int] are modelled by [Z]. *)

From Stdlib Require Import String Ascii List ZArith Lia Bool.
From Stdlib Require Import Strings.Byte Floats.SpecFloat.
Import ListNotations.
Local Open Scope string_scope.

(** The value of a byte of a string, as Go's [byte] (a [uint8]). *)
Definition byteZ (c : ascii) : Z := Z.of_N (N_of_ascii c).

(** [s[i]]; reading outside the string panics in Go, and every read below
    is guarded by a test on [len(s)], so the default is never observed. *)
Definition byteAt (s : string) (i : nat) : Z :=
  match String.get i s with
  | Some c => byteZ c
  | None => 0%Z
  end.

(** [s[n:]] for [n <= len(s)]. *)
Fixpoint drop (n : nat) (s : string) : string :=
  match n, s with
  | O, _ => s
  | S _, EmptyString => EmptyString
  | S k, String _ r => drop k r
  end.

(** The double quote, byte 0x22, and the backslash, byte 0x5C. *)
Definition dquote : ascii := "034"%char.
Definition backslash : ascii := "092"%char.

(** A string of ASCII bytes only. *)
Fixpoint is_ascii (s : string) : bool :=
  match s with
  | EmptyString => true
  | String c r => (byteZ c <? 0x80)%Z && is_ascii r
  end.

(** The ASCII lower-case form of a string: [A]..[Z] to [a]..[z]. *)
Definition lower_byte (c : ascii) : ascii :=
  if (0x41 <=? byteZ c)%Z && (byteZ c <=? 0x5A)%Z
  then ascii_of_N (N_of_ascii c + 0x20) else c.

Fixpoint to_lower (s : string) : string :=
  match s with
  | EmptyString => EmptyString
  | String c r => String (lower_byte c) (to_lower r)
  end.

(** ** Errors

    A Go [error] is an interface value; [nil] is [None].  The errors that
    the decoders of this file can return: *)
Inductive error : Type :=
| errorString (s : string)
    (** [fmt.Errorf] without verbs, [errors.New] *)
| NumError (Func Num : string) (Err : error)
    (** [*strconv.NumError] *)
| SyntaxError
    (** [*json.SyntaxError]; its message and offset are left out *)
| UnmarshalTypeError (Value : string)
    (** [*json.UnmarshalTypeError]; its [Type] and [Offset] are left out *)
| withMessage (cause : error) (msg : string)
    (** [errors.Wrapf(cause, format, args...)] of [github.com/pkg/errors],
        without the stack it records *).

(** ** Package [unicode/utf8] *)

Module utf8.
Local Open Scope Z_scope.

Definition RuneError : Z := 0xFFFD.
Definition RuneSelf : Z := 0x80.
Definition MaxRune : Z := 0x10FFFF.

Definition maskx : Z := 0x3F.
Definition mask2 : Z := 0x1F.
Definition mask3 : Z := 0x0F.
Definition mask4 : Z := 0x07.
Definition locb : Z := 0x80.
Definition hicb : Z := 0xBF.

(** The table [first]: information about the first byte of an encoding.
    [as = 0xF0] is ASCII, [xx = 0xF1] is invalid, and any other entry holds
    the index of an accept range in its high four bits and the size of the
    encoding in its low three. *)
Definition first (b : Z) : Z :=
  if b <? 0x80 then 0xF0
  else if b <? 0xC2 then 0xF1
  else if b <? 0xE0 then 0x02
  else if b =? 0xE0 then 0x13
  else if b <? 0xED then 0x03
  else if b =? 0xED then 0x23
  else if b <? 0xF0 then 0x03
  else if b =? 0xF0 then 0x34
  else if b <? 0xF4 then 0x04
  else if b =? 0xF4 then 0x44
  else 0xF1.

(** The table [acceptRanges]: the range of valid values of the second
    byte. *)
Definition acceptRanges (i : Z) : Z * Z :=
  if i =? 0 then (locb, hicb)
  else if i =? 1 then (0xA0, hicb)
  else if i =? 2 then (locb, 0x9F)
  else if i =? 3 then (0x90, hicb)
  else if i =? 4 then (locb, 0x8F)
  else (0, 0).

(** [utf8.DecodeRuneInString]: the first rune of [s] and its width in
    bytes; [(RuneError, 0)] on the empty string and [(RuneError, 1)] on an
    invalid encoding. *)
Definition DecodeRuneInString (s : string) : Z * nat :=
  let n := String.length s in
  if (n <? 1)%nat then (RuneError, 0%nat) else
  let s0 := byteAt s 0 in
  let x := first s0 in
  if 0xF0 <=? x then
    ((if Z.testbit x 0 then RuneError else s0), 1%nat)
  else
  let sz := Z.land x 7 in
  let accept := acceptRanges (Z.shiftr x 4) in
  if Z.of_nat n <? sz then (RuneError, 1%nat) else
  let s1 := byteAt s 1 in
  if (s1 <? fst accept) || (snd accept <? s1) then (RuneError, 1%nat) else
  if sz <=? 2 then
    (Z.lor (Z.shiftl (Z.land s0 mask2) 6) (Z.land s1 maskx), 2%nat)
  else
  let s2 := byteAt s 2 in
  if (s2 <? locb) || (hicb <? s2) then (RuneError, 1%nat) else
  if sz <=? 3 then
    (Z.lor (Z.lor (Z.shiftl (Z.land s0 mask3) 12)
                  (Z.shiftl (Z.land s1 maskx) 6))
           (Z.land s2 maskx), 3%nat)
  else
  let s3 := byteAt s 3 in
  if (s3 <? locb) || (hicb <? s3) then (RuneError, 1%nat) else
    (Z.lor (Z.lor (Z.lor (Z.shiftl (Z.land s0 mask4) 18)
                         (Z.shiftl (Z.land s1 maskx) 12))
                  (Z.shiftl (Z.land s2 maskx) 6))
           (Z.land s3 maskx), 4%nat).

End utf8.

(** ** Package [unicode] *)

Module unicode.
Local Open Scope Z_scope.

(** The table [asciiFold]: for an ASCII rune the next rune of its orbit
    under simple case folding.  An upper-case letter goes to its lower-case
    letter and a lower-case letter back, except that [k] goes on to the
    Kelvin sign U+212A and [s] to the long s U+017F. *)
Definition asciiFold (r : Z) : Z :=
  if (0x41 <=? r) && (r <=? 0x5A) then r + 0x20
  else if r =? 0x6B then 0x212A
  else if r =? 0x73 then 0x017F
  else if (0x61 <=? r) && (r <=? 0x7A) then r - 0x20
  else r.

Section SimpleFold.

(** What the tables [caseOrbit] and [CaseRanges] hold for the runes
    outside the orbits of the ASCII letters.  The tables are data of Go's
    library; every result below holds for any contents of this part. *)
Variable foldRest : Z -> Z.

(** [unicode.SimpleFold]: the next rune of the orbit of [r], wrapping
    around to the smallest at the end.  The two orbits that leave ASCII are
    [K k U+212A] and [S s U+017F]. *)
Definition SimpleFold (r : Z) : Z :=
  if (r <? 0) || (utf8.MaxRune <? r) then r
  else if r <? 0x80 then asciiFold r
  else if r =? 0x017F then 0x53
  else if r =? 0x212A then 0x4B
  else foldRest r.

End SimpleFold.

End unicode.

(** ** Package [strings] *)

Module strings.
Local Open Scope Z_scope.

(** [strings.HasPrefix]:
    [return len(s) >= len(prefix) && s[:len(prefix)] == prefix] *)
Definition HasPrefix (s prefix : string) : bool :=
  (String.length prefix <=? String.length s)%nat
  && String.eqb (substring 0 (String.length prefix) s) prefix.

(** [trimLeftByte]: [for len(s) > 0 && s[0] == c { s = s[1:] }] *)
Fixpoint trimLeftByte (s : string) (c : ascii) : string :=
  match s with
  | EmptyString => EmptyString
  | String a r => if Ascii.eqb a c then trimLeftByte r c else s
  end.

(** [trimRightByte]:
    [for len(s) > 0 && s[len(s)-1] == c { s = s[:len(s)-1] }] *)
Fixpoint trimRightByte (s : string) (c : ascii) : string :=
  match s with
  | EmptyString => EmptyString
  | String a r =>
      match trimRightByte r c with
      | EmptyString => if Ascii.eqb a c then EmptyString
                       else String a EmptyString
      | r' => String a r'
      end
  end.

(** [strings.Trim] with a cutset of one ASCII byte: every leading and every
    trailing byte of the cutset is removed. *)
Definition Trim (s : string) (cutset : ascii) : string :=
  trimLeftByte (trimRightByte s cutset) cutset.

Section EqualFold.

Variable foldRest : Z -> Z.

(** One step of the loops of [EqualFold]: the first rune of a non-empty
    string and the rest of the string. *)
Definition nextRune (s : string) : Z * string :=
  if byteAt s 0 <? utf8.RuneSelf then (byteAt s 0, drop 1 s)
  else let (r, size) := utf8.DecodeRuneInString s in (r, drop size s).

(** [for r != sr && r < tr { r = unicode.SimpleFold(r) }]; an orbit of
    [SimpleFold] has at most four runes, so four steps end the walk. *)
Fixpoint orbitWalk (fuel : nat) (sr tr r : Z) : Z :=
  match fuel with
  | O => r
  | S k => if negb (r =? sr) && (r <? tr)
           then orbitWalk k sr tr (unicode.SimpleFold foldRest r)
           else r
  end.

(** The body of the loop of [EqualFold] on the two runes taken: [true] is
    [continue], [false] is [return false]. *)
Definition equalFoldRune (sr tr : Z) : bool :=
  if tr =? sr then true
  else
    let lo := if tr <? sr then tr else sr in
    let hi := if tr <? sr then sr else tr in
    if hi <? utf8.RuneSelf then
      (0x41 <=? lo) && (lo <=? 0x5A) && (hi =? lo + 0x61 - 0x41)
    else
      orbitWalk 4 lo hi (unicode.SimpleFold foldRest lo) =? hi.

(** The loop [for s != "" && t != ""] of [EqualFold]; each turn takes at
    least one byte from [s], so [len(s)] turns are enough. *)
Fixpoint EqualFold_loop (fuel : nat) (s t : string) : bool :=
  match s, t with
  | EmptyString, _ | _, EmptyString => String.eqb s t
  | _, _ =>
      match fuel with
      | O => false
      | S k =>
          let (sr, s') := nextRune s in
          let (tr, t') := nextRune t in
          if equalFoldRune sr tr then EqualFold_loop k s' t' else false
      end
  end.

(** [strings.EqualFold]: whether [s] and [t], read as UTF-8, are equal
    under simple Unicode case folding. *)
Definition EqualFold (s t : string) : bool :=
  EqualFold_loop (String.length s) s t.

End EqualFold.

End strings.

(** ** Package [strconv] *)

Module strconv.
Local Open Scope Z_scope.

(** A [float64] is an IEEE 754 binary64 value: a signed zero, a signed
    infinity, a NaN, or [(-1)^s * m * 2^e] with the integer [m] below
    [2^53].  The standard library's [spec_float] holds these; [is_float64]
    tells the canonical ones, those a [float64] can hold: [m] has 53 bits
    and [-1074 <= e <= 971], or [m] has fewer and [e = -1074]. *)
Definition float64 : Type := spec_float.

Definition is_float64 (x : float64) : bool :=
  match x with
  | S754_finite _ m e =>
      (Zpos m <? 2 ^ 53) && (-1074 <=? e) && (e <=? 971)
      && ((2 ^ 52 <=? Zpos m) || (e =? -1074))
  | _ => true
  end.

Definition float64_eqb (x y : float64) : bool :=
  match x, y with
  | S754_zero a, S754_zero b => Bool.eqb a b
  | S754_infinity a, S754_infinity b => Bool.eqb a b
  | S754_nan, S754_nan => true
  | S754_finite a m e, S754_finite b n k =>
      Bool.eqb a b && Pos.eqb m n && Z.eqb e k
  | _, _ => false
  end.

(** [ErrSyntax] and [ErrRange]. *)
Definition ErrSyntax : error := errorString "invalid syntax".
Definition ErrRange : error := errorString "value out of range".

Definition syntaxError (fn str : string) : error := NumError fn str ErrSyntax.
Definition rangeError (fn str : string) : error := NumError fn str ErrRange.

Definition fnParseFloat : string := "ParseFloat".

(** *** Rounding to the nearest [float64]

    [ParseFloat] returns "the nearest floating-point number rounded using
    IEEE754 unbiased rounding", and [±Inf] with [ErrRange] when the input
    is more than half a unit in the last place beyond the largest
    [float64].  Go reaches it by several routes (an exact fast path, the
    Eisel-Lemire algorithm, a multiprecision decimal); what they compute is
    written here once, on exact integers. *)

(** The [float64] nearest to [p / q], for [0 <= p] and [0 < q], with ties
    to the even mantissa, and whether it overflowed.  [N] is the integer
    part of the quotient in units of [2^-1074], the least positive
    [float64]; dropping all but the leading 53 bits of [N] leaves the
    exponent [e] (zero or more, in the same unit). *)
Definition roundRatio (neg : bool) (p q : Z) : float64 * bool :=
  let P := p * 2 ^ 1074 in
  let N := P / q in
  let e := Z.max (Z.log2 N - 52) 0 in
  let d := q * 2 ^ e in
  let m := P / d in
  let r := P mod d in
  let m := if (d <? 2 * r) || ((2 * r =? d) && Z.odd m) then m + 1 else m in
  let e := if m =? 2 ^ 53 then e + 1 else e in
  let m := if m =? 2 ^ 53 then 2 ^ 52 else m in
  if m =? 0 then (S754_zero neg, false)
  else if 971 + 1074 <? e then (S754_infinity neg, true)
  else (S754_finite neg (Z.to_pos m) (e - 1074), false).

(** The [float64] nearest to [D * 10^k]. *)
Definition roundDecimal (neg : bool) (D k : Z) : float64 * bool :=
  if 0 <=? k then roundRatio neg (D * 10 ^ k) 1
  else roundRatio neg D (10 ^ (- k)).

(** The [float64] nearest to [M * 2^k]. *)
Definition roundBinary (neg : bool) (M k : Z) : float64 * bool :=
  if 0 <=? k then roundRatio neg (M * 2 ^ k) 1
  else roundRatio neg M (2 ^ (- k)).

(** *** Reading a number *)

(** [lower(c)]: [c | ('x' - 'X')]. *)
Definition lower (c : Z) : Z := Z.lor c 0x20.

Definition isDigit (c : Z) : bool := (0x30 <=? c) && (c <=? 0x39).

(** [equalIgnoreCase]: equality after folding the ASCII letters to lower
    case. *)
Definition equalIgnoreCase (s1 s2 : string) : bool :=
  String.eqb (to_lower s1) (to_lower s2).

(** [special]: the strings for infinities and NaN. *)
Definition special (s : string) : option float64 :=
  match s with
  | EmptyString => None
  | String c _ =>
      let c := byteZ c in
      if c =? 0x2B (* + *) then
        if equalIgnoreCase s "+inf" || equalIgnoreCase s "+infinity"
        then Some (S754_infinity false) else None
      else if c =? 0x2D (* - *) then
        if equalIgnoreCase s "-inf" || equalIgnoreCase s "-infinity"
        then Some (S754_infinity true) else None
      else if (c =? 0x6E) || (c =? 0x4E) (* n N *) then
        if equalIgnoreCase s "nan" then Some S754_nan else None
      else if (c =? 0x69) || (c =? 0x49) (* i I *) then
        if equalIgnoreCase s "inf" || equalIgnoreCase s "infinity"
        then Some (S754_infinity false) else None
      else None
  end.

(** The variables of the digit loop of [readFloat].  [mantissa] holds
    every digit read: Go keeps the first 19 (and 800 in its multiprecision
    decimal) together with a flag telling that a non-zero digit was
    dropped, which is enough to round as the full number rounds. *)
Record mantState : Type := mkMant {
  mantissa : Z;
  nd : Z;
  dp : Z;
  sawdot : bool;
  sawdigits : bool;
  underscores : bool
}.

(** The digit loop of [readFloat]: [None] is [return] (a second point),
    otherwise the state and the input left at [break] or at the end. *)
Fixpoint readDigits (hex : bool) (st : mantState) (s : string)
  : option (mantState * string) :=
  match s with
  | EmptyString => Some (st, s)
  | String a r =>
      let c := byteZ a in
      if c =? 0x5F (* _ *) then
        readDigits hex (mkMant (mantissa st) (nd st) (dp st) (sawdot st)
                          (sawdigits st) true) r
      else if c =? 0x2E (* . *) then
        if sawdot st then None
        else readDigits hex (mkMant (mantissa st) (nd st) (nd st) true
                               (sawdigits st) (underscores st)) r
      else if isDigit c then
        if (c =? 0x30) && (nd st =? 0) then
          readDigits hex (mkMant (mantissa st) (nd st) (dp st - 1)
                            (sawdot st) true (underscores st)) r
        else
          readDigits hex
            (mkMant (mantissa st * (if hex then 16 else 10) + (c - 0x30))
               (nd st + 1) (dp st) (sawdot st) true (underscores st)) r
      else if hex && (0x61 <=? lower c) && (lower c <=? 0x66) then
        readDigits hex
          (mkMant (mantissa st * 16 + (lower c - 0x61 + 10))
             (nd st + 1) (dp st) (sawdot st) true (underscores st)) r
      else Some (st, s)
  end.

(** The digit loop of the exponent: [e] stops growing at 10000. *)
Fixpoint readExponent (e : Z) (us : bool) (s : string) : Z * bool * string :=
  match s with
  | EmptyString => (e, us, s)
  | String a r =>
      let c := byteZ a in
      if c =? 0x5F then readExponent e true r
      else if isDigit c then
        readExponent (if e <? 10000 then e * 10 + (c - 0x30) else e) us r
      else (e, us, s)
  end.

(** [underscoreOK]: an underscore must stand between two digits, or
    between a base prefix and a digit.  [saw] is the last byte seen: [^] at the start, [0] for a digit
    or the prefix, [_] for an underscore, [!] for anything else. *)
Inductive sawKind : Type := sawStart | sawDigit | sawUnderscore | sawOther.

Fixpoint underscoreLoop (hex : bool) (saw : sawKind) (s : string) : bool :=
  match s with
  | EmptyString =>
      match saw with sawUnderscore => false | _ => true end
  | String a r =>
      let c := byteZ a in
      if isDigit c || (hex && (0x61 <=? lower c) && (lower c <=? 0x66))
      then underscoreLoop hex sawDigit r
      else if c =? 0x5F then
        match saw with
        | sawDigit => underscoreLoop hex sawUnderscore r
        | _ => false
        end
      else
        match saw with
        | sawUnderscore => false
        | _ => underscoreLoop hex sawOther r
        end
  end.

Definition underscoreOK (s : string) : bool :=
  let s :=
    match s with
    | String a r => if (byteZ a =? 0x2D) || (byteZ a =? 0x2B) then r else s
    | EmptyString => s
    end in
  match s with
  | String a (String b r) =>
      if (byteZ a =? 0x30)
         && ((lower (byteZ b) =? 0x62) || (lower (byteZ b) =? 0x6F)
             || (lower (byteZ b) =? 0x78))
      then underscoreLoop (lower (byteZ b) =? 0x78) sawDigit r
      else underscoreLoop false sawStart s
  | _ => underscoreLoop false sawStart s
  end.

(** [readFloat]: the mantissa, the exponent (of ten, or of two for a
    hexadecimal number), the sign and whether the number is hexadecimal;
    [None] where Go returns [ok = false]. *)
Definition readFloat (s : string) : option (Z * Z * bool * bool) :=
  match s with
  | EmptyString => None
  | String a _ =>
      (* optional sign *)
      let neg := byteZ a =? 0x2D in
      let s1 := if (byteZ a =? 0x2B) || (byteZ a =? 0x2D)
                then drop 1 s else s in
      (* base prefix: [i+2 < len(s) && s[i] == '0' && lower(s[i+1]) == 'x'] *)
      let hex := (2 <? Z.of_nat (String.length s1))
                 && (byteAt s1 0 =? 0x30) && (lower (byteAt s1 1) =? 0x78) in
      let s2 := if hex then drop 2 s1 else s1 in
      match readDigits hex (mkMant 0 0 0 false false false) s2 with
      | None => None
      | Some (st, s3) =>
          if negb (sawdigits st) then None else
          let dp := if sawdot st then dp st else nd st in
          let dp := if hex then dp * 4 else dp in
          let ndMant := if hex then nd st * 4 else nd st in
          let expChar := if hex then 0x70 (* p *) else 0x65 (* e *) in
          let tail :=
            match s3 with
            | String x s4 =>
                if lower (byteZ x) =? expChar then
                  match s4 with
                  | EmptyString => None
                  | String y s5 =>
                      let esign := if byteZ y =? 0x2D then -1 else 1 in
                      let s6 := if (byteZ y =? 0x2B) || (byteZ y =? 0x2D)
                                then s5 else s4 in
                      match s6 with
                      | EmptyString => None
                      | String z _ =>
                          if negb (isDigit (byteZ z)) then None else
                          let '(e, us, s7) :=
                            readExponent 0 (underscores st) s6 in
                          Some (dp + e * esign, us, s7)
                      end
                  end
                else if hex then None
                else Some (dp, underscores st, s3)
            | EmptyString =>
                if hex then None else Some (dp, underscores st, s3)
            end in
          match tail with
          | None => None
          | Some (dp, us, rest) =>
              if negb (String.eqb rest "") then None else
              let exp := if mantissa st =? 0 then 0 else dp - ndMant in
              if us && negb (underscoreOK s) then None
              else Some (mantissa st, exp, neg, hex)
          end
      end
  end.

(** [strconv.ParseFloat(s, 64)]: the value and the error. *)
Definition ParseFloat (s : string) : float64 * option error :=
  match special s with
  | Some v => (v, None)
  | None =>
      match readFloat s with
      | None => (S754_zero false, Some (syntaxError fnParseFloat s))
      | Some (mant, exp, neg, hex) =>
          let (f, ovf) := if hex then roundBinary neg mant exp
                          else roundDecimal neg mant exp in
          (f, if ovf then Some (rangeError fnParseFloat s) else None)
      end
  end.

(** *** Writing a number *)

(** [type decimal struct]: the digits [d] (each 0 to 9, the first and the
    last not zero) and the place [dp] of the decimal point; the value is
    [0.d1d2...dn * 10^dp].  [nd] is the length of [d]. *)
Record decimal : Type := mkDecimal { d : list Z; dp10 : Z }.

Definition ndOf (a : decimal) : Z := Z.of_nat (List.length (d a)).

(** The integer written by a list of digits. *)
Definition valueOf (ds : list Z) : Z :=
  fold_left (fun acc x => acc * 10 + x) ds 0.

(** The decimal digits of a positive integer, the most significant first;
    an integer has no more decimal digits than binary ones. *)
Fixpoint digitsLoop (fuel : nat) (n : Z) (acc : list Z) : list Z :=
  match fuel with
  | O => acc
  | S k => if n <=? 0 then acc
           else digitsLoop k (n / 10) (n mod 10 :: acc)
  end.

Definition digitsOf (n : Z) : list Z :=
  digitsLoop (S (Z.to_nat (Z.log2 n))) n [].

Fixpoint dropZeros (r : list Z) : list Z :=
  match r with
  | 0 :: r' => dropZeros r'
  | _ => r
  end.

(** [trim]: the trailing zeros go. *)
Definition trim (ds : list Z) : list Z := rev (dropZeros (rev ds)).

Fixpoint dropNines (r : list Z) : list Z :=
  match r with
  | 9 :: r' => dropNines r'
  | _ => r
  end.

(** [decimal.RoundDown(nd)]: keep [nd] digits. *)
Definition RoundDown (a : decimal) (n : nat) : decimal :=
  mkDecimal (trim (firstn n (d a))) (dp10 a).

(** [decimal.RoundUp(nd)]: keep [nd] digits and add one in the last
    place kept; nines carry, and a number of nines only becomes a single 1
    with the point moved. *)
Definition RoundUp (a : decimal) (n : nat) : decimal :=
  match dropNines (rev (firstn n (d a))) with
  | [] => mkDecimal [1] (dp10 a + 1)
  | c :: r => mkDecimal (rev (c + 1 :: r)) (dp10 a)
  end.

(** [shouldRoundUp]: half rounds to even. *)
Definition shouldRoundUp (a : decimal) (n : nat) : bool :=
  if (List.length (d a) <=? n)%nat then false
  else if (nth n (d a) 0 =? 5) && (S n =? List.length (d a))%nat then
    (0 <? n)%nat && Z.odd (nth (pred n) (d a) 0)
  else 5 <=? nth n (d a) 0.

(** [decimal.Round(nd)] *)
Definition Round (a : decimal) (n : nat) : decimal :=
  if (List.length (d a) <=? n)%nat then a
  else if shouldRoundUp a n then RoundUp a n else RoundDown a n.

(** The exact decimal expansion of [m * 2^e]: [d.Assign(mant)] and
    [d.Shift(exp - mantbits)]. *)
Definition exactDecimal (m : positive) (e : Z) : decimal :=
  if 0 <=? e then
    let ds := digitsOf (Zpos m * 2 ^ e) in
    mkDecimal (trim ds) (Z.of_nat (List.length ds))
  else
    let ds := digitsOf (Zpos m * 5 ^ (- e)) in
    mkDecimal (trim ds) (Z.of_nat (List.length ds) + e).

(** Whether [ParseFloat] reads the decimal [a], with the sign [neg], as
    [x]. *)
Definition readsAs (x : float64) (neg : bool) (a : decimal) : bool :=
  let (f, ovf) := roundDecimal neg (valueOf (d a)) (dp10 a - ndOf a) in
  negb ovf && float64_eqb f x.

(** [roundShortest]: the digits of the exact expansion are walked until
    cutting there, or cutting and adding one in the last place, leaves a
    decimal that still reads as [x]: "the smallest number of digits
    necessary such that ParseFloat will return f exactly".  Go decides it
    by comparing digits with the halfway points to the neighbours of [x];
    it is decided here by reading the candidate back.  Where both
    candidates do, the nearer one is taken. *)
Fixpoint shortestLoop (x : float64) (neg : bool) (a : decimal)
    (fuel n : nat) : decimal :=
  match fuel with
  | O => a
  | S k =>
      let okdown := readsAs x neg (RoundDown a n) in
      let okup := readsAs x neg (RoundUp a n) in
      if okdown && okup then Round a n
      else if okdown then RoundDown a n
      else if okup then RoundUp a n
      else shortestLoop x neg a k (S n)
  end.

Definition roundShortest (x : float64) (neg : bool) (a : decimal) : decimal :=
  shortestLoop x neg a (S (List.length (d a))) 0.

Definition digitChar (x : Z) : ascii := ascii_of_N (Z.to_N (0x30 + x)).

Fixpoint digitString (ds : list Z) : string :=
  match ds with
  | [] => EmptyString
  | x :: r => String (digitChar x) (digitString r)
  end.

Fixpoint zeros (n : nat) : string :=
  match n with
  | O => EmptyString
  | S k => String "0" (zeros k)
  end.

(** [fmtF]: [%f], as [-ddddddd.ddddd]. *)
Definition fmtF (neg : bool) (a : decimal) (prec : Z) : string :=
  let nd := ndOf a in
  (if neg then "-" else "")
  ++ (if 0 <? dp10 a then
        let m := Z.min nd (dp10 a) in
        digitString (firstn (Z.to_nat m) (d a))
        ++ zeros (Z.to_nat (dp10 a - m))
      else "0")
  ++ (if 0 <? prec then
        String "."
          (digitString
             (map (fun i =>
                     let j := dp10 a + Z.of_nat i in
                     if (0 <=? j) && (j <? nd)
                     then nth (Z.to_nat j) (d a) 0 else 0)
                  (seq 0 (Z.to_nat prec))))
      else "").

(** [strconv.FormatFloat(f, 'f', -1, 64)]: the shortest decimal that reads
    back as [f], written without an exponent. *)
Definition FormatFloat (f : float64) : string :=
  match f with
  | S754_nan => "NaN"
  | S754_infinity false => "+Inf"
  | S754_infinity true => "-Inf"
  | S754_zero neg => fmtF neg (mkDecimal [] 0) 0
  | S754_finite neg m e =>
      let digs := roundShortest f neg (exactDecimal m e) in
      fmtF neg digs (Z.max (ndOf digs - dp10 digs) 0)
  end.

End strconv.

(** ** Package [unicode/utf16] and the encoder of [unicode/utf8] *)

Module utf16.
Local Open Scope Z_scope.

Definition surr1 : Z := 0xd800.
Definition surr2 : Z := 0xdc00.
Definition surr3 : Z := 0xe000.
Definition surrSelf : Z := 0x10000.
Definition replacementChar : Z := 0xFFFD.

(** [utf16.IsSurrogate] *)
Definition IsSurrogate (r : Z) : bool := (surr1 <=? r) && (r <? surr3).

(** [utf16.DecodeRune] *)
Definition DecodeRune (r1 r2 : Z) : Z :=
  if (surr1 <=? r1) && (r1 <? surr2) && (surr2 <=? r2) && (r2 <? surr3)
  then Z.lor (Z.shiftl (r1 - surr1) 10) (r2 - surr2) + surrSelf
  else replacementChar.

End utf16.

Module utf8enc.
Local Open Scope Z_scope.

Definition byteOf (x : Z) : ascii := ascii_of_N (Z.to_N (Z.land x 0xFF)).

(** [utf8.EncodeRune]: the bytes of the UTF-8 encoding of a rune; a
    surrogate or a rune out of range is encoded as [RuneError]. *)
Definition EncodeRune (r : Z) : string :=
  if (0 <=? r) && (r <=? 0x7F) then String (byteOf r) ""
  else if (0 <=? r) && (r <=? 0x7FF) then
    String (byteOf (Z.lor 0xC0 (Z.shiftr r 6)))
      (String (byteOf (Z.lor 0x80 (Z.land r utf8.maskx))) "")
  else if (r <? 0) || (utf8.MaxRune <? r)
          || ((0xD800 <=? r) && (r <=? 0xDFFF)) then
    String (byteOf 0xEF) (String (byteOf 0xBF) (String (byteOf 0xBD) ""))
  else if r <=? 0xFFFF then
    String (byteOf (Z.lor 0xE0 (Z.shiftr r 12)))
      (String (byteOf (Z.lor 0x80 (Z.land (Z.shiftr r 6) utf8.maskx)))
         (String (byteOf (Z.lor 0x80 (Z.land r utf8.maskx))) ""))
  else
    String (byteOf (Z.lor 0xF0 (Z.shiftr r 18)))
      (String (byteOf (Z.lor 0x80 (Z.land (Z.shiftr r 12) utf8.maskx)))
         (String (byteOf (Z.lor 0x80 (Z.land (Z.shiftr r 6) utf8.maskx)))
            (String (byteOf (Z.lor 0x80 (Z.land r utf8.maskx))) ""))).

End utf8enc.

(** ** Package [encoding/json] *)

Module json.
Local Open Scope Z_scope.

(** *** The scanner

    [scanner.go] is a state machine stepped once per byte: [step] is the
    state, [parseState] the stack of the composite values being scanned
    (the innermost first here), [endTop] tells that the top-level value has
    ended and [err] that an error was recorded. *)

Inductive stepState : Type :=
| stateBeginValueOrEmpty | stateBeginValue | stateBeginStringOrEmpty
| stateBeginString | stateEndValue | stateEndTop
| stateInString | stateInStringEsc | stateInStringEscU
| stateInStringEscU1 | stateInStringEscU12 | stateInStringEscU123
| stateNeg | state1 | state0 | stateDot | stateDot0
| stateE | stateESign | stateE0
| stateT | stateTr | stateTru
| stateF | stateFa | stateFal | stateFals
| stateN | stateNu | stateNul
| stateError.

Inductive parseKind : Type :=
| parseObjectKey | parseObjectValue | parseArrayValue.

Inductive opcode : Type :=
| scanContinue | scanBeginLiteral | scanBeginObject | scanObjectKey
| scanObjectValue | scanEndObject | scanBeginArray | scanArrayValue
| scanEndArray | scanSkipSpace | scanEnd | scanError.

Record scanner : Type := mkScanner {
  step : stepState;
  endTop : bool;
  parseState : list parseKind;
  err : bool
}.

(** [scan.reset()] *)
Definition reset : scanner := mkScanner stateBeginValue false [] false.

Definition setStep (s : scanner) (st : stepState) : scanner :=
  mkScanner st (endTop s) (parseState s) (err s).

(** [s.error(c, context)] *)
Definition error_ (s : scanner) : scanner * opcode :=
  (mkScanner stateError (endTop s) (parseState s) true, scanError).

Definition isSpace (c : Z) : bool :=
  (c <=? 0x20) && ((c =? 0x20) || (c =? 0x09) || (c =? 0x0D) || (c =? 0x0A)).

Definition isHex (c : Z) : bool :=
  ((0x30 <=? c) && (c <=? 0x39)) || ((0x61 <=? c) && (c <=? 0x66))
  || ((0x41 <=? c) && (c <=? 0x46)).

Definition is19 (c : Z) : bool := (0x31 <=? c) && (c <=? 0x39).
Definition is09 (c : Z) : bool := (0x30 <=? c) && (c <=? 0x39).

(** [stateEndTop]: only space may follow the top-level value; another
    byte records the error, reported at the next step or at the end. *)
Definition doEndTop (s : scanner) (c : Z) : scanner * opcode :=
  if negb (isSpace c) then (fst (error_ s), scanEnd) else (s, scanEnd).

(** [s.popParseState()] *)
Definition popParseState (s : scanner) : scanner :=
  match parseState s with
  | [] => s
  | _ :: [] => mkScanner stateEndTop true [] (err s)
  | _ :: rest => mkScanner stateEndValue (endTop s) rest (err s)
  end.

Definition replaceTop (s : scanner) (p : parseKind) (st : stepState)
  : scanner :=
  mkScanner st (endTop s) (p :: tl (parseState s)) (err s).

(** [stateEndValue] *)
Definition doEndValue (s : scanner) (c : Z) : scanner * opcode :=
  match parseState s with
  | [] => doEndTop (mkScanner stateEndTop true [] (err s)) c
  | ps :: _ =>
      if isSpace c then (setStep s stateEndValue, scanSkipSpace)
      else
        match ps with
        | parseObjectKey =>
            if c =? 0x3A (* : *)
            then (replaceTop s parseObjectValue stateBeginValue,
                  scanObjectKey)
            else error_ s
        | parseObjectValue =>
            if c =? 0x2C (* , *)
            then (replaceTop s parseObjectKey stateBeginString,
                  scanObjectValue)
            else if c =? 0x7D (* } *)
            then (popParseState s, scanEndObject)
            else error_ s
        | parseArrayValue =>
            if c =? 0x2C
            then (setStep s stateBeginValue, scanArrayValue)
            else if c =? 0x5D (* ] *)
            then (popParseState s, scanEndArray)
            else error_ s
        end
  end.

(** [s.pushParseState(p)] together with the assignment to [s.step] *)
Definition pushParseState (s : scanner) (p : parseKind) (st : stepState)
  : scanner :=
  mkScanner st (endTop s) (p :: parseState s) (err s).

(** [stateBeginValue] *)
Definition doBeginValue (s : scanner) (c : Z) : scanner * opcode :=
  if isSpace c then (s, scanSkipSpace)
  else if c =? 0x7B (* { *) then
    (pushParseState s parseObjectKey stateBeginStringOrEmpty,
     scanBeginObject)
  else if c =? 0x5B (* [ *) then
    (pushParseState s parseArrayValue stateBeginValueOrEmpty,
     scanBeginArray)
  else if c =? 0x22 then (setStep s stateInString, scanBeginLiteral)
  else if c =? 0x2D then (setStep s stateNeg, scanBeginLiteral)
  else if c =? 0x30 then (setStep s state0, scanBeginLiteral)
  else if c =? 0x74 then (setStep s stateT, scanBeginLiteral)
  else if c =? 0x66 then (setStep s stateF, scanBeginLiteral)
  else if c =? 0x6E then (setStep s stateN, scanBeginLiteral)
  else if is19 c then (setStep s state1, scanBeginLiteral)
  else error_ s.

(** [stateBeginValueOrEmpty]: after [[] *)
Definition doBeginValueOrEmpty (s : scanner) (c : Z) : scanner * opcode :=
  if isSpace c then (s, scanSkipSpace)
  else if c =? 0x5D then doEndValue s c
  else doBeginValue s c.

(** [stateBeginString]: after [{"key": value,] *)
Definition doBeginString (s : scanner) (c : Z) : scanner * opcode :=
  if isSpace c then (s, scanSkipSpace)
  else if c =? 0x22 then (setStep s stateInString, scanBeginLiteral)
  else error_ s.

(** [stateBeginStringOrEmpty]: after [{] *)
Definition doBeginStringOrEmpty (s : scanner) (c : Z) : scanner * opcode :=
  if isSpace c then (s, scanSkipSpace)
  else if c =? 0x7D then
    doEndValue (mkScanner (step s) (endTop s)
                  (parseObjectValue :: tl (parseState s)) (err s)) c
  else doBeginString s c.

Definition expect (s : scanner) (c want : Z) (next : stepState)
  : scanner * opcode :=
  if c =? want then (setStep s next, scanContinue) else error_ s.

(** [state0]: after [0] in a number *)
Definition do0 (s : scanner) (c : Z) : scanner * opcode :=
  if c =? 0x2E then (setStep s stateDot, scanContinue)
  else if (c =? 0x65) || (c =? 0x45) then (setStep s stateE, scanContinue)
  else doEndValue s c.

(** [stateESign]: after the mantissa, [e] and a sign *)
Definition doESign (s : scanner) (c : Z) : scanner * opcode :=
  if is09 c then (setStep s stateE0, scanContinue) else error_ s.

(** One step of the scanner: [s.step(s, c)]. *)
Definition stepScanner (s : scanner) (c : Z) : scanner * opcode :=
  match step s with
  | stateBeginValueOrEmpty => doBeginValueOrEmpty s c
  | stateBeginValue => doBeginValue s c
  | stateBeginStringOrEmpty => doBeginStringOrEmpty s c
  | stateBeginString => doBeginString s c
  | stateEndValue => doEndValue s c
  | stateEndTop => doEndTop s c
  | stateInString =>
      if c =? 0x22 then (setStep s stateEndValue, scanContinue)
      else if c =? 0x5C then (setStep s stateInStringEsc, scanContinue)
      else if c <? 0x20 then error_ s
      else (s, scanContinue)
  | stateInStringEsc =>
      if (c =? 0x62) || (c =? 0x66) || (c =? 0x6E) || (c =? 0x72)
         || (c =? 0x74) || (c =? 0x5C) || (c =? 0x2F) || (c =? 0x22)
      then (setStep s stateInString, scanContinue)
      else if c =? 0x75 then (setStep s stateInStringEscU, scanContinue)
      else error_ s
  | stateInStringEscU =>
      if isHex c then (setStep s stateInStringEscU1, scanContinue)
      else error_ s
  | stateInStringEscU1 =>
      if isHex c then (setStep s stateInStringEscU12, scanContinue)
      else error_ s
  | stateInStringEscU12 =>
      if isHex c then (setStep s stateInStringEscU123, scanContinue)
      else error_ s
  | stateInStringEscU123 =>
      if isHex c then (setStep s stateInString, scanContinue)
      else error_ s
  | stateNeg =>
      if c =? 0x30 then (setStep s state0, scanContinue)
      else if is19 c then (setStep s state1, scanContinue)
      else error_ s
  | state1 =>
      if is09 c then (setStep s state1, scanContinue) else do0 s c
  | state0 => do0 s c
  | stateDot =>
      if is09 c then (setStep s stateDot0, scanContinue) else error_ s
  | stateDot0 =>
      if is09 c then (s, scanContinue)
      else if (c =? 0x65) || (c =? 0x45)
      then (setStep s stateE, scanContinue)
      else doEndValue s c
  | stateE =>
      if (c =? 0x2B) || (c =? 0x2D) then (setStep s stateESign, scanContinue)
      else doESign s c
  | stateESign => doESign s c
  | stateE0 =>
      if is09 c then (s, scanContinue) else doEndValue s c
  | stateT => expect s c 0x72 stateTr
  | stateTr => expect s c 0x75 stateTru
  | stateTru => expect s c 0x65 stateEndValue
  | stateF => expect s c 0x61 stateFa
  | stateFa => expect s c 0x6C stateFal
  | stateFal => expect s c 0x73 stateFals
  | stateFals => expect s c 0x65 stateEndValue
  | stateN => expect s c 0x75 stateNu
  | stateNu => expect s c 0x6C stateNul
  | stateNul => expect s c 0x6C stateEndValue
  | stateError => (s, scanError)
  end.

(** [s.eof()]: [true] is [scanEnd], [false] is [scanError]. *)
Definition eof (s : scanner) : bool :=
  if err s then false
  else if endTop s then true
  else
    let s' := fst (stepScanner s 0x20) in
    endTop s'.

(** The loop of [checkValid]: [None] when a step returned [scanError]. *)
Fixpoint scanAll (s : scanner) (data : string) : option scanner :=
  match data with
  | EmptyString => Some s
  | String a r =>
      let (s', op) := stepScanner s (byteZ a) in
      match op with
      | scanError => None
      | _ => scanAll s' r
      end
  end.

(** [checkValid]: the syntax error of [data], if it has one. *)
Definition checkValid (data : string) : option error :=
  match scanAll reset data with
  | None => Some SyntaxError
  | Some s => if eof s then None else Some SyntaxError
  end.

(** *** The decoder, into an empty [interface{}] *)

(** What [json.Unmarshal] stores in a [var unk interface{}]: its dynamic
    type is [nil], [bool], [float64], [string], [[]interface{}] or
    [map[string]interface{}].  The elements of a slice and of a map are
    left out: the type switch of [FlexInt.UnmarshalJSON] does not read
    them. *)
Inductive value : Type :=
| Nil
| Bool (b : bool)
| Float64 (f : strconv.float64)
| Str (s : string)
| Slice
| Map.

Definition isNumberStep (st : stepState) : bool :=
  match st with
  | stateNeg | state1 | state0 | stateDot | stateDot0
  | stateE | stateESign | stateE0 => true
  | _ => false
  end.

(** The number literals of a valid document, in the order the decoder
    meets them.  [cur] is the literal being read, its bytes reversed. *)
Fixpoint numberLiterals (s : scanner) (cur : option string) (data : string)
  : list string :=
  let close cur :=
    match cur with
    | Some lit => [string_of_list_ascii (rev (list_ascii_of_string lit))]
    | None => []
    end in
  match data with
  | EmptyString => close cur
  | String a r =>
      let (s', op) := stepScanner s (byteZ a) in
      match cur with
      | Some lit =>
          if isNumberStep (step s')
          then numberLiterals s' (Some (String a lit)) r
          else close cur ++ numberLiterals s' None r
      | None =>
          match op with
          | scanBeginLiteral =>
              if isNumberStep (step s')
              then numberLiterals s' (Some (String a EmptyString)) r
              else numberLiterals s' None r
          | _ => numberLiterals s' None r
          end
      end
  end.

(** [d.convertNumber]: a number literal as a [float64]. *)
Definition convertNumber (lit : string) : strconv.float64 * option error :=
  let (f, e) := strconv.ParseFloat lit in
  match e with
  | Some _ => (f, Some (UnmarshalTypeError ("number " ++ lit)))
  | None => (f, None)
  end.

(** [d.saveError] keeps the first error. *)
Fixpoint savedError (lits : list string) : option error :=
  match lits with
  | [] => None
  | lit :: r =>
      match snd (convertNumber lit) with
      | Some e => Some e
      | None => savedError r
      end
  end.

(** [getu4]: the rune of [\uXXXX], or -1. *)
Definition hexVal (c : Z) : Z :=
  if (0x30 <=? c) && (c <=? 0x39) then c - 0x30
  else if (0x61 <=? c) && (c <=? 0x66) then c - 0x61 + 10
  else if (0x41 <=? c) && (c <=? 0x46) then c - 0x41 + 10
  else -1.

Definition getu4 (s : string) : Z :=
  if (String.length s <? 6)%nat || negb (byteAt s 0 =? 0x5C)
     || negb (byteAt s 1 =? 0x75) then -1
  else
    let h i := hexVal (byteAt s i) in
    if (h 2%nat <? 0) || (h 3%nat <? 0) || (h 4%nat <? 0) || (h 5%nat <? 0)
    then -1
    else h 2%nat * 4096 + h 3%nat * 256 + h 4%nat * 16 + h 5%nat.

(** [unquote], on the bytes that follow the opening quote of a literal:
    the text up to the closing quote, with the escapes replaced and
    ill-formed UTF-8 coerced to U+FFFD.  [None] where Go returns
    [ok = false], which a literal the scanner accepted never does. *)
Fixpoint unquoteLoop (fuel : nat) (s : string) : option string :=
  match fuel with
  | O => None
  | S k =>
      match s with
      | EmptyString => None
      | String a r =>
          let c := byteZ a in
          if c =? 0x5C then
            match r with
            | EmptyString => None
            | String b r' =>
                let e := byteZ b in
                let lit x := option_map (String x) (unquoteLoop k r') in
                if (e =? 0x22) || (e =? 0x5C) || (e =? 0x2F) || (e =? 0x27)
                then lit b
                else if e =? 0x62 then lit "008"%char
                else if e =? 0x66 then lit "012"%char
                else if e =? 0x6E then lit "010"%char
                else if e =? 0x72 then lit "013"%char
                else if e =? 0x74 then lit "009"%char
                else if e =? 0x75 then
                  let rr := getu4 s in
                  if rr <? 0 then None
                  else
                    let s1 := drop 6 s in
                    if utf16.IsSurrogate rr then
                      let dec := utf16.DecodeRune rr (getu4 s1) in
                      if negb (dec =? utf16.replacementChar) then
                        option_map (append (utf8enc.EncodeRune dec))
                          (unquoteLoop k (drop 6 s1))
                      else
                        option_map
                          (append
                             (utf8enc.EncodeRune utf16.replacementChar))
                          (unquoteLoop k s1)
                    else
                      option_map (append (utf8enc.EncodeRune rr))
                        (unquoteLoop k s1)
                else None
            end
          else if c =? 0x22 then Some EmptyString
          else if c <? 0x20 then None
          else if c <? utf8.RuneSelf then
            option_map (String a) (unquoteLoop k r)
          else
            let (rr, size) := utf8.DecodeRuneInString s in
            option_map (append (utf8enc.EncodeRune rr))
              (unquoteLoop k (drop size s))
      end
  end.

Definition unquote (body : string) : option string :=
  unquoteLoop (String.length body) body.

(** [d.scanWhile(scanSkipSpace)] *)
Fixpoint skipSpace (data : string) : string :=
  match data with
  | String a r => if isSpace (byteZ a) then skipSpace r else data
  | EmptyString => data
  end.

(** The bytes of a number, as [rescanLiteral] takes them. *)
Definition isNumberByte (c : Z) : bool :=
  is09 c || (c =? 0x2E) || (c =? 0x65) || (c =? 0x45) || (c =? 0x2B)
  || (c =? 0x2D).

Fixpoint numberPrefix (item : string) : string :=
  match item with
  | String a r =>
      if isNumberByte (byteZ a) then String a (numberPrefix r)
      else EmptyString
  | EmptyString => EmptyString
  end.

(** [d.unmarshal(&unk)] on a document that [checkValid] accepted: what
    [unk] holds afterwards and [d.savedError].  The first byte of the
    value tells its kind.  A number that [strconv.ParseFloat] rejects
    leaves an [UnmarshalTypeError] and is not stored; inside an array or an
    object the first such number leaves the error. *)
Definition unmarshal (data : string) : value * option error :=
  let item := skipSpace data in
  match item with
  | EmptyString => (Nil, None)
  | String a body =>
      let c := byteZ a in
      if c =? 0x7B then
        (Map, savedError (numberLiterals reset None data))
      else if c =? 0x5B then
        (Slice, savedError (numberLiterals reset None data))
      else if c =? 0x6E then (Nil, None)
      else if c =? 0x74 then (Bool true, None)
      else if c =? 0x66 then (Bool false, None)
      else if c =? 0x22 then
        match unquote body with
        | Some s => (Str s, None)
        | None => (Nil, None)
        end
      else
        match convertNumber (numberPrefix item) with
        | (f, None) => (Float64 f, None)
        | (_, Some e) => (Nil, Some e)
        end
  end.

(** [json.Unmarshal(data, &unk)] for [var unk interface{}], [unk] being
    [nil] before the call: the document is checked first, and nothing is
    stored on a syntax error. *)
Definition Unmarshal (data : list byte) : value * option error :=
  match checkValid (string_of_list_byte data) with
  | Some e => (Nil, Some e)
  | None => unmarshal (string_of_list_byte data)
  end.

End json.
(** ** The path constants and the client handle *)

(** APILoginPath is Unifi Controller Login API Path *)
Definition APILoginPath : string := "/api/login".
(** APILoginPathNew is how we log into UDM 5.12.55+ *)
Definition APILoginPathNew : string := "/api/auth/login".
(** APIPrefixNew is the prefix added to the new API paths; except login. *)
Definition APIPrefixNew : string := "/proxy/network".

(** [type Logger func(msg string, fmt ...interface{})]: a logger only
    writes; it is kept as the trace of messages it is handed. *)
Definition Logger : Type := string -> list string.

Definition discardLogs : Logger := fun _ => [].

(** [type Config struct]. *)
Record Config : Type := mkConfig {
  User : string;
  Pass : string;
  URL : string;
  VerifySSL : bool;
  New : bool;
  ErrorLog : Logger;
  DebugLog : Logger
}.

(** [type Unifi struct]: the embedded [*Config] is the record it points
    to ([u.New] reads the field through the pointer); of the embedded
    [*http.Client] and [*server] nothing is read by [path], they are left
    out, and [csrf] is kept. *)
Record Unifi : Type := mkUnifi {
  config : Config;
  csrf : string
}.

(** [func (u *Unifi) path(path string) string] *)
Definition path (u : Unifi) (path : string) : string :=
  if New (config u) then
    if String.eqb path APILoginPath then APILoginPathNew
    else if negb (strings.HasPrefix path APIPrefixNew)
            && negb (String.eqb path APILoginPathNew)
         then APIPrefixNew ++ path
         else path
  else path.

(** A string starts with a prefix when it is the prefix followed by
    something. *)
Definition starts_with (s prefix : string) : Prop :=
  exists rest, s = prefix ++ rest.

(** ** FlexBool *)

Module FlexBool.

(** [type FlexBool struct { Val bool; Txt string }] *)
Record t : Type := mk { Val : bool; Txt : string }.

Section UnmarshalJSON.

Variable foldRest : Z -> Z.

Let EqualFold := strings.EqualFold foldRest.

(** [func (f *FlexBool) UnmarshalJSON(b []byte) error]: the receiver after
    the call and the error returned. *)
Definition UnmarshalJSON (f : t) (b : list byte) : t * option error :=
  let txt := strings.Trim (string_of_list_byte b) dquote in
  let f := mk (Val f) txt in
  let val :=
    String.eqb (Txt f) "1" || EqualFold (Txt f) "true"
    || EqualFold (Txt f) "yes" || EqualFold (Txt f) "t"
    || EqualFold (Txt f) "armed" || EqualFold (Txt f) "active"
    || EqualFold (Txt f) "enabled" || EqualFold (Txt f) "ready"
    || EqualFold (Txt f) "up" || EqualFold (Txt f) "ok" in
  let f := mk val (Txt f) in
  (f, None).

(** [func (f *FlexBool) String() string] *)
Definition String_ (f : t) : string := Txt f.

End UnmarshalJSON.

End FlexBool.

(** ** FlexInt *)

(** [errCannotUnmarshalFlexInt = fmt.Errorf("cannot unmarshal to FlexInt")]
    *)
Definition errCannotUnmarshalFlexInt : error :=
  errorString "cannot unmarshal to FlexInt".

(** A number of one byte in decimal, as [fmt] writes an integer. *)
Definition decimalString (n : Z) : string :=
  if (n =? 0)%Z then "0" else strconv.digitString (strconv.digitsOf n).

(** [fmt.Sprintf("%v", b)] for a [[]byte]: the bytes in decimal, separated
    by spaces, between brackets. *)
Fixpoint joinBytes (b : list byte) : string :=
  match b with
  | [] => ""
  | x :: [] => decimalString (Z.of_N (Byte.to_N x))
  | x :: r => decimalString (Z.of_N (Byte.to_N x)) ++ " " ++ joinBytes r
  end.

Definition fmtBytes (b : list byte) : string := "[" ++ joinBytes b ++ "]".

(** [errors.Wrapf(err, "%v", b)] of [github.com/pkg/errors], for an [err]
    that is not [nil]. *)
Definition Wrapf (err : error) (b : list byte) : error :=
  withMessage err (fmtBytes b).

Module FlexInt.

(** [type FlexInt struct { Val float64; Txt string }] *)
Record t : Type := mk { Val : strconv.float64; Txt : string }.

(** [func (f *FlexInt) UnmarshalJSON(b []byte) error]: the receiver after
    the call and the error returned. *)
Definition UnmarshalJSON (f : t) (b : list byte) : t * option error :=
  let (unk, err) := json.Unmarshal b in
  match err with
  | Some err => (f, Some err)
  | None =>
      match unk with
      | json.Float64 i =>
          let f := mk i (Txt f) in
          let f := mk (Val f) (strconv.FormatFloat i) in
          (f, None)
      | json.Str i =>
          let f := mk (Val f) i in
          let f := mk (fst (strconv.ParseFloat i)) (Txt f) in
          (f, None)
      | json.Nil =>
          let f := mk (Val f) "0" in
          let f := mk (S754_zero false) (Txt f) in
          (f, None)
      | _ => (f, Some (Wrapf errCannotUnmarshalFlexInt b))
      end
  end.

(** [func (f *FlexInt) String() string] *)
Definition String_ (f : t) : string := Txt f.

End FlexInt.

(** *** The words of the specification for the boolean decoder *)

(** The runes of a string, as [for _, r := range s] yields them. *)
Fixpoint runes_loop (fuel : nat) (s : string) : list Z :=
  match s with
  | EmptyString => []
  | _ =>
      match fuel with
      | O => []
      | S k => let (r, s') := strings.nextRune s in r :: runes_loop k s'
      end
  end.

Definition runes (s : string) : list Z := runes_loop (String.length s) s.

(** The representative of a rune among the runes that differ from it by
    case only, for the runes whose case variants include an ASCII letter:
    the lower-case ASCII letter. *)
Definition caseless (r : Z) : Z :=
  if (0x41 <=? r)%Z && (r <=? 0x5A)%Z then (r + 0x20)%Z
  else if (r =? 0x212A)%Z then 0x6B%Z
  else if (r =? 0x017F)%Z then 0x73%Z
  else r.

(** [s] matches the token [tok] without regard to case. *)
Definition matches_caseless (s tok : string) : Prop :=
  map caseless (runes s) = map caseless (runes tok).

(** The truthy vocabulary. *)
Definition truthy : list string :=
  ["1"; "true"; "yes"; "t"; "armed"; "active"; "enabled"; "ready"; "up";
   "ok"].

(** Stripping one layer of double quotes: one quote from the front when
    the text starts with one, and one from the back when it ends with
    one. *)
Definition strip_front (s : string) : string :=
  match s with
  | String a r => if Ascii.eqb a dquote then r else s
  | EmptyString => EmptyString
  end.

Fixpoint strip_back (s : string) : string :=
  match s with
  | EmptyString => EmptyString
  | String a EmptyString => if Ascii.eqb a dquote then EmptyString else s
  | String a r => String a (strip_back r)
  end.

Definition strip_one_layer (s : string) : string :=
  strip_back (strip_front s).

(** A text made of double quotes only. *)
Fixpoint all_quotes (s : string) : bool :=
  match s with
  | EmptyString => true
  | String a r => Ascii.eqb a dquote && all_quotes r
  end.

(** The first and the last byte of a non-empty string. *)
Definition first_byte (s : string) : option ascii :=
  match s with
  | EmptyString => None
  | String a _ => Some a
  end.

Fixpoint last_byte (s : string) : option ascii :=
  match s with
  | EmptyString => None
  | String a EmptyString => Some a
  | String _ r => last_byte r
  end.

(** The raw bytes of a text. *)
Definition bytes (s : string) : list byte := list_byte_of_string s.

(** The text between double quotes, as raw bytes. *)
Definition quoted (s : string) : list byte :=
  bytes (String dquote (s ++ String dquote EmptyString)).

(** The rule at one legacy handle and one new-firmware handle. *)
Definition legacy_handle : Unifi :=
  mkUnifi (mkConfig "u" "p" "https://127.0.0.1:8443" false false
             discardLogs discardLogs) "".

Definition udm_handle : Unifi :=
  mkUnifi (mkConfig "u" "p" "https://127.0.0.1" false true
             discardLogs discardLogs) "".

(** *** The words of the specification for the numeric decoder *)

(** The kinds of JSON values. *)
Inductive jsonKind : Type :=
| KObject | KArray | KString | KNumber | KBoolean | KNull.

(** The kind of the JSON value written by [data]: [None] when [data] is
    not a valid JSON text. *)
Definition kindOf (data : list byte) : option jsonKind :=
  match json.checkValid (string_of_list_byte data) with
  | Some _ => None
  | None =>
      match json.skipSpace (string_of_list_byte data) with
      | EmptyString => None
      | String a _ =>
          let c := byteZ a in
          Some (if (c =? 0x7B)%Z then KObject
                else if (c =? 0x5B)%Z then KArray
                else if (c =? 0x22)%Z then KString
                else if (c =? 0x6E)%Z then KNull
                else if (c =? 0x74)%Z || (c =? 0x66)%Z then KBoolean
                else KNumber)
      end
  end.

(** [data] is the JSON string whose value is [s]; [data] is the JSON
    number whose value is [n]. *)
Definition is_json_string (data : list byte) (s : string) : Prop :=
  json.Unmarshal data = (json.Str s, None).

Definition is_json_number (data : list byte) (n : strconv.float64) : Prop :=
  json.Unmarshal data = (json.Float64 n, None).

(** The best-effort parse of a text: what [strconv.ParseFloat] returns for
    it, the error dropped. *)
Definition best_effort_parse (s : string) : strconv.float64 :=
  fst (strconv.ParseFloat s).

Definition zero64 : strconv.float64 := S754_zero false.

(** The parse as the specification words it: the number read, and zero
    when the text cannot be parsed. *)
Definition parse_or_zero (s : string) : strconv.float64 :=
  match strconv.ParseFloat s with
  | (v, None) => v
  | (_, Some _) => zero64
  end.

(** A receiver with something in it. *)
Definition used_flexint : FlexInt.t := FlexInt.mk (S754_infinity true) "-Inf".

(** *** The shape of a decimal text *)

(** The digits after the point: one at least, and the last is not a
    zero. *)
Fixpoint fraction_digits (s : string) : bool :=
  match s with
  | EmptyString => false
  | String a r =>
      strconv.isDigit (byteZ a)
      && match r with
         | EmptyString => negb (byteZ a =? 0x30)%Z
         | String _ _ => fraction_digits r
         end
  end.

(** Digits up to the end of the text, or up to a point that the digits of
    a fraction follow. *)
Fixpoint integer_digits (s : string) : bool :=
  match s with
  | EmptyString => true
  | String a r =>
      if (byteZ a =? 0x2E)%Z then fraction_digits r
      else strconv.isDigit (byteZ a) && integer_digits r
  end.

Definition unsigned_decimal (s : string) : bool :=
  match s with
  | EmptyString => false
  | String a r => strconv.isDigit (byteZ a) && integer_digits r
  end.

(** A number written in plain decimal form: an optional minus sign,
    digits, and then nothing or a point and a fraction without a zero at
    its end; no exponent, and no digits added for a fixed precision. *)
Definition plain_decimal (s : string) : bool :=
  match s with
  | EmptyString => false
  | String a r =>
      if (byteZ a =? 0x2D)%Z then unsigned_decimal r else unsigned_decimal s
  end.

(** The digits of a text, in order. *)
Fixpoint digitsIn (s : string) : list Z :=
  match s with
  | EmptyString => []
  | String a r =>
      if strconv.isDigit (byteZ a) then (byteZ a - 0x30)%Z :: digitsIn r
      else digitsIn r
  end.

(** The number of significant digits of a decimal text: its digits from
    the first that is not a zero to the last that is not a zero. *)
Definition significant_digits (s : string) : nat :=
  length (strconv.trim (strconv.dropZeros (digitsIn s))).

(** A number: a [float64] that is neither an infinity nor a NaN. *)
Definition is_number (x : strconv.float64) : bool :=
  strconv.is_float64 x
  && match x with
     | S754_zero _ | S754_finite _ _ _ => true
     | _ => false
     end.

(** *** Decimal digits, for the proofs about [strconv] *)

Section DecimalWords.
Local Open Scope Z_scope.

Definition is_digit (x : Z) : Prop := 0 <= x <= 9.

(** Digits as [strconv.decimal] keeps them: each from 0 to 9, and neither
    the first nor the last is zero. *)
Definition wf_digits (ds : list Z) : Prop :=
  Forall is_digit ds /\ hd 1 ds <> 0 /\ last ds 1 <> 0.

(** What [fmtF] writes after the sign for the digits [ds] and the point
    at [dp], with the precision of the shortest form: the digits and
    zeros up to the point; or the digits with the point among them; or
    [0.], zeros, and the digits. *)
Definition printed (ds : list Z) (dp : Z) : string :=
  if Z.of_nat (length ds) <=? dp then
    (strconv.digitString ds
     ++ strconv.zeros (Z.to_nat (dp - Z.of_nat (length ds))))%string
  else if 0 <? dp then
    (strconv.digitString (firstn (Z.to_nat dp) ds)
     ++ String "." (strconv.digitString (skipn (Z.to_nat dp) ds)))%string
  else
    String "0" (String "."
      (strconv.zeros (Z.to_nat (- dp)) ++ strconv.digitString ds)%string).

(** [p / q] in units of [2^-1074], rounded to 53 bits as [roundRatio] does. *)
Definition roundedUnits (p q : Z) : Z :=
  (let P := p * 2 ^ 1074 in
   let N := P / q in
   let e := Z.max (Z.log2 N - 52) 0 in
   let d := q * 2 ^ e in
   let m := P / d in
   let r := P mod d in
   (if (d <? 2 * r) || ((2 * r =? d) && Z.odd m) then m + 1 else m)
   * 2 ^ e).

(** The variables of the digit loop of [readFloat] at its start. *)
Definition mant0 : strconv.mantState :=
  strconv.mkMant 0 0 0 false false false.

End DecimalWords.

(** *** Words for further properties of the decoders *)

(** An ASCII letter; a text of ASCII letters only. *)
Definition is_letter (c : Z) : bool :=
  ((0x41 <=? c) && (c <=? 0x5A) || (0x61 <=? c) && (c <=? 0x7A))%Z.

Fixpoint all_letters (s : string) : bool :=
  match s with
  | EmptyString => true
  | String c r => is_letter (byteZ c) && all_letters r
  end.

(** A text that a JSON string literal holds as it is: ASCII bytes from
    0x20 on, without the double quote and the backslash. *)
Fixpoint plain_text (s : string) : bool :=
  match s with
  | EmptyString => true
  | String a r =>
      let c := byteZ a in
      ((0x20 <=? c) && (c <? 0x80) && negb (c =? 0x22) && negb (c =? 0x5C))%Z
      && plain_text r
  end.

(** The scanner inside a string literal, at the top level. *)
Definition inString : json.scanner :=
  json.mkScanner json.stateInString false [] false.

(** The scanner in a number at the top level: in the digits of the
    integer part, after a leading zero, after the point, and in the digits
    of the fraction. *)
Definition inNumber (st : json.stepState) : json.scanner :=
  json.mkScanner st false [] false.

(** The value of a number in units of [2^-1074], with its sign. *)
Definition units (x : strconv.float64) : Z :=
  match x with
  | S754_finite s m e => ((if s then -1 else 1) * (Zpos m * 2 ^ (e + 1074)))%Z
  | _ => 0%Z
  end.

(** An integer in decimal, as [strconv.Itoa] writes it. *)
Definition intText (k : Z) : string :=
  if (k <? 0)%Z then "-" ++ decimalString (- k) else decimalString k.

(** A text of JSON white space: spaces, tabs, line feeds and carriage
    returns. *)
Fixpoint all_space (s : string) : bool :=
  match s with
  | EmptyString => true
  | String a r => json.isSpace (byteZ a) && all_space r
  end.

(** * Proofs about [strings.HasPrefix] and [path] *)

Lemma substring_append_length (p r : string) :
  substring 0 (String.length p) (p ++ r) = p.
Proof.
  induction p as [|a p IH]; simpl.
  - destruct r; reflexivity.
  - now rewrite IH.
Qed.

Lemma substring_prefix_split (n : nat) (s : string) :
  (n <= String.length s)%nat ->
  exists r, s = substring 0 n s ++ r.
Proof.
  revert s; induction n as [|n IH]; intros s Hn.
  - exists s. destruct s; reflexivity.
  - destruct s as [|a s]; simpl in Hn; [lia|].
    destruct (IH s) as [r Hr]; [lia|].
    exists r. simpl. now rewrite <- Hr.
Qed.

Lemma length_append (p r : string) :
  String.length (p ++ r) = (String.length p + String.length r)%nat.
Proof. induction p; simpl; congruence. Qed.

Lemma HasPrefix_spec (s p : string) :
  strings.HasPrefix s p = true <-> starts_with s p.
Proof.
  unfold strings.HasPrefix, starts_with. split.
  - intros H. apply andb_true_iff in H as [Hl He].
    apply Nat.leb_le in Hl. apply String.eqb_eq in He.
    destruct (substring_prefix_split _ _ Hl) as [r Hr].
    exists r. now rewrite He in Hr.
  - intros [r ->]. apply andb_true_iff. split.
    + apply Nat.leb_le. rewrite length_append. lia.
    + apply String.eqb_eq. apply substring_append_length.
Qed.

Lemma HasPrefix_false (s p : string) :
  strings.HasPrefix s p = false <-> ~ starts_with s p.
Proof.
  rewrite <- HasPrefix_spec.
  destruct (strings.HasPrefix s p); split; intros H.
  - discriminate.
  - now contradiction H.
  - discriminate.
  - reflexivity.
Qed.

Lemma HasPrefix_append (p r : string) : strings.HasPrefix (p ++ r) p = true.
Proof. apply HasPrefix_spec. now exists r. Qed.

(** [C1] The resolver, as a function of the path [P] and the firmware flag
    [New]: the legacy flag returns [P]; the new flag sends the legacy login
    path to ["/api/auth/login"], puts ["/proxy/network"] in front of a [P]
    that neither starts with it nor is the new login path, and returns any
    other [P] unchanged.  It is a function of [(P, New)] alone: two handles
    with the same flag resolve every path alike. *)
Theorem path_resolver_rule (u : Unifi) (P : string) :
  (New (config u) = false -> path u P = P) /\
  (New (config u) = true -> P = "/api/login" ->
     path u P = "/api/auth/login") /\
  (New (config u) = true -> P <> "/api/login" ->
     ~ starts_with P "/proxy/network" -> P <> "/api/auth/login" ->
     path u P = "/proxy/network" ++ P) /\
  (New (config u) = true -> P <> "/api/login" ->
     starts_with P "/proxy/network" \/ P = "/api/auth/login" ->
     path u P = P) /\
  (forall u' : Unifi, New (config u') = New (config u) ->
     path u' P = path u P).
Proof.
  unfold path. repeat split.
  - now intros ->.
  - intros -> ->. reflexivity.
  - intros -> Hlegacy Hpre Hnew.
    apply String.eqb_neq in Hlegacy. apply String.eqb_neq in Hnew.
    apply HasPrefix_false in Hpre.
    change APILoginPath with "/api/login".
    change APILoginPathNew with "/api/auth/login".
    change APIPrefixNew with "/proxy/network".
    now rewrite Hlegacy, Hpre, Hnew.
  - intros -> Hlegacy Hor.
    apply String.eqb_neq in Hlegacy.
    change APILoginPath with "/api/login".
    rewrite Hlegacy.
    destruct Hor as [Hpre | ->].
    + apply HasPrefix_spec in Hpre.
      change APIPrefixNew with "/proxy/network". now rewrite Hpre.
    + reflexivity.
  - now intros u' ->.
Qed.

Lemma path_resolver_rule_witness :
  path legacy_handle "/api/stat/sites" = "/api/stat/sites" /\
  path udm_handle "/api/login" = "/api/auth/login" /\
  path udm_handle "/api/stat/sites" = "/proxy/network/api/stat/sites" /\
  path udm_handle "/proxy/network/status" = "/proxy/network/status".
Proof.
  split; [|split; [|split]].
  - destruct (path_resolver_rule legacy_handle "/api/stat/sites")
      as (Hlegacy & _).
    now apply Hlegacy.
  - destruct (path_resolver_rule udm_handle "/api/login")
      as (_ & Hlogin & _).
    now apply Hlogin.
  - destruct (path_resolver_rule udm_handle "/api/stat/sites")
      as (_ & _ & Hadd & _).
    apply Hadd; try discriminate; try reflexivity.
    apply HasPrefix_false. reflexivity.
  - destruct (path_resolver_rule udm_handle "/proxy/network/status")
      as (_ & _ & _ & Hkeep & _).
    apply Hkeep; try discriminate; try reflexivity.
    left. apply HasPrefix_spec. reflexivity.
Defined.

(** [C10] Under new firmware every output of the resolver starts with
    ["/proxy/network"] or is the login path ["/api/auth/login"]. *)
Theorem path_new_normalized (u : Unifi) (P : string) :
  New (config u) = true ->
  starts_with (path u P) "/proxy/network" \/ path u P = "/api/auth/login".
Proof.
  intros Hnew. unfold path. rewrite Hnew.
  destruct (String.eqb P APILoginPath); [now right|].
  destruct (strings.HasPrefix P APIPrefixNew) eqn:Hpre; simpl.
  - left. now apply HasPrefix_spec.
  - destruct (String.eqb P APILoginPathNew) eqn:Hlogin; simpl.
    + right. now apply String.eqb_eq.
    + left. now exists P.
Qed.

Lemma path_new_normalized_witness :
  starts_with (path udm_handle "/api/s/default/stat/device") "/proxy/network"
  \/ path udm_handle "/api/s/default/stat/device" = "/api/auth/login".
Proof.
  apply (path_new_normalized udm_handle "/api/s/default/stat/device").
  reflexivity.
Defined.

(** [C8] The resolver is idempotent for either value of the firmware flag,
    and under new firmware a path that already starts with
    ["/proxy/network"] is returned as it is. *)
Theorem path_idempotent (u : Unifi) (P : string) :
  path u (path u P) = path u P /\
  (New (config u) = true -> starts_with P "/proxy/network" ->
     path u P = P).
Proof.
  assert (Hkeep : starts_with P APIPrefixNew ->
                  (if String.eqb P APILoginPath then APILoginPathNew
                   else if negb (strings.HasPrefix P APIPrefixNew)
                           && negb (String.eqb P APILoginPathNew)
                        then APIPrefixNew ++ P else P) = P).
  { intros Hpre.
    destruct (String.eqb P APILoginPath) eqn:Hlegacy.
    - apply String.eqb_eq in Hlegacy. subst P.
      destruct Hpre as [r Hr]. discriminate Hr.
    - apply HasPrefix_spec in Hpre. now rewrite Hpre. }
  split.
  - unfold path. destruct (New (config u)); [|reflexivity].
    destruct (String.eqb P APILoginPath) eqn:Hlegacy; [reflexivity|].
    destruct (strings.HasPrefix P APIPrefixNew) eqn:Hpre; cbn [negb andb].
    + now rewrite Hlegacy, Hpre.
    + destruct (String.eqb P APILoginPathNew) eqn:Hlogin; cbn [negb andb].
      * now rewrite Hlegacy, Hpre, Hlogin.
      * rewrite HasPrefix_append. cbn [negb andb].
        destruct (String.eqb (APIPrefixNew ++ P) APILoginPath) eqn:Hl;
          [|reflexivity].
        apply String.eqb_eq in Hl. discriminate Hl.
  - intros Hnew Hpre. unfold path. rewrite Hnew. now apply Hkeep.
Qed.

(** ** Bytes and bit operations *)

Lemma byteZ_range (c : ascii) : (0 <= byteZ c < 256)%Z.
Proof.
  unfold byteZ. pose proof (N_ascii_bounded c). lia.
Qed.

Lemma byteZ_inj (c d : ascii) : byteZ c = byteZ d -> c = d.
Proof.
  unfold byteZ. intros H. apply N2Z.inj in H.
  rewrite <- (ascii_N_embedding c), <- (ascii_N_embedding d). now rewrite H.
Qed.

Lemma lor_ge_l (a b : Z) : (0 <= a -> 0 <= b -> a <= Z.lor a b)%Z.
Proof.
  intros Ha Hb.
  assert (Hd : Z.ldiff a (Z.lor a b) = 0%Z).
  { apply Z.bits_inj'. intros n Hn.
    rewrite Z.ldiff_spec, Z.lor_spec, Z.bits_0.
    destruct (Z.testbit a n); reflexivity. }
  apply Z.sub_nocarry_ldiff in Hd.
  assert (0 <= Z.ldiff (Z.lor a b) a)%Z.
  { apply Z.ldiff_nonneg. left. apply Z.lor_nonneg. auto. }
  lia.
Qed.

Lemma lor_ge_r (a b : Z) : (0 <= a -> 0 <= b -> b <= Z.lor a b)%Z.
Proof. intros. rewrite Z.lor_comm. now apply lor_ge_l. Qed.

Lemma land_mask (a : Z) (n : Z) :
  (0 <= n)%Z -> Z.land a (Z.ones n) = (a mod 2 ^ n)%Z.
Proof. apply Z.land_ones. Qed.

Ltac break_if :=
  match goal with
  | |- context [if ?c then _ else _] => destruct c eqn:?
  end.

Ltac zify_bools :=
  repeat match goal with
  | H : (_ <? _)%Z = true |- _ => apply Z.ltb_lt in H
  | H : (_ <? _)%Z = false |- _ => apply Z.ltb_ge in H
  | H : (_ <=? _)%Z = true |- _ => apply Z.leb_le in H
  | H : (_ <=? _)%Z = false |- _ => apply Z.leb_gt in H
  | H : (_ =? _)%Z = true |- _ => apply Z.eqb_eq in H
  | H : (_ =? _)%Z = false |- _ => apply Z.eqb_neq in H
  | H : (_ || _) = true |- _ => apply orb_true_iff in H
  | H : (_ || _) = false |- _ => apply orb_false_iff in H; destruct H
  | H : (_ && _) = true |- _ => apply andb_true_iff in H; destruct H
  | H : (_ && _) = false |- _ => apply andb_false_iff in H
  | H : negb _ = true |- _ => apply negb_true_iff in H
  | H : negb _ = false |- _ => apply negb_false_iff in H
  end.

Lemma lor_bounds (a b : Z) :
  (0 <= a -> 0 <= b ->
   0 <= Z.lor a b /\ a <= Z.lor a b /\ b <= Z.lor a b)%Z.
Proof.
  intros Ha Hb. repeat split.
  - now apply Z.lor_nonneg.
  - now apply lor_ge_l.
  - now apply lor_ge_r.
Qed.

(** Hand the bounds of every [Z.lor] of the goal to [lia], innermost
    first. *)
Ltac lor_facts t :=
  lazymatch t with
  | Z.lor ?a ?b =>
      lor_facts a; lor_facts b;
      let Ha := fresh "Hlor" in
      let Hb := fresh "Hlor" in
      assert (Ha : (0 <= a)%Z) by (Z.div_mod_to_equations; lia);
      assert (Hb : (0 <= b)%Z) by (Z.div_mod_to_equations; lia);
      pose proof (lor_bounds a b Ha Hb)
  | _ => idtac
  end.

Lemma first_cases (b : Z) :
  (0x80 <= b < 256)%Z ->
  utf8.first b = 0xF1%Z
  \/ ((0xC2 <= b < 0xE0)%Z /\ utf8.first b = 0x02%Z)
  \/ (b = 0xE0%Z /\ utf8.first b = 0x13%Z)
  \/ ((0xE1 <= b < 0xF0)%Z /\ b <> 0xED%Z /\ utf8.first b = 0x03%Z)
  \/ (b = 0xED%Z /\ utf8.first b = 0x23%Z)
  \/ (b = 0xF0%Z /\ utf8.first b = 0x34%Z)
  \/ ((0xF1 <= b < 0xF4)%Z /\ utf8.first b = 0x04%Z)
  \/ (b = 0xF4%Z /\ utf8.first b = 0x44%Z).
Proof.
  intros Hb. unfold utf8.first.
  repeat (break_if; zify_bools; try lia); intuition lia.
Qed.

(** A rune decoded from an encoding of several bytes, or from an invalid
    byte, is never an ASCII rune, and the decoder takes at least one byte
    of a non-empty string. *)
Lemma DecodeRuneInString_not_ascii (c : ascii) (r : string) :
  (0x80 <= byteZ c)%Z ->
  (0x80 <= fst (utf8.DecodeRuneInString (String c r)))%Z /\
  (1 <= snd (utf8.DecodeRuneInString (String c r)))%nat.
Proof.
  intros Hc. pose proof (byteZ_range c) as Hr.
  unfold utf8.DecodeRuneInString.
  change (String.length (String c r)) with (S (String.length r)).
  change (byteAt (String c r) 0) with (byteZ c).
  cbn [Nat.ltb Nat.leb]. cbv zeta.
  set (s1 := byteAt (String c r) 1).
  set (s2 := byteAt (String c r) 2).
  set (s3 := byteAt (String c r) 3).
  destruct (first_cases (byteZ c) ltac:(lia)) as
    [H|[[Hb H]|[[Hb H]|[[Hb [Hb' H]]|[[Hb H]|[[Hb H]|[[Hb H]|[Hb H]]]]]]]];
    rewrite H;
    repeat match goal with
    | |- context [Z.land (Zpos ?p) 7] =>
        let v := eval vm_compute in (Z.land (Zpos p) 7) in
        change (Z.land (Zpos p) 7) with v
    | |- context [utf8.acceptRanges (Z.shiftr (Zpos ?p) 4)] =>
        let v := eval vm_compute in
                   (utf8.acceptRanges (Z.shiftr (Zpos p) 4)) in
        change (utf8.acceptRanges (Z.shiftr (Zpos p) 4)) with v
    | |- context [(Zpos ?p <=? Zpos ?q)%Z] =>
        let v := eval vm_compute in (Zpos p <=? Zpos q)%Z in
        change (Zpos p <=? Zpos q)%Z with v
    | |- context [Z.testbit (Zpos ?p) 0] =>
        let v := eval vm_compute in (Z.testbit (Zpos p) 0) in
        change (Z.testbit (Zpos p) 0) with v
    end;
    cbv iota; cbn [fst snd];
    unfold utf8.RuneError, utf8.locb, utf8.hicb;
    repeat (break_if; zify_bools); cbn [fst snd]; (split; [|lia]);
      try lia.
  all: change utf8.maskx with (Z.ones 6); change utf8.mask2 with (Z.ones 5);
    change utf8.mask3 with (Z.ones 4); change utf8.mask4 with (Z.ones 3);
    rewrite ?Z.land_ones, ?Z.shiftl_mul_pow2 by lia;
    change (2 ^ 3)%Z with 8%Z; change (2 ^ 4)%Z with 16%Z;
    change (2 ^ 5)%Z with 32%Z; change (2 ^ 6)%Z with 64%Z;
    change (2 ^ 12)%Z with 4096%Z; change (2 ^ 18)%Z with 262144%Z;
    match goal with |- (_ <= ?t)%Z => lor_facts t end;
    Z.div_mod_to_equations; lia.
Qed.

(** ** The loop of [EqualFold] *)

Lemma length_drop (n : nat) (s : string) :
  String.length (drop n s) = (String.length s - n)%nat.
Proof.
  revert s; induction n as [|n IH]; intros [|a s]; simpl; auto.
Qed.

Lemma nextRune_ascii (c : ascii) (r : string) :
  (byteZ c < 0x80)%Z -> strings.nextRune (String c r) = (byteZ c, r).
Proof.
  intros Hc. unfold strings.nextRune.
  change (byteAt (String c r) 0) with (byteZ c).
  unfold utf8.RuneSelf.
  destruct (Z.ltb_spec (byteZ c) 0x80); [reflexivity | lia].
Qed.

(** Whatever the first byte, the first rune is the byte itself when it is
    ASCII and a rune outside ASCII otherwise, and the rest of the string is
    shorter. *)
Lemma nextRune_cases (c : ascii) (r : string) :
  let (x, s') := strings.nextRune (String c r) in
  (String.length s' <= String.length r)%nat /\
  (((byteZ c < 0x80)%Z /\ x = byteZ c /\ s' = r) \/
   ((0x80 <= byteZ c)%Z /\ (0x80 <= x)%Z)).
Proof.
  destruct (Z.ltb_spec (byteZ c) 0x80) as [Hc|Hc].
  - rewrite nextRune_ascii by assumption. split; [lia|]. now left.
  - unfold strings.nextRune.
    change (byteAt (String c r) 0) with (byteZ c).
    unfold utf8.RuneSelf.
    destruct (Z.ltb_spec (byteZ c) 0x80); [lia|].
    destruct (DecodeRuneInString_not_ascii c r Hc) as [Hx Hsz].
    destruct (utf8.DecodeRuneInString (String c r)) as [x sz].
    cbn [fst snd] in *. split.
    + rewrite length_drop. cbn [String.length]. lia.
    + now right.
Qed.

(** ** Folding one rune against an ASCII rune *)

Section FoldRune.

Variable foldRest : Z -> Z.

Lemma SimpleFold_ascii (r : Z) :
  (0 <= r < 0x80)%Z ->
  unicode.SimpleFold foldRest r = unicode.asciiFold r.
Proof.
  intros Hr. unfold unicode.SimpleFold, utf8.MaxRune.
  repeat (break_if; zify_bools; try lia).
Qed.

Lemma orbitWalk_step (k : nat) (sr tr r : Z) :
  strings.orbitWalk foldRest (S k) sr tr r =
  if negb (r =? sr)%Z && (r <? tr)%Z
  then strings.orbitWalk foldRest k sr tr (unicode.SimpleFold foldRest r)
  else r.
Proof. reflexivity. Qed.

Lemma orbitWalk_stop (k : nat) (sr tr r : Z) :
  r = sr \/ (tr <= r)%Z -> strings.orbitWalk foldRest k sr tr r = r.
Proof.
  intros H. destruct k; [reflexivity|]. rewrite orbitWalk_step.
  destruct (Z.eqb_spec r sr); [reflexivity|].
  destruct (Z.ltb_spec r tr); [lia|reflexivity].
Qed.

Lemma orbitWalk_go (k : nat) (sr tr r : Z) :
  r <> sr -> (r < tr)%Z ->
  strings.orbitWalk foldRest (S k) sr tr r =
  strings.orbitWalk foldRest k sr tr (unicode.SimpleFold foldRest r).
Proof.
  intros H1 H2. rewrite orbitWalk_step.
  destruct (Z.eqb_spec r sr); [contradiction|].
  destruct (Z.ltb_spec r tr); [reflexivity|lia].
Qed.

(** The walk from an ASCII rune [lo] reaches a rune [hi] outside ASCII
    only along the two orbits that leave ASCII. *)
Lemma orbitWalk_ascii (lo hi : Z) :
  (0 <= lo < 0x80)%Z -> (0x80 <= hi)%Z ->
  strings.orbitWalk foldRest 4 lo hi (unicode.SimpleFold foldRest lo) = hi
  <-> ((lo = 0x4B \/ lo = 0x6B)%Z /\ hi = 0x212A%Z)
      \/ ((lo = 0x53 \/ lo = 0x73)%Z /\ hi = 0x017F%Z).
Proof.
  intros Hlo Hhi. rewrite SimpleFold_ascii by assumption.
  assert (Hcat :
    (lo = 0x4B \/ lo = 0x6B \/ lo = 0x53 \/ lo = 0x73
     \/ ((0x41 <= lo <= 0x5A) /\ lo <> 0x4B /\ lo <> 0x53)
     \/ ((0x61 <= lo <= 0x7A) /\ lo <> 0x6B /\ lo <> 0x73)
     \/ (~ (0x41 <= lo <= 0x5A) /\ ~ (0x61 <= lo <= 0x7A)))%Z) by lia.
  destruct Hcat as [->|[->|[->|[->|[[Hu [H1 H2]]|[[Hl [H1 H2]]|[Hn1 Hn2]]]]]]].
  - (* K: k, then the Kelvin sign, then K again *)
    change (unicode.asciiFold 75) with 107%Z.
    rewrite orbitWalk_go by lia.
    change (unicode.SimpleFold foldRest 107) with 8490%Z.
    destruct (Z.ltb_spec 8490 hi).
    + rewrite orbitWalk_go by lia.
      change (unicode.SimpleFold foldRest 8490) with 75%Z.
      rewrite orbitWalk_stop by lia. lia.
    + rewrite orbitWalk_stop by lia. lia.
  - (* k: the Kelvin sign, then K, then k again *)
    change (unicode.asciiFold 107) with 8490%Z.
    destruct (Z.ltb_spec 8490 hi).
    + rewrite orbitWalk_go by lia.
      change (unicode.SimpleFold foldRest 8490) with 75%Z.
      rewrite orbitWalk_go by lia.
      change (unicode.SimpleFold foldRest 75) with 107%Z.
      rewrite orbitWalk_stop by lia. lia.
    + rewrite orbitWalk_stop by lia. lia.
  - (* S: s, then the long s, then S again *)
    change (unicode.asciiFold 83) with 115%Z.
    rewrite orbitWalk_go by lia.
    change (unicode.SimpleFold foldRest 115) with 383%Z.
    destruct (Z.ltb_spec 383 hi).
    + rewrite orbitWalk_go by lia.
      change (unicode.SimpleFold foldRest 383) with 83%Z.
      rewrite orbitWalk_stop by lia. lia.
    + rewrite orbitWalk_stop by lia. lia.
  - (* s: the long s, then S, then s again *)
    change (unicode.asciiFold 115) with 383%Z.
    destruct (Z.ltb_spec 383 hi).
    + rewrite orbitWalk_go by lia.
      change (unicode.SimpleFold foldRest 383) with 83%Z.
      rewrite orbitWalk_go by lia.
      change (unicode.SimpleFold foldRest 83) with 115%Z.
      rewrite orbitWalk_stop by lia. lia.
    + rewrite orbitWalk_stop by lia. lia.
  - (* another upper-case letter: its lower-case letter and back *)
    assert (Hf : unicode.asciiFold lo = (lo + 0x20)%Z).
    { unfold unicode.asciiFold.
      repeat (break_if; zify_bools; try lia). }
    rewrite Hf. rewrite orbitWalk_go by lia.
    rewrite SimpleFold_ascii by lia.
    assert (Hb : unicode.asciiFold (lo + 0x20) = lo).
    { unfold unicode.asciiFold.
      repeat (break_if; zify_bools; try lia). }
    rewrite Hb. rewrite orbitWalk_stop by lia. lia.
  - (* another lower-case letter: its upper-case letter *)
    assert (Hf : unicode.asciiFold lo = (lo - 0x20)%Z).
    { unfold unicode.asciiFold.
      repeat (break_if; zify_bools; try lia). }
    rewrite Hf. rewrite orbitWalk_go by lia.
    rewrite SimpleFold_ascii by lia.
    assert (Hb : unicode.asciiFold (lo - 0x20) = lo).
    { unfold unicode.asciiFold.
      repeat (break_if; zify_bools; try lia). }
    rewrite Hb. rewrite orbitWalk_stop by lia. lia.
  - (* not a letter: an orbit of one rune *)
    assert (Hf : unicode.asciiFold lo = lo).
    { unfold unicode.asciiFold.
      repeat (break_if; zify_bools; try lia). }
    rewrite Hf. rewrite orbitWalk_stop by lia. lia.
Qed.

Lemma caseless_cases (r : Z) :
  ((0x41 <= r <= 0x5A)%Z /\ caseless r = (r + 0x20)%Z)
  \/ (r = 0x212A%Z /\ caseless r = 0x6B%Z)
  \/ (r = 0x017F%Z /\ caseless r = 0x73%Z)
  \/ (~ (0x41 <= r <= 0x5A)%Z /\ r <> 0x212A%Z /\ r <> 0x017F%Z
      /\ caseless r = r).
Proof.
  unfold caseless. repeat (break_if; zify_bools; try lia).
  all: intuition lia.
Qed.

Lemma equalFoldRune_ascii (sr tr : Z) :
  (0 <= tr < 0x80)%Z ->
  strings.equalFoldRune foldRest sr tr = true
  <-> caseless sr = caseless tr.
Proof.
  intros Ht. unfold strings.equalFoldRune, utf8.RuneSelf.
  destruct (Z.eqb_spec tr sr) as [->|Hne]; [tauto|].
  destruct (Z.ltb_spec tr sr) as [Hlt|Hge].
  - destruct (Z.ltb_spec sr 0x80) as [Hs|Hs].
    + (* two ASCII runes, [tr] the smaller *)
      destruct (caseless_cases sr) as [[? E]|[[? E]|[[? E]|(?&?&?&E)]]];
      destruct (caseless_cases tr) as [[? F]|[[? F]|[[? F]|(?&?&?&F)]]];
      rewrite E, F; rewrite ?andb_true_iff, ?Z.leb_le, ?Z.eqb_eq; lia.
    + (* [sr] outside ASCII: walk the orbit of [tr] *)
      rewrite Z.eqb_eq, orbitWalk_ascii by lia.
      destruct (caseless_cases sr) as [[? E]|[[? E]|[[? E]|(?&?&?&E)]]];
      destruct (caseless_cases tr) as [[? F]|[[? F]|[[? F]|(?&?&?&F)]]];
      rewrite E, F; lia.
  - (* [sr] below [tr], hence ASCII or negative *)
    destruct (Z.ltb_spec tr 0x80) as [_|?]; [|lia].
    destruct (caseless_cases sr) as [[? E]|[[? E]|[[? E]|(?&?&?&E)]]];
    destruct (caseless_cases tr) as [[? F]|[[? F]|[[? F]|(?&?&?&F)]]];
    rewrite E, F; rewrite ?andb_true_iff, ?Z.leb_le, ?Z.eqb_eq; lia.
Qed.

End FoldRune.

(** ** [EqualFold] against an ASCII token *)

Lemma runes_loop_fuel (k1 k2 : nat) (s : string) :
  (String.length s <= k1)%nat -> (String.length s <= k2)%nat ->
  runes_loop k1 s = runes_loop k2 s.
Proof.
  revert k2 s. induction k1 as [|k1 IH]; intros k2 s H1 H2.
  - destruct s; [|simpl in H1; lia]. now destruct k2.
  - destruct s as [|c r]; [now destruct k2|].
    destruct k2 as [|k2]; [simpl in H2; lia|].
    cbn [runes_loop]. pose proof (nextRune_cases c r) as Hn.
    destruct (strings.nextRune (String c r)) as [x s'].
    destruct Hn as [Hlen _]. cbn [String.length] in H1, H2.
    f_equal. apply IH; lia.
Qed.

Lemma runes_cons_ascii (d : ascii) (t : string) :
  (byteZ d < 0x80)%Z -> runes (String d t) = byteZ d :: runes t.
Proof.
  intros Hd. unfold runes. cbn [String.length runes_loop].
  now rewrite nextRune_ascii.
Qed.

Section EqualFoldSpec.

Variable foldRest : Z -> Z.

Lemma EqualFold_loop_spec (k : nat) :
  forall s t : string,
  (String.length s <= k)%nat -> is_ascii t = true ->
  strings.EqualFold_loop foldRest k s t = true
  <-> map caseless (runes_loop k s) = map caseless (runes t).
Proof.
  induction k as [|k IH]; intros s t Hk Ht.
  - destruct s; [|simpl in Hk; lia].
    destruct t as [|d t]; [cbn; tauto|].
    cbn [is_ascii] in Ht. apply andb_true_iff in Ht as [Hd _].
    apply Z.ltb_lt in Hd. rewrite runes_cons_ascii by assumption.
    cbn. split; discriminate.
  - destruct s as [|c r].
    + destruct t as [|d t]; [cbn; tauto|].
      cbn [is_ascii] in Ht. apply andb_true_iff in Ht as [Hd _].
      apply Z.ltb_lt in Hd. rewrite runes_cons_ascii by assumption.
      cbn. split; discriminate.
    + destruct t as [|d t].
      * cbn [strings.EqualFold_loop runes_loop].
        destruct (strings.nextRune (String c r)).
        cbn. split; discriminate.
      * cbn [is_ascii] in Ht. apply andb_true_iff in Ht as [Hd Ht].
        apply Z.ltb_lt in Hd. rewrite runes_cons_ascii by assumption.
        cbn [strings.EqualFold_loop runes_loop].
        pose proof (nextRune_cases c r) as Hn.
        destruct (strings.nextRune (String c r)) as [sr s'].
        destruct Hn as [Hlen _]. cbn [String.length] in Hk.
        rewrite nextRune_ascii by assumption.
        pose proof (byteZ_range d) as Hrange.
        pose proof (equalFoldRune_ascii foldRest sr (byteZ d)) as Hrune.
        cbn [map]. destruct (strings.equalFoldRune foldRest sr (byteZ d)).
        -- rewrite IH by (assumption || lia). split.
           ++ intros ->. f_equal. apply Hrune; [lia|reflexivity].
           ++ intros H. now injection H.
        -- split; [discriminate|]. intros H. injection H as H _.
           apply Hrune in H; [discriminate|lia].
Qed.

(** [EqualFold] against a token of ASCII bytes decides the match without
    regard to case, whatever the fold tables hold outside the orbits of the
    ASCII letters. *)
Lemma EqualFold_spec (s tok : string) :
  is_ascii tok = true ->
  strings.EqualFold foldRest s tok = true <-> matches_caseless s tok.
Proof.
  intros Ht. unfold strings.EqualFold, matches_caseless, runes.
  now apply EqualFold_loop_spec.
Qed.

End EqualFoldSpec.

(** ** The truthy vocabulary *)

Lemma runes_loop_nil (k : nat) (s : string) :
  (String.length s <= k)%nat -> runes_loop k s = [] -> s = "".
Proof.
  destruct s as [|c r]; [reflexivity|].
  destruct k as [|k]; cbn [String.length]; [lia|].
  intros _. cbn [runes_loop].
  destruct (strings.nextRune (String c r)). discriminate.
Qed.

Lemma caseless_digit_one (x : Z) : caseless x = 0x31%Z -> x = 0x31%Z.
Proof.
  destruct (caseless_cases x) as [[? E]|[[? E]|[[? E]|(?&?&?&E)]]];
    rewrite E; lia.
Qed.

Lemma matches_caseless_one (s : string) :
  matches_caseless s "1" <-> s = "1".
Proof.
  split; [|now intros ->].
  unfold matches_caseless. change (map caseless (runes "1")) with [0x31%Z].
  destruct s as [|c r]; [discriminate|].
  unfold runes. cbn [String.length runes_loop].
  pose proof (nextRune_cases c r) as Hn.
  destruct (strings.nextRune (String c r)) as [x s'].
  destruct Hn as [Hlen Hx]. cbn [map]. intros H.
  injection H as Hone Hrest.
  apply caseless_digit_one in Hone.
  apply map_eq_nil in Hrest. apply runes_loop_nil in Hrest; [|assumption].
  destruct Hx as [(_ & Hc & Hr)|[_ Hge]]; [|lia].
  subst s' r x. f_equal.
  apply byteZ_inj. exact Hone.
Qed.

Lemma truthy_ascii (tok : string) : In tok truthy -> is_ascii tok = true.
Proof.
  unfold truthy. cbn [In].
  intros H; repeat (destruct H as [<-|H]; [reflexivity|]); contradiction.
Qed.

Section Vocabulary.

Variable foldRest : Z -> Z.

(** The disjunction computed by [FlexBool.UnmarshalJSON] is membership in
    the vocabulary without regard to case. *)
Lemma truthy_disjunction (txt : string) :
  let EqualFold := strings.EqualFold foldRest in
  String.eqb txt "1" || EqualFold txt "true"
  || EqualFold txt "yes" || EqualFold txt "t"
  || EqualFold txt "armed" || EqualFold txt "active"
  || EqualFold txt "enabled" || EqualFold txt "ready"
  || EqualFold txt "up" || EqualFold txt "ok" = true
  <-> exists tok, In tok truthy /\ matches_caseless txt tok.
Proof.
  cbv zeta. rewrite !orb_true_iff, String.eqb_eq.
  rewrite <- matches_caseless_one.
  rewrite !EqualFold_spec by reflexivity.
  unfold truthy. cbn [In]. split.
  - intros H. repeat (destruct H as [H|H]);
      (eexists; split; [|exact H]); tauto.
  - intros [tok [Hin Hm]].
    repeat (destruct Hin as [<-|Hin]; [tauto|]). contradiction.
Qed.

End Vocabulary.

(** ** ASCII texts *)

Lemma byteZ_lower_byte (c : ascii) :
  (byteZ c < 0x80)%Z ->
  caseless (byteZ c) = byteZ (lower_byte c)
  /\ (byteZ (lower_byte c) < 0x80)%Z.
Proof.
  intros Hc. pose proof (byteZ_range c) as Hr.
  unfold lower_byte.
  destruct (caseless_cases (byteZ c)) as [[Hu E]|[[? E]|[[? E]|(Hn&_&_&E)]]];
    try lia; rewrite E.
  - destruct (Z.leb_spec 0x41 (byteZ c)); [|lia].
    destruct (Z.leb_spec (byteZ c) 0x5A); [|lia]. cbn [andb].
    assert (Hb : byteZ (ascii_of_N (N_of_ascii c + 32))
                 = (byteZ c + 0x20)%Z).
    { unfold byteZ in *. rewrite N_ascii_embedding by lia. lia. }
    rewrite Hb. lia.
  - destruct ((0x41 <=? byteZ c)%Z && (byteZ c <=? 0x5A)%Z) eqn:Hb.
    + zify_bools. lia.
    + split; [reflexivity|lia].
Qed.

Lemma runes_to_lower (s : string) :
  is_ascii s = true ->
  map caseless (runes s) = runes (to_lower s)
  /\ is_ascii (to_lower s) = true.
Proof.
  induction s as [|c r IH]; [now split|].
  cbn [is_ascii to_lower]. intros H.
  apply andb_true_iff in H as [Hc Hr]. apply Z.ltb_lt in Hc.
  destruct (byteZ_lower_byte c Hc) as [Hlow Hlt].
  destruct (IH Hr) as [IH1 IH2].
  rewrite !runes_cons_ascii by assumption. cbn [map].
  rewrite Hlow, IH1. split; [reflexivity|].
  apply andb_true_iff. split; [now apply Z.ltb_lt|assumption].
Qed.

Lemma runes_inj_ascii (a : string) :
  forall b, is_ascii a = true -> is_ascii b = true ->
  runes a = runes b -> a = b.
Proof.
  induction a as [|c a IH]; intros [|d b] Ha Hb H.
  - reflexivity.
  - cbn [is_ascii] in Hb. apply andb_true_iff in Hb as [Hd _].
    apply Z.ltb_lt in Hd. rewrite runes_cons_ascii in H by assumption.
    discriminate.
  - cbn [is_ascii] in Ha. apply andb_true_iff in Ha as [Hc _].
    apply Z.ltb_lt in Hc. rewrite runes_cons_ascii in H by assumption.
    discriminate.
  - cbn [is_ascii] in Ha, Hb.
    apply andb_true_iff in Ha as [Hc Ha], Hb as [Hd Hb].
    apply Z.ltb_lt in Hc, Hd.
    rewrite !runes_cons_ascii in H by assumption.
    injection H as H1 H2. f_equal; [now apply byteZ_inj|now apply IH].
Qed.

Lemma truthy_lower (tok : string) :
  In tok truthy -> map caseless (runes tok) = runes tok.
Proof.
  unfold truthy. cbn [In].
  intros H; repeat (destruct H as [<-|H]; [reflexivity|]); contradiction.
Qed.

(** For a text of ASCII bytes, matching a token of the vocabulary without
    regard to case is equality after lower-casing [A]..[Z]. *)
Lemma matches_caseless_ascii (s tok : string) :
  is_ascii s = true -> In tok truthy ->
  matches_caseless s tok <-> to_lower s = tok.
Proof.
  intros Hs Hin. unfold matches_caseless.
  destruct (runes_to_lower s Hs) as [-> Hlow].
  rewrite (truthy_lower tok Hin). split.
  - apply runes_inj_ascii; [assumption|now apply truthy_ascii].
  - now intros ->.
Qed.

(** [C2] For every raw input [b] the boolean decoder returns no error, and
    [Val] is [true] exactly when the stored [Txt] matches, without regard
    to case, one of the tokens [1 true yes t armed active enabled ready up
    ok]; for a [Txt] of ASCII bytes that is: its lower-case form is one of
    the tokens.  The texts [0 false no disarmed inactive disabled] and the
    empty text give [Val = false].  All of it holds whatever the tables of
    package [unicode] hold outside the case orbits of the ASCII letters. *)
Theorem FlexBool_truthy_vocabulary
    (foldRest : Z -> Z) (f : FlexBool.t) (b : list byte) :
  let r := FlexBool.UnmarshalJSON foldRest f b in
  snd r = None /\
  (FlexBool.Val (fst r) = true
   <-> exists tok, In tok truthy
                   /\ matches_caseless (FlexBool.Txt (fst r)) tok) /\
  (is_ascii (FlexBool.Txt (fst r)) = true ->
   (FlexBool.Val (fst r) = true
    <-> In (to_lower (FlexBool.Txt (fst r))) truthy)) /\
  (In (FlexBool.Txt (fst r))
      ["0"; "false"; "no"; "disarmed"; "inactive"; "disabled"; ""] ->
   FlexBool.Val (fst r) = false).
Proof.
  cbv zeta. unfold FlexBool.UnmarshalJSON. cbn [fst snd FlexBool.Val
    FlexBool.Txt].
  set (txt := strings.Trim (string_of_list_byte b) dquote).
  split; [reflexivity|]. split; [apply truthy_disjunction|]. split.
  - intros Hascii. rewrite truthy_disjunction. split.
    + intros [tok [Hin Hm]].
      apply matches_caseless_ascii in Hm; try assumption. now subst tok.
    + intros Hin. exists (to_lower txt). split; [assumption|].
      now apply matches_caseless_ascii.
  - cbn [In]. intros H.
    repeat (destruct H as [<-|H]; [reflexivity|]). contradiction.
Qed.

(** ** [strings.Trim] *)

Lemma append_nil_r (s : string) : s ++ "" = s.
Proof. induction s; simpl; congruence. Qed.

Lemma append_assoc (a b c : string) : (a ++ b) ++ c = a ++ b ++ c.
Proof. induction a; simpl; congruence. Qed.

Lemma trimRightByte_all (x : string) :
  all_quotes x = true -> strings.trimRightByte x dquote = "".
Proof.
  induction x as [|a x IH]; [reflexivity|]. cbn [all_quotes].
  intros H. apply andb_true_iff in H as [Ha Hx].
  cbn [strings.trimRightByte]. now rewrite IH, Ha.
Qed.

Lemma trimRightByte_keep (x : string) (a : ascii) :
  last_byte x = Some a -> a <> dquote ->
  strings.trimRightByte x dquote = x.
Proof.
  induction x as [|b x IH]; [discriminate|].
  intros Hlast Ha. cbn [strings.trimRightByte].
  destruct x as [|b' x].
  - cbn in Hlast. injection Hlast as ->. cbn.
    destruct (Ascii.eqb_spec a dquote); [contradiction|reflexivity].
  - rewrite IH by assumption. reflexivity.
Qed.

Lemma trimRightByte_append (x r : string) :
  all_quotes r = true ->
  strings.trimRightByte (x ++ r) dquote = strings.trimRightByte x dquote.
Proof.
  intros Hr. induction x as [|b x IH].
  - cbn. now apply trimRightByte_all.
  - cbn [append strings.trimRightByte]. now rewrite IH.
Qed.

Lemma trimLeftByte_append (l t : string) :
  all_quotes l = true ->
  strings.trimLeftByte (l ++ t) dquote = strings.trimLeftByte t dquote.
Proof.
  induction l as [|a l IH]; [reflexivity|]. cbn [all_quotes].
  intros H. apply andb_true_iff in H as [Ha Hl].
  cbn [append strings.trimLeftByte]. rewrite Ha. now apply IH.
Qed.

Lemma trimLeftByte_keep (t : string) :
  first_byte t <> Some dquote -> strings.trimLeftByte t dquote = t.
Proof.
  destruct t as [|a t]; [reflexivity|]. cbn. intros H.
  destruct (Ascii.eqb_spec a dquote); [subst; contradiction|reflexivity].
Qed.

Lemma last_byte_append (l t : string) :
  t <> "" -> last_byte (l ++ t) = last_byte t.
Proof.
  intros Ht. induction l as [|a l IH]; [reflexivity|].
  cbn [append last_byte]. rewrite IH.
  destruct (l ++ t) eqn:E; [|reflexivity].
  destruct l; [cbn in E; contradiction|discriminate].
Qed.

Lemma last_byte_cons (a : ascii) (t : string) :
  exists z, last_byte (String a t) = Some z.
Proof.
  revert a. induction t as [|b t IH]; intros a.
  - now exists a.
  - destruct (IH b) as [z Hz]. exists z. exact Hz.
Qed.

(** [Trim] is determined by what it leaves out: any way of writing [s] as
    quotes, a text that neither starts nor ends with a quote, and quotes
    again, has the result of [Trim] in the middle. *)
Lemma Trim_unique (s l t r : string) :
  s = l ++ t ++ r ->
  all_quotes l = true -> all_quotes r = true ->
  first_byte t <> Some dquote -> last_byte t <> Some dquote ->
  strings.Trim s dquote = t.
Proof.
  intros -> Hl Hr Hfirst Hlast. unfold strings.Trim.
  rewrite <- append_assoc, trimRightByte_append by assumption.
  destruct t as [|a t].
  - rewrite append_nil_r, trimRightByte_all by assumption. reflexivity.
  - destruct (last_byte_cons a t) as [z Hz].
    rewrite (trimRightByte_keep _ z).
    + rewrite trimLeftByte_append by assumption.
      now apply trimLeftByte_keep.
    + rewrite last_byte_append by discriminate. assumption.
    + intros ->. contradiction.
Qed.

Lemma trimLeftByte_split (s : string) :
  exists l, s = l ++ strings.trimLeftByte s dquote
            /\ all_quotes l = true
            /\ first_byte (strings.trimLeftByte s dquote) <> Some dquote.
Proof.
  induction s as [|a s (l & Hs & Hl & Hf)].
  - exists "". repeat split. discriminate.
  - cbn [strings.trimLeftByte].
    destruct (Ascii.eqb_spec a dquote) as [->|Ha].
    + exists (String dquote l). cbn [append all_quotes].
      rewrite <- Hs, Hl. repeat split. assumption.
    + exists "". repeat split. cbn. congruence.
Qed.

Lemma trimRightByte_split (s : string) :
  exists r, s = strings.trimRightByte s dquote ++ r
            /\ all_quotes r = true
            /\ last_byte (strings.trimRightByte s dquote) <> Some dquote.
Proof.
  induction s as [|a s (r & Hs & Hr & Hlast)].
  - exists "". repeat split. discriminate.
  - cbn [strings.trimRightByte].
    destruct (strings.trimRightByte s dquote) as [|b x] eqn:E.
    + cbn [append] in Hs. subst s.
      destruct (Ascii.eqb_spec a dquote) as [->|Ha].
      * exists (String dquote r). cbn [append all_quotes]. rewrite Hr.
        repeat split. discriminate.
      * exists r. repeat split; [assumption|]. cbn. congruence.
    + exists r. repeat split; try assumption.
      change (String a s = String a (String b x ++ r)). now f_equal.
Qed.

Lemma last_byte_trimLeftByte (x : string) :
  last_byte x <> Some dquote ->
  last_byte (strings.trimLeftByte x dquote) <> Some dquote.
Proof.
  induction x as [|a x IH]; [intros; discriminate|].
  intros H. cbn [strings.trimLeftByte].
  destruct (Ascii.eqb_spec a dquote) as [->|Ha]; [|assumption].
  apply IH. destruct x as [|b x]; [discriminate|exact H].
Qed.

(** What [Trim] does: [s] is some quotes, the result, and some quotes, and
    the result neither starts nor ends with a quote. *)
Lemma Trim_split (s : string) :
  exists l r, s = l ++ strings.Trim s dquote ++ r
              /\ all_quotes l = true /\ all_quotes r = true
              /\ first_byte (strings.Trim s dquote) <> Some dquote
              /\ last_byte (strings.Trim s dquote) <> Some dquote.
Proof.
  unfold strings.Trim.
  destruct (trimRightByte_split s) as (r & Hs & Hr & Hlast).
  destruct (trimLeftByte_split (strings.trimRightByte s dquote))
    as (l & Hx & Hl & Hfirst).
  exists l, r. repeat split; try assumption.
  - rewrite <- append_assoc, <- Hx. exact Hs.
  - now apply last_byte_trimLeftByte.
Qed.

Lemma strip_front_split (s : string) :
  exists l, s = l ++ strip_front s /\ all_quotes l = true.
Proof.
  destruct s as [|a s]; [now exists ""|]. cbn.
  destruct (Ascii.eqb_spec a dquote) as [->|Ha].
  - now exists (String dquote "").
  - now exists "".
Qed.

Lemma strip_back_split (s : string) :
  exists r, s = strip_back s ++ r /\ all_quotes r = true.
Proof.
  induction s as [|a s (r & Hs & Hr)]; [now exists ""|].
  cbn [strip_back]. destruct s as [|b s].
  - destruct (Ascii.eqb_spec a dquote) as [->|Ha].
    + now exists (String dquote "").
    + now exists "".
  - exists r. cbn [append]. now rewrite <- Hs.
Qed.

(** Where one layer is all there is, [Trim] strips one layer. *)
Lemma Trim_single_layer (s : string) :
  first_byte (strip_one_layer s) <> Some dquote ->
  last_byte (strip_one_layer s) <> Some dquote ->
  strings.Trim s dquote = strip_one_layer s.
Proof.
  intros Hf Hl. unfold strip_one_layer in *.
  destruct (strip_front_split s) as (l & Hs & Hql).
  destruct (strip_back_split (strip_front s)) as (r & Hx & Hqr).
  apply (Trim_unique s l _ r); try assumption.
  now rewrite <- Hx.
Qed.

(** [C6] amended: for every raw input [b] the stored [Txt] is [b] without
    its leading and its trailing double quotes, all of them: [b] is some
    quotes, [Txt], and some quotes, [Txt] neither starts nor ends with a
    quote, and no other text fits.  What lies between is untouched.  [Txt]
    is what stripping a single layer gives whenever that leaves a text that
    neither starts nor ends with a quote.  The receiver's state and the
    fold tables, hence the boolean result, have no part in it. *)
Theorem FlexBool_Txt_trimmed
    (foldRest : Z -> Z) (f : FlexBool.t) (b : list byte) :
  let s := string_of_list_byte b in
  let txt := FlexBool.Txt (fst (FlexBool.UnmarshalJSON foldRest f b)) in
  (exists l r, s = l ++ txt ++ r
               /\ all_quotes l = true /\ all_quotes r = true) /\
  first_byte txt <> Some dquote /\
  last_byte txt <> Some dquote /\
  (forall l t r, s = l ++ t ++ r ->
     all_quotes l = true -> all_quotes r = true ->
     first_byte t <> Some dquote -> last_byte t <> Some dquote ->
     txt = t) /\
  (first_byte (strip_one_layer s) <> Some dquote ->
   last_byte (strip_one_layer s) <> Some dquote ->
   txt = strip_one_layer s) /\
  (forall (foldRest' : Z -> Z) (f' : FlexBool.t),
     FlexBool.Txt (fst (FlexBool.UnmarshalJSON foldRest' f' b)) = txt).
Proof.
  cbv zeta. unfold FlexBool.UnmarshalJSON. cbn [fst FlexBool.Txt].
  destruct (Trim_split (string_of_list_byte b))
    as (l & r & Hs & Hl & Hr & Hfirst & Hlast).
  repeat split; try assumption.
  - now exists l, r.
  - intros l' t r' Hs' Hl' Hr' Hf' Hlast'.
    now apply (Trim_unique _ l' t r').
  - apply Trim_single_layer.
Qed.

(** [C6] as stated fails on the JSON string literal for the text made of
    the letter a and a double quote, whose raw bytes are: quote, a,
    backslash, quote, quote.  Stripping one layer leaves a, backslash,
    quote; the decoder stores a, backslash: the closing quote of the
    literal and the escaped quote before it are both removed.  It fails on
    a doubled layer of quotes too. *)
Lemma FlexBool_Txt_not_single_layer :
  let f := FlexBool.mk false "" in
  let lit := String "a" (String backslash (String dquote "")) in
  let doubled := String dquote (String "a" (String dquote "")) in
  FlexBool.Txt (fst (FlexBool.UnmarshalJSON (fun r => r) f (quoted lit)))
    = String "a" (String backslash "") /\
  strip_one_layer (string_of_list_byte (quoted lit)) = lit /\
  FlexBool.Txt (fst (FlexBool.UnmarshalJSON (fun r => r) f (quoted doubled)))
    = "a" /\
  strip_one_layer (string_of_list_byte (quoted doubled)) = doubled /\
  FlexBool.Txt (fst (FlexBool.UnmarshalJSON (fun r => r) f (quoted lit)))
    <> strip_one_layer (string_of_list_byte (quoted lit)).
Proof.
  cbv zeta. repeat split; try reflexivity. vm_compute. discriminate.
Qed.

(** ** Rounding to a [float64] *)

Section Rounding.
Local Open Scope Z_scope.

Lemma is_float64_finite (neg : bool) (m : positive) (e : Z) :
  strconv.is_float64 (S754_finite neg m e) = true
  <-> Zpos m < 2 ^ 53 /\ -1074 <= e <= 971
      /\ (2 ^ 52 <= Zpos m \/ e = -1074).
Proof.
  cbn [strconv.is_float64].
  rewrite !andb_true_iff, orb_true_iff, Z.ltb_lt, !Z.leb_le, Z.eqb_eq.
  tauto.
Qed.

(** The value of a canonical [float64], in units of [2^-1074], has its
    exponent as the number of bits beyond the leading 53. *)
Lemma log2_canonical (m k : Z) :
  0 < m < 2 ^ 53 -> 0 <= k -> (2 ^ 52 <= m \/ k = 0) ->
  Z.max (Z.log2 (m * 2 ^ k) - 52) 0 = k.
Proof.
  intros Hm Hk Hc.
  rewrite Z.log2_mul_pow2 by lia.
  assert (Hlog : Z.log2 m < 53) by (apply Z.log2_lt_pow2; lia).
  destruct Hc as [Hn| ->].
  - assert (52 <= Z.log2 m) by (apply Z.log2_le_pow2; lia). lia.
  - lia.
Qed.

(** A [float64] is the nearest [float64] to its own value: [p / q] is the
    value of [m * 2^e] when [p = m * 2^e * q], or [p * 2^-e = m * q] for a
    negative [e]. *)
Lemma roundRatio_exact (neg : bool) (m : positive) (e p q : Z) :
  strconv.is_float64 (S754_finite neg m e) = true ->
  0 < q ->
  (0 <= e -> p = Zpos m * 2 ^ e * q) ->
  (e < 0 -> p * 2 ^ (- e) = Zpos m * q) ->
  strconv.roundRatio neg p q = (S754_finite neg m e, false).
Proof.
  intros Hval Hq Hpos Hneg. apply is_float64_finite in Hval.
  destruct Hval as (Hm & He & Hc).
  set (k := e + 1074).
  assert (HP : p * 2 ^ 1074 = Zpos m * 2 ^ k * q).
  { destruct (Z.le_gt_cases 0 e) as [H0|H0].
    - rewrite (Hpos H0). unfold k. rewrite Z.pow_add_r by lia. ring.
    - replace 1074 with (- e + k) by (unfold k; lia).
      rewrite Z.pow_add_r by (unfold k; lia).
      rewrite Z.mul_assoc, (Hneg H0). ring. }
  unfold strconv.roundRatio. cbv zeta. rewrite HP.
  assert (Hk : 0 <= k) by (unfold k; lia).
  assert (H2k : 0 < 2 ^ k) by (apply Z.pow_pos_nonneg; lia).
  rewrite Z.div_mul by lia.
  rewrite log2_canonical by (unfold k; lia).
  replace (Zpos m * 2 ^ k * q) with (Zpos m * (q * 2 ^ k)) by ring.
  assert (Hd : 0 < q * 2 ^ k) by lia.
  rewrite Z.div_mul, Z.mod_mul by lia.
  change (2 * 0) with 0.
  destruct (Z.ltb_spec (q * 2 ^ k) 0); [lia|].
  destruct (Z.eqb_spec 0 (q * 2 ^ k)); [lia|]. cbn [orb andb].
  destruct (Z.eqb_spec (Zpos m) (2 ^ 53)); [lia|].
  destruct (Z.eqb_spec (Zpos m) 0); [lia|].
  destruct (Z.ltb_spec (971 + 1074) k); [unfold k in *; lia|].
  cbn [Z.to_pos]. do 2 f_equal. unfold k. lia.
Qed.

(** The 53 leading bits of [N]. *)
Lemma leading_bits (N : Z) :
  0 <= N ->
  let e := Z.max (Z.log2 N - 52) 0 in
  0 <= e /\ 0 <= N / 2 ^ e < 2 ^ 53 /\ (0 < e -> 2 ^ 52 <= N / 2 ^ e).
Proof.
  intros HN e.
  assert (He : 0 <= e) by (unfold e; lia).
  assert (H2e : 0 < 2 ^ e) by (apply Z.pow_pos_nonneg; lia).
  split; [exact He|].
  destruct (Z.eq_dec N 0) as [HN0|HN0].
  - rewrite HN0. rewrite Z.div_0_l by lia. repeat split; try lia.
    unfold e. rewrite HN0. cbn. lia.
  - pose proof (Z.log2_spec N ltac:(lia)) as [Hlo Hhi].
    repeat split.
    + apply Z.div_pos; lia.
    + apply Z.div_lt_upper_bound; [lia|].
      rewrite <- Z.pow_add_r by lia.
      eapply Z.lt_le_trans; [exact Hhi|].
      apply Z.pow_le_mono_r; unfold e; lia.
    + intros He0. apply Z.div_le_lower_bound; [lia|].
      rewrite <- Z.pow_add_r by lia.
      eapply Z.le_trans; [|exact Hlo].
      apply Z.pow_le_mono_r; unfold e in *; lia.
Qed.

(** What [roundRatio] returns is a [float64]. *)
Lemma roundRatio_float64 (neg : bool) (p q : Z) :
  0 <= p -> 0 < q ->
  strconv.is_float64 (fst (strconv.roundRatio neg p q)) = true.
Proof.
  intros Hp Hq. unfold strconv.roundRatio. cbv zeta.
  set (P := p * 2 ^ 1074).
  assert (HP : 0 <= P).
  { unfold P. apply Z.mul_nonneg_nonneg; [lia|]. apply Z.pow_nonneg. lia. }
  set (N := P / q).
  assert (HN : 0 <= N) by (unfold N; apply Z.div_pos; lia).
  set (e := Z.max (Z.log2 N - 52) 0).
  assert (He : 0 <= e) by (unfold e; lia).
  assert (H2e : 0 < 2 ^ e) by (apply Z.pow_pos_nonneg; lia).
  set (d := q * 2 ^ e).
  assert (Hm : P / d = N / 2 ^ e).
  { unfold d, N. rewrite Z.div_div by lia. reflexivity. }
  rewrite Hm.
  pose proof (leading_bits N HN) as Hbound. cbv zeta in Hbound.
  fold e in Hbound. destruct Hbound as (_ & [H0 Hlt] & Hge).
  set (m := N / 2 ^ e) in *.
  set (up := (d <? 2 * (P mod d)) || ((2 * (P mod d) =? d) && Z.odd m)).
  change (2 ^ 53) with 9007199254740992 in *.
  change (2 ^ 52) with 4503599627370496 in *.
  destruct up.
  - destruct (Z.eqb_spec (m + 1) 9007199254740992) as [Heq|Hne].
    + cbn [Z.eqb]. destruct (Z.ltb_spec (971 + 1074) (e + 1)).
      * reflexivity.
      * cbn [fst]. apply is_float64_finite. cbn [Z.to_pos].
        change (2 ^ 53) with 9007199254740992.
        change (2 ^ 52) with 4503599627370496. lia.
    + destruct (Z.eqb_spec (m + 1) 0); [reflexivity|].
      destruct (Z.ltb_spec (971 + 1074) e); [reflexivity|].
      cbn [fst]. apply is_float64_finite.
      rewrite Z2Pos.id by lia.
      change (2 ^ 53) with 9007199254740992.
      change (2 ^ 52) with 4503599627370496. lia.
  - destruct (Z.eqb_spec m 9007199254740992) as [Heq|Hne]; [lia|].
    destruct (Z.eqb_spec m 0); [reflexivity|].
    destruct (Z.ltb_spec (971 + 1074) e); [reflexivity|].
    cbn [fst]. apply is_float64_finite.
    rewrite Z2Pos.id by lia.
    change (2 ^ 53) with 9007199254740992.
    change (2 ^ 52) with 4503599627370496. lia.
Qed.

End Rounding.
(** ** Decimal digits *)

Section Digits.
Local Open Scope Z_scope.
Local Open Scope list_scope.



Lemma valueOf_app (a b : list Z) :
  strconv.valueOf (a ++ b)
  = strconv.valueOf a * 10 ^ Z.of_nat (length b) + strconv.valueOf b.
Proof.
  unfold strconv.valueOf.
  assert (H : forall b acc,
    fold_left (fun acc x => acc * 10 + x) b acc
    = acc * 10 ^ Z.of_nat (length b)
      + fold_left (fun acc x => acc * 10 + x) b 0).
  { clear. induction b as [|x b IH]; intros acc.
    - cbn. ring.
    - cbn [fold_left length]. rewrite IH, (IH (0 * 10 + x)).
      rewrite Nat2Z.inj_succ, Z.pow_succ_r by lia. ring. }
  rewrite fold_left_app. apply H.
Qed.

Lemma valueOf_nonneg (ds : list Z) :
  Forall is_digit ds -> 0 <= strconv.valueOf ds.
Proof.
  induction ds as [|x ds IH] using rev_ind; intros H; [cbn; lia|].
  apply Forall_app in H as [H1 H2]. inversion H2; subst.
  rewrite valueOf_app. cbn [length Z.of_nat]. unfold is_digit in *.
  change (strconv.valueOf [x]) with (0 * 10 + x).
  specialize (IH H1). change (10 ^ Z.of_nat 1) with 10. lia.
Qed.

Lemma digitsLoop_spec (fuel : nat) :
  forall n acc, 0 <= n < 2 ^ Z.of_nat fuel ->
  exists ds, strconv.digitsLoop fuel n acc = ds ++ acc
             /\ strconv.valueOf ds = n
             /\ Forall is_digit ds
             /\ (0 < n -> hd 1 ds <> 0)
             /\ (n = 0 -> ds = []).
Proof.
  induction fuel as [|k IH]; intros n acc Hn.
  - cbn in Hn. exists []. cbn. repeat split; try lia; auto.
  - cbn [strconv.digitsLoop]. destruct (Z.leb_spec n 0) as [H0|H0].
    + exists []. cbn. repeat split; try lia; auto.
    + rewrite Nat2Z.inj_succ, Z.pow_succ_r in Hn by lia.
      assert (Hq : 0 <= n / 10 < 2 ^ Z.of_nat k).
      { split; [apply Z.div_pos; lia|].
        apply Z.div_lt_upper_bound; lia. }
      destruct (IH (n / 10) (n mod 10 :: acc) Hq)
        as (ds & Heq & Hval & Hdig & Hhd & Hzero).
      exists (ds ++ [n mod 10]). repeat split.
      * rewrite Heq, <- app_assoc. reflexivity.
      * rewrite valueOf_app, Hval. cbn [length Z.of_nat].
        change (strconv.valueOf [n mod 10]) with (0 * 10 + n mod 10).
        change (10 ^ Z.of_nat 1) with 10.
        pose proof (Z.div_mod n 10). lia.
      * apply Forall_app. split; [assumption|].
        constructor; [|constructor]. unfold is_digit.
        pose proof (Z.mod_pos_bound n 10). lia.
      * intros _. destruct (Z.eq_dec (n / 10) 0) as [Hz|Hnz].
        -- rewrite (Hzero Hz). cbn.
           pose proof (Z.div_mod n 10). lia.
        -- destruct ds as [|x ds]; [cbn in Hval; lia|]. cbn.
           apply Hhd. lia.
      * lia.
Qed.

Lemma digitsOf_spec (n : Z) :
  0 < n ->
  strconv.valueOf (strconv.digitsOf n) = n
  /\ Forall is_digit (strconv.digitsOf n)
  /\ hd 1 (strconv.digitsOf n) <> 0.
Proof.
  intros Hn. unfold strconv.digitsOf.
  destruct (digitsLoop_spec (S (Z.to_nat (Z.log2 n))) n [])
    as (ds & Heq & Hval & Hdig & Hhd & _).
  - split; [lia|]. rewrite Nat2Z.inj_succ, Z2Nat.id by apply Z.log2_nonneg.
    apply Z.log2_spec. lia.
  - rewrite Heq, app_nil_r. auto.
Qed.

(** [trim] takes the zeros at the end away. *)
Lemma dropZeros_spec (r : list Z) :
  exists t, r = repeat 0 t ++ strconv.dropZeros r
            /\ hd 1 (strconv.dropZeros r) <> 0.
Proof.
  induction r as [|x r (t & Hr & Hhd)].
  - exists O. cbn. split; [reflexivity|lia].
  - cbn [strconv.dropZeros]. destruct x as [|x|x].
    + exists (S t). cbn [repeat app]. split; [now f_equal|assumption].
    + exists O. cbn. split; [reflexivity|lia].
    + exists O. cbn. split; [reflexivity|lia].
Qed.

Lemma hd_rev_last (l : list Z) (x : Z) : hd x (rev l) = last l x.
Proof.
  induction l as [|a l IH] using rev_ind; [reflexivity|].
  rewrite rev_app_distr, last_last. reflexivity.
Qed.

Lemma trim_spec (ds : list Z) :
  exists t, ds = strconv.trim ds ++ repeat 0 t
            /\ last (strconv.trim ds) 1 <> 0.
Proof.
  unfold strconv.trim.
  destruct (dropZeros_spec (rev ds)) as (t & Hr & Hhd).
  exists t. split.
  - rewrite <- (rev_involutive ds) at 1. rewrite Hr at 1.
    rewrite rev_app_distr. f_equal. clear.
    induction t as [|t IH]; [reflexivity|].
    cbn [repeat rev]. rewrite IH. clear.
    induction t; cbn; congruence.
  - rewrite <- hd_rev_last, rev_involutive. assumption.
Qed.

Lemma valueOf_zeros (t : nat) : strconv.valueOf (repeat 0 t) = 0.
Proof.
  induction t as [|t IH]; [reflexivity|].
  change (repeat 0 (S t)) with ([0] ++ repeat 0 t).
  rewrite valueOf_app, IH. cbn. lia.
Qed.

Lemma valueOf_trim (ds : list Z) :
  exists t, length ds = (length (strconv.trim ds) + t)%nat
            /\ strconv.valueOf ds
               = strconv.valueOf (strconv.trim ds) * 10 ^ Z.of_nat t.
Proof.
  destruct (trim_spec ds) as (t & Hds & _). exists t. split.
  - rewrite Hds at 1. rewrite length_app, repeat_length. reflexivity.
  - rewrite Hds at 1. rewrite valueOf_app, repeat_length, valueOf_zeros.
    ring.
Qed.

Lemma trim_wf (ds : list Z) :
  Forall is_digit ds -> hd 1 ds <> 0 -> wf_digits (strconv.trim ds).
Proof.
  intros Hdig Hhd. destruct (trim_spec ds) as (t & Hds & Hlast).
  repeat split.
  - rewrite Hds in Hdig. now apply Forall_app in Hdig as [H _].
  - destruct (strconv.trim ds) as [|x r] eqn:E; [cbn; lia|].
    rewrite Hds in Hhd. exact Hhd.
  - assumption.
Qed.

End Digits.

(** ** Reading back what [fmtF] wrote *)

Section ReadBack.
Local Open Scope Z_scope.
Local Open Scope list_scope.

Lemma byteZ_digitChar (x : Z) :
  is_digit x -> byteZ (strconv.digitChar x) = 0x30 + x.
Proof.
  unfold is_digit, byteZ, strconv.digitChar. intros Hx.
  rewrite N_ascii_embedding by lia. lia.
Qed.

Lemma readDigits_digit (st : strconv.mantState) (x : Z) (r : string) :
  is_digit x ->
  strconv.readDigits false st (String (strconv.digitChar x) r) =
  if (x =? 0) && (strconv.nd st =? 0) then
    strconv.readDigits false
      (strconv.mkMant (strconv.mantissa st) (strconv.nd st)
         (strconv.dp st - 1) (strconv.sawdot st) true
         (strconv.underscores st)) r
  else
    strconv.readDigits false
      (strconv.mkMant (strconv.mantissa st * 10 + x) (strconv.nd st + 1)
         (strconv.dp st) (strconv.sawdot st) true
         (strconv.underscores st)) r.
Proof.
  intros Hx. cbn [strconv.readDigits]. rewrite (byteZ_digitChar x Hx).
  unfold is_digit in Hx. unfold strconv.isDigit.
  destruct (Z.eqb_spec (0x30 + x) 0x5F); [lia|].
  destruct (Z.eqb_spec (0x30 + x) 0x2E); [lia|].
  destruct (Z.leb_spec 0x30 (0x30 + x)); [|lia].
  destruct (Z.leb_spec (0x30 + x) 0x39); [|lia]. cbn [andb].
  replace (0x30 + x - 0x30) with x by lia.
  destruct (Z.eqb_spec (0x30 + x) 0x30), (Z.eqb_spec x 0);
    try lia; reflexivity.
Qed.

Lemma digitString_app (a b : list Z) :
  strconv.digitString (a ++ b)
  = (strconv.digitString a ++ strconv.digitString b)%string.
Proof. induction a as [|x a IH]; cbn; congruence. Qed.

(** The digit loop over digits that are all counted: the state holds a
    digit already, or the first digit is not zero. *)
Lemma readDigits_digits (ds : list Z) :
  forall (m n p : Z) (sd sg us : bool) (rest : string),
  Forall is_digit ds -> 0 <= n -> (0 < n \/ hd 1 ds <> 0) ->
  strconv.readDigits false (strconv.mkMant m n p sd sg us)
    (strconv.digitString ds ++ rest)%string
  = strconv.readDigits false
      (strconv.mkMant (m * 10 ^ Z.of_nat (length ds) + strconv.valueOf ds)
         (n + Z.of_nat (length ds)) p sd
         (match ds with [] => sg | _ => true end) us)
      rest.
Proof.
  induction ds as [|x ds IH]; intros m n p sd sg us rest Hdig Hn Hfirst.
  - cbn. do 2 f_equal; lia.
  - inversion Hdig as [|? ? Hx Hds]; subst.
    cbn [strconv.digitString append].
    rewrite readDigits_digit by assumption.
    cbn [strconv.mantissa strconv.nd strconv.dp strconv.sawdot
         strconv.underscores].
    assert (Hskip : (x =? 0) && (n =? 0) = false).
    { destruct (Z.eqb_spec x 0), (Z.eqb_spec n 0); try reflexivity.
      cbn in Hfirst. lia. }
    rewrite Hskip, IH by (assumption || lia).
    change (x :: ds) with ([x] ++ ds). rewrite valueOf_app.
    change (strconv.valueOf [x]) with (0 * 10 + x).
    cbn [length app]. rewrite Nat2Z.inj_succ, Z.pow_succ_r by lia.
    destruct ds; do 2 f_equal; lia.
Qed.

Lemma readDigits_zeros (t : nat) :
  forall (m p : Z) (sd sg us : bool) (rest : string),
  strconv.readDigits false (strconv.mkMant m 0 p sd sg us)
    (strconv.zeros t ++ rest)%string
  = strconv.readDigits false
      (strconv.mkMant m 0 (p - Z.of_nat t) sd
         (match t with O => sg | _ => true end) us)
      rest.
Proof.
  induction t as [|t IH]; intros m p sd sg us rest.
  - cbn. do 2 f_equal; lia.
  - cbn [strconv.zeros append].
    change "0"%char with (strconv.digitChar 0).
    rewrite readDigits_digit by (unfold is_digit; lia).
    cbn [strconv.mantissa strconv.nd strconv.dp strconv.sawdot
         strconv.underscores Z.eqb andb].
    rewrite IH. destruct t; do 2 f_equal; lia.
Qed.

Lemma readDigits_point (st : strconv.mantState) (r : string) :
  strconv.readDigits false st (String "." r) =
  if strconv.sawdot st then None
  else strconv.readDigits false
         (strconv.mkMant (strconv.mantissa st) (strconv.nd st)
            (strconv.nd st) true (strconv.sawdigits st)
            (strconv.underscores st)) r.
Proof. reflexivity. Qed.

End ReadBack.

(** ** The layout of [fmtF] *)

Section Layout.
Local Open Scope Z_scope.
Local Open Scope list_scope.


Lemma map_nth_seq (ds : list Z) (k : nat) :
  map (fun i => nth (k + i) ds 0) (seq 0 (length ds - k)) = skipn k ds.
Proof.
  revert k. induction ds as [|x ds IH]; intros k.
  - now destruct k.
  - destruct k as [|k].
    + cbn [length skipn Nat.sub seq map Nat.add nth]. f_equal.
      rewrite <- seq_shift, map_map.
      specialize (IH O). cbn [skipn Nat.add] in IH.
      rewrite Nat.sub_0_r in IH. exact IH.
    + cbn [length skipn Nat.sub]. rewrite <- (IH k).
      apply map_ext. intros i. reflexivity.
Qed.

Lemma digitString_zeros (t : nat) :
  strconv.digitString (repeat 0 t) = strconv.zeros t.
Proof. induction t as [|t IH]; cbn; [reflexivity|now rewrite IH]. Qed.

Lemma seq_offset (t n : nat) :
  seq t n = map (fun i => (t + i)%nat) (seq 0 n).
Proof.
  induction t as [|t IH].
  - now rewrite map_id.
  - rewrite <- seq_shift, IH, map_map. reflexivity.
Qed.

Lemma map_zero (f : nat -> Z) (l : list nat) :
  (forall i, In i l -> f i = 0) -> map f l = repeat 0 (length l).
Proof.
  induction l as [|x l IH]; intros H; [reflexivity|].
  cbn [map length repeat]. rewrite H by now left.
  f_equal. apply IH. intros i Hi. apply H. now right.
Qed.

(** The digits after the point when the point is before the digits. *)
Lemma fraction_before (ds : list Z) (dp : Z) :
  dp <= 0 ->
  map (fun i => let j := dp + Z.of_nat i in
                if (0 <=? j) && (j <? Z.of_nat (length ds))
                then nth (Z.to_nat j) ds 0 else 0)
      (seq 0 (Z.to_nat (Z.of_nat (length ds) - dp)))
  = repeat 0 (Z.to_nat (- dp)) ++ ds.
Proof.
  intros Hdp. cbv zeta.
  replace (Z.to_nat (Z.of_nat (length ds) - dp))
    with (Z.to_nat (- dp) + length ds)%nat by lia.
  rewrite seq_app, map_app. f_equal.
  - rewrite map_zero; [now rewrite length_seq|].
    intros i Hi. apply in_seq in Hi.
    destruct (Z.leb_spec 0 (dp + Z.of_nat i)); [lia|reflexivity].
  - cbn [Nat.add]. rewrite seq_offset, map_map.
    rewrite <- (map_nth_seq ds 0) at 2. cbn [skipn Nat.add].
    rewrite Nat.sub_0_r. apply map_ext_in. intros i Hi.
    apply in_seq in Hi.
    destruct (Z.leb_spec 0 (dp + Z.of_nat (Z.to_nat (- dp) + i))); [|lia].
    destruct (Z.ltb_spec (dp + Z.of_nat (Z.to_nat (- dp) + i))
                (Z.of_nat (length ds))); [|lia].
    cbn [andb]. f_equal. lia.
Qed.

(** The digits after the point when the point is among the digits. *)
Lemma fraction_among (ds : list Z) (dp : Z) :
  0 < dp < Z.of_nat (length ds) ->
  map (fun i => let j := dp + Z.of_nat i in
                if (0 <=? j) && (j <? Z.of_nat (length ds))
                then nth (Z.to_nat j) ds 0 else 0)
      (seq 0 (Z.to_nat (Z.of_nat (length ds) - dp)))
  = skipn (Z.to_nat dp) ds.
Proof.
  intros Hdp. cbv zeta.
  rewrite <- (map_nth_seq ds (Z.to_nat dp)).
  replace (Z.to_nat (Z.of_nat (length ds) - dp))
    with (length ds - Z.to_nat dp)%nat by lia.
  apply map_ext_in. intros i Hi. apply in_seq in Hi.
  destruct (Z.leb_spec 0 (dp + Z.of_nat i)); [|lia].
  destruct (Z.ltb_spec (dp + Z.of_nat i) (Z.of_nat (length ds))); [|lia].
  cbn [andb]. f_equal. lia.
Qed.

Lemma fmtF_printed (neg : bool) (ds : list Z) (dp : Z) :
  ds <> [] ->
  let a := strconv.mkDecimal ds dp in
  strconv.fmtF neg a (Z.max (strconv.ndOf a - dp) 0)
  = ((if neg then "-" else "") ++ printed ds dp)%string.
Proof.
  intros Hne. cbv zeta. unfold strconv.fmtF, strconv.ndOf, printed.
  cbn [strconv.d strconv.dp10]. f_equal.
  assert (Hn : (0 < length ds)%nat) by (destruct ds; [contradiction|cbn; lia]).
  destruct (Z.leb_spec (Z.of_nat (length ds)) dp) as [Hge|Hlt].
  - (* the digits end before the point *)
    destruct (Z.ltb_spec 0 dp); [|lia].
    rewrite Z.min_l, Nat2Z.id by lia. rewrite firstn_all.
    rewrite Z.max_r by lia. cbn. now rewrite append_nil_r.
  - rewrite Z.max_l by lia.
    destruct (Z.ltb_spec 0 (Z.of_nat (length ds) - dp)); [|lia].
    destruct (Z.ltb_spec 0 dp) as [Hdp|Hdp].
    + (* the point is among the digits *)
      rewrite Z.min_r by lia. rewrite Z.sub_diag.
      cbn [Z.to_nat strconv.zeros]. rewrite append_nil_r.
      now rewrite fraction_among by lia.
    + (* the point is before the digits *)
      rewrite fraction_before by lia.
      now rewrite digitString_app, digitString_zeros.
Qed.

End Layout.

(** ** [readFloat] on what [fmtF] wrote *)

Section ReadPrinted.
Local Open Scope Z_scope.
Local Open Scope list_scope.


(** [readFloat] on a decimal number without exponent, once the digit loop
    is known to read all of it. *)
Lemma readFloat_decimal (neg : bool) (body : string)
    (M n p : Z) (sd : bool) :
  0x30 <= byteAt body 0 <= 0x39 ->
  (byteAt body 0 =? 0x30) && (strconv.lower (byteAt body 1) =? 0x78)
  = false ->
  strconv.readDigits false mant0 body
  = Some (strconv.mkMant M n p sd true false, ""%string) ->
  strconv.readFloat ((if neg then "-" else "") ++ body)%string
  = Some (M, (if M =? 0 then 0 else (if sd then p else n) - n), neg, false).
Proof.
  intros Hc Hhex Hread.
  destruct body as [|c r]; [cbn in Hc; lia|].
  change (byteAt (String c r) 0) with (byteZ c) in Hc.
  assert (Hx : ((2 <? Z.of_nat (String.length (String c r)))
                && (byteAt (String c r) 0 =? 0x30)
                && (strconv.lower (byteAt (String c r) 1) =? 0x78)) = false).
  { rewrite <- andb_assoc, Hhex. apply andb_false_r. }
  destruct neg.
  - cbn [append]. unfold strconv.readFloat.
    change (byteZ "-") with 0x2D.
    change (0x2D =? 0x2D) with true. change (0x2D =? 0x2B) with false.
    cbn [orb drop]. rewrite Hx.
    fold mant0. rewrite Hread. cbn [strconv.sawdigits negb
      strconv.sawdot strconv.dp strconv.nd strconv.mantissa
      strconv.underscores String.eqb andb].
    reflexivity.
  - cbn [append]. unfold strconv.readFloat.
    destruct (Z.eqb_spec (byteZ c) 0x2D); [lia|].
    destruct (Z.eqb_spec (byteZ c) 0x2B); [lia|].
    cbn [orb]. rewrite Hx.
    fold mant0. rewrite Hread. cbn [strconv.sawdigits negb
      strconv.sawdot strconv.dp strconv.nd strconv.mantissa
      strconv.underscores String.eqb andb].
    reflexivity.
Qed.

Lemma byteAt_digitString (x : Z) (ds : list Z) (rest : string) :
  is_digit x ->
  byteAt (strconv.digitString (x :: ds) ++ rest)%string 0 = 0x30 + x.
Proof.
  intros Hx. cbn [strconv.digitString append].
  change (byteAt (String ?c ?r) 0) with (byteZ c).
  now apply byteZ_digitChar.
Qed.

Lemma valueOf_pos (ds : list Z) :
  Forall is_digit ds -> ds <> [] -> hd 1 ds <> 0 -> 0 < strconv.valueOf ds.
Proof.
  intros Hdig Hne Hhd. destruct ds as [|x ds]; [contradiction|].
  change (x :: ds) with ([x] ++ ds). rewrite valueOf_app.
  inversion Hdig as [|? ? Hx Hds]; subst. cbn in Hhd.
  change (strconv.valueOf [x]) with (0 * 10 + x).
  pose proof (valueOf_nonneg ds Hds).
  assert (0 < 10 ^ Z.of_nat (length ds)) by (apply Z.pow_pos_nonneg; lia).
  unfold is_digit in Hx. nia.
Qed.

Lemma roundDecimal_scaled (neg : bool) (V j : Z) :
  0 <= j ->
  strconv.roundDecimal neg (V * 10 ^ j) 0 = strconv.roundDecimal neg V j.
Proof.
  intros Hj. unfold strconv.roundDecimal.
  destruct (Z.leb_spec 0 j); [|lia]. cbn [Z.leb Z.compare].
  change (10 ^ 0) with 1. now rewrite Z.mul_1_r.
Qed.

(** Reading back the digits [ds] with the point at [dp]: [readFloat]
    finds a mantissa and an exponent that round as [ds] and [dp] do. *)
Lemma readFloat_printed (neg : bool) (ds : list Z) (dp : Z) :
  wf_digits ds -> ds <> [] ->
  exists M E,
    strconv.readFloat ((if neg then "-" else "") ++ printed ds dp)%string
    = Some (M, E, neg, false)
    /\ strconv.roundDecimal neg M E
       = strconv.roundDecimal neg (strconv.valueOf ds)
           (dp - Z.of_nat (length ds)).
Proof.
  intros (Hdig & Hhd & Hlast) Hne.
  assert (Hn : (0 < length ds)%nat) by (destruct ds; [contradiction|cbn; lia]).
  pose proof (valueOf_pos ds Hdig Hne Hhd) as Hpos.
  assert (Hx : exists x ds', ds = x :: ds' /\ is_digit x /\ x <> 0).
  { destruct ds as [|x ds']; [contradiction|]. exists x, ds'.
    inversion Hdig; subst. cbn in Hhd. auto. }
  destruct Hx as (x & ds' & Eds & Hx & Hx0).
  assert (Hnothex : forall c, (0x30 + x =? 0x30) && c = false).
  { intros c. destruct (Z.eqb_spec (0x30 + x) 0x30); [lia|reflexivity]. }
  unfold printed.
  destruct (Z.leb_spec (Z.of_nat (length ds)) dp) as [Hge|Hlt].
  - (* digits, then zeros *)
    set (t := Z.to_nat (dp - Z.of_nat (length ds))).
    exists (strconv.valueOf ds * 10 ^ Z.of_nat t), 0. split.
    + rewrite <- digitString_zeros, <- digitString_app.
      rewrite <- (append_nil_r (strconv.digitString _)).
      rewrite (readFloat_decimal neg _
                 (strconv.valueOf ds * 10 ^ Z.of_nat t) dp 0 false).
      * destruct (Z.eqb_spec (strconv.valueOf ds * 10 ^ Z.of_nat t) 0);
          [reflexivity|].
        repeat f_equal. lia.
      * rewrite Eds. cbn [app]. rewrite byteAt_digitString by assumption.
        unfold is_digit in Hx. lia.
      * rewrite Eds. cbn [app]. rewrite byteAt_digitString by assumption.
        apply Hnothex.
      * unfold mant0. rewrite readDigits_digits.
        -- rewrite valueOf_app, valueOf_zeros, length_app, !repeat_length.
           cbn [strconv.readDigits].
           assert (Hsg : match ds ++ repeat 0 t with
                         | [] => false | _ => true end = true)
             by (rewrite Eds; reflexivity).
           rewrite Hsg. do 3 f_equal; unfold t; lia.
        -- apply Forall_app. split; [assumption|].
           apply Forall_forall. intros y Hy. apply repeat_spec in Hy.
           subst. unfold is_digit. lia.
        -- lia.
        -- right. rewrite Eds. cbn. rewrite Eds in Hhd. exact Hhd.
    + rewrite roundDecimal_scaled by lia. f_equal. unfold t. lia.
  - destruct (Z.ltb_spec 0 dp) as [Hdp|Hdp].
    + (* digits, the point, digits *)
      set (k := Z.to_nat dp).
      exists (strconv.valueOf ds), (dp - Z.of_nat (length ds)).
      split; [|reflexivity].
      assert (Hk : (0 < k < length ds)%nat) by (unfold k; lia).
      assert (Hfirst : exists f', firstn k ds = x :: f').
      { rewrite Eds. destruct k; [lia|]. cbn. eauto. }
      destruct Hfirst as [f' Ef].
      rewrite (readFloat_decimal neg _
                 (strconv.valueOf ds) (Z.of_nat (length ds)) dp true).
      * destruct (Z.eqb_spec (strconv.valueOf ds) 0); [lia|reflexivity].
      * rewrite Ef, byteAt_digitString by assumption.
        unfold is_digit in Hx. lia.
      * rewrite Ef, byteAt_digitString by assumption. apply Hnothex.
      * unfold mant0. rewrite readDigits_digits.
        -- rewrite readDigits_point. cbn [strconv.sawdot strconv.mantissa
             strconv.nd strconv.sawdigits strconv.underscores].
           rewrite <- (append_nil_r (strconv.digitString (skipn k ds))).
           rewrite readDigits_digits.
           ++ cbn [strconv.readDigits].
              assert (Hsg : match skipn k ds with
                            | [] => match firstn k ds with
                                    | [] => false | _ => true end
                            | _ => true end = true)
                by (rewrite Ef; now destruct (skipn k ds)).
              rewrite Hsg.
              assert (Hv : strconv.valueOf ds
                           = strconv.valueOf (firstn k ds)
                             * 10 ^ Z.of_nat (length (skipn k ds))
                             + strconv.valueOf (skipn k ds)).
              { rewrite <- valueOf_app. now rewrite firstn_skipn. }
              assert (Hf : length (firstn k ds) = k)
                by (rewrite length_firstn; lia).
              assert (Hs : length (skipn k ds) = (length ds - k)%nat)
                by apply length_skipn.
              rewrite Hv, Hf, Hs.
              do 3 f_equal; unfold k; lia.
           ++ rewrite <- (firstn_skipn k ds) in Hdig.
              now apply Forall_app in Hdig.
           ++ rewrite length_firstn. lia.
           ++ left. rewrite length_firstn. lia.
        -- rewrite <- (firstn_skipn k ds) in Hdig.
           now apply Forall_app in Hdig.
        -- lia.
        -- right. rewrite Ef. cbn. exact Hx0.
    + (* zero, the point, zeros, digits *)
      set (t := Z.to_nat (- dp)).
      exists (strconv.valueOf ds), (dp - Z.of_nat (length ds)).
      split; [|reflexivity].
      rewrite (readFloat_decimal neg _
                 (strconv.valueOf ds) (Z.of_nat (length ds)) dp true).
      * destruct (Z.eqb_spec (strconv.valueOf ds) 0); [lia|reflexivity].
      * cbn. lia.
      * reflexivity.
      * unfold mant0. change "0"%char with (strconv.digitChar 0).
        rewrite readDigits_digit by (unfold is_digit; lia).
        cbn [strconv.mantissa strconv.nd strconv.dp strconv.sawdot
             strconv.underscores Z.eqb andb].
        rewrite readDigits_point. cbn [strconv.sawdot strconv.mantissa
          strconv.nd strconv.sawdigits strconv.underscores].
        rewrite readDigits_zeros.
        rewrite <- (append_nil_r (strconv.digitString ds)).
        rewrite readDigits_digits; try assumption; try lia.
        cbn [strconv.readDigits].
        assert (Hsg : match ds with
                      | [] => match t with O => true | S _ => true end
                      | _ => true end = true)
          by (rewrite Eds; reflexivity).
        rewrite Hsg. do 3 f_equal; unfold t; lia.
Qed.

End ReadPrinted.

(** ** The shortest decimal reads back *)

Section Shortest.
Local Open Scope Z_scope.
Local Open Scope list_scope.

Lemma special_number (neg : bool) (body : string) :
  0x30 <= byteAt body 0 <= 0x39 ->
  strconv.special ((if neg then "-" else "") ++ body)%string = None.
Proof.
  intros Hc. destruct body as [|c r]; [cbn in Hc; lia|].
  change (byteAt (String c r) 0) with (byteZ c) in Hc.
  destruct neg; cbn [append].
  - unfold strconv.special. change (byteZ "-") with 0x2D.
    change (0x2D =? 0x2B) with false. change (0x2D =? 0x2D) with true.
    cbv iota.
    assert (Hlow : lower_byte c = c).
    { unfold lower_byte. destruct (Z.leb_spec 0x41 (byteZ c)); [lia|].
      reflexivity. }
    assert (Hne : forall t : string,
              String.eqb (to_lower (String "-" (String c r)))
                (String "-" (String "i" t)) = false).
    { intros t. apply String.eqb_neq. cbn [to_lower]. rewrite Hlow.
      intros H. injection H as H _. subst c. cbn in Hc. lia. }
    unfold strconv.equalIgnoreCase.
    change (to_lower "-inf") with "-inf"%string.
    change (to_lower "-infinity") with "-infinity"%string.
    now rewrite !Hne.
  - unfold strconv.special.
    repeat match goal with
    | |- context [(byteZ c =? ?k)] =>
        destruct (Z.eqb_spec (byteZ c) k); [lia|]
    end.
    reflexivity.
Qed.

Lemma float64_eqb_eq (x y : strconv.float64) :
  strconv.float64_eqb x y = true -> x = y.
Proof.
  destruct x, y; cbn; try discriminate; try reflexivity.
  - intros H. apply Bool.eqb_prop in H. now subst.
  - intros H. apply Bool.eqb_prop in H. now subst.
  - rewrite !andb_true_iff. intros [[H1 H2] H3].
    apply Bool.eqb_prop in H1. apply Pos.eqb_eq in H2.
    apply Z.eqb_eq in H3. now subst.
Qed.

Lemma float64_eqb_refl (x : strconv.float64) : strconv.float64_eqb x x = true.
Proof.
  destruct x; cbn; try reflexivity; try apply Bool.eqb_reflx.
  now rewrite Bool.eqb_reflx, Pos.eqb_refl, Z.eqb_refl.
Qed.

Lemma roundRatio_zero (neg : bool) (q : Z) :
  0 < q -> strconv.roundRatio neg 0 q = (S754_zero neg, false).
Proof.
  intros Hq. unfold strconv.roundRatio. cbv zeta.
  rewrite Z.mul_0_l, Z.div_0_l by lia.
  change (Z.max (Z.log2 0 - 52) 0) with 0. change (2 ^ 0) with 1.
  rewrite Z.mul_1_r, Z.div_0_l, Z.mod_0_l by lia. change (2 * 0) with 0.
  destruct (Z.ltb_spec q 0); [lia|].
  destruct (Z.eqb_spec 0 q); [lia|]. reflexivity.
Qed.

Lemma roundDecimal_zero (neg : bool) (k : Z) :
  strconv.roundDecimal neg 0 k = (S754_zero neg, false).
Proof.
  unfold strconv.roundDecimal. destruct (Z.leb_spec 0 k).
  - rewrite Z.mul_0_l. apply roundRatio_zero. lia.
  - apply roundRatio_zero. apply Z.pow_pos_nonneg; lia.
Qed.

(** A decimal that reads as a finite number has digits. *)
Lemma readsAs_digits (neg s : bool) (m : positive) (e : Z)
    (a : strconv.decimal) :
  strconv.readsAs (S754_finite s m e) neg a = true -> strconv.d a <> [].
Proof.
  unfold strconv.readsAs. intros H Hnil. rewrite Hnil in H.
  change (strconv.valueOf []) with 0 in H.
  rewrite roundDecimal_zero in H. cbn in H. discriminate.
Qed.

Lemma dropNines_keep (x : Z) (r : list Z) :
  x <> 9 -> strconv.dropNines (x :: r) = x :: r.
Proof.
  intros Hx. destruct x as [|p|p]; try reflexivity.
  do 4 (try (destruct p as [p|p|]; try reflexivity)).
  now contradiction Hx.
Qed.

Lemma dropNines_spec (r : list Z) :
  exists j, r = repeat 9 j ++ strconv.dropNines r
            /\ hd 0 (strconv.dropNines r) <> 9.
Proof.
  induction r as [|x r (j & Hr & Hhd)].
  - exists O. cbn. split; [reflexivity|lia].
  - destruct (Z.eq_dec x 9) as [->|Hx].
    + exists (S j). cbn [strconv.dropNines repeat app].
      split; [now f_equal|assumption].
    + exists O. rewrite dropNines_keep by assumption. now split.
Qed.

Lemma RoundDown_wf (a : strconv.decimal) (n : nat) :
  Forall is_digit (strconv.d a) -> hd 1 (strconv.d a) <> 0 ->
  wf_digits (strconv.d (strconv.RoundDown a n)).
Proof.
  intros Hdig Hhd. cbn [strconv.RoundDown strconv.d]. apply trim_wf.
  - rewrite <- (firstn_skipn n (strconv.d a)) in Hdig.
    now apply Forall_app in Hdig.
  - destruct n; [cbn; lia|]. destruct (strconv.d a); [cbn; lia|exact Hhd].
Qed.

Lemma RoundUp_wf (a : strconv.decimal) (n : nat) :
  Forall is_digit (strconv.d a) -> hd 1 (strconv.d a) <> 0 ->
  wf_digits (strconv.d (strconv.RoundUp a n))
  /\ strconv.d (strconv.RoundUp a n) <> [].
Proof.
  intros Hdig Hhd. unfold strconv.RoundUp.
  set (f := firstn n (strconv.d a)).
  assert (Hf : Forall is_digit f).
  { unfold f. rewrite <- (firstn_skipn n (strconv.d a)) in Hdig.
    now apply Forall_app in Hdig. }
  assert (Hfh : hd 1 f <> 0).
  { unfold f. destruct n; [cbn; lia|].
    destruct (strconv.d a); [cbn; lia|exact Hhd]. }
  destruct (dropNines_spec (rev f)) as (j & Hr & Hnine).
  destruct (strconv.dropNines (rev f)) as [|c r] eqn:E.
  - cbn [strconv.d]. repeat split; cbn; try lia; try discriminate.
    constructor; [unfold is_digit; lia|constructor].
  - cbn [strconv.d]. cbn [hd] in Hnine.
    assert (Hrev : f = rev r ++ [c] ++ repeat 9 j).
    { rewrite <- (rev_involutive f), Hr, rev_app_distr. cbn [rev].
      rewrite <- app_assoc. f_equal. f_equal.
      clear. induction j as [|j IH]; [reflexivity|].
      cbn [repeat rev]. rewrite IH. clear.
      induction j; cbn; congruence. }
    assert (Hc : is_digit c /\ Forall is_digit (rev r)).
    { rewrite Hrev in Hf. apply Forall_app in Hf as [H1 H2].
      apply Forall_app in H2 as [H2 _]. inversion H2; subst. now split. }
    destruct Hc as [Hc Hrr]. unfold is_digit in Hc.
    cbn [rev]. split; [|now destruct (rev r)].
    repeat split.
    + apply Forall_app. split; [assumption|].
      constructor; [unfold is_digit; lia|constructor].
    + rewrite Hrev in Hfh. destruct (rev r); cbn in *; lia.
    + rewrite last_last. lia.
Qed.

Lemma Round_cases (a : strconv.decimal) (n : nat) :
  strconv.Round a n = a
  \/ strconv.Round a n = strconv.RoundUp a n
  \/ strconv.Round a n = strconv.RoundDown a n.
Proof.
  unfold strconv.Round.
  destruct (length (strconv.d a) <=? n)%nat; [now left|].
  destruct (strconv.shouldRoundUp a n); auto.
Qed.

(** The walk of [roundShortest] ends on a decimal that reads as [x], as
    long as the exact expansion it starts from does. *)
Lemma shortestLoop_reads (s neg : bool) (m : positive) (e : Z)
    (a : strconv.decimal) (fuel : nat) :
  forall n,
  wf_digits (strconv.d a) -> strconv.d a <> [] ->
  strconv.readsAs (S754_finite s m e) neg a = true ->
  let b := strconv.shortestLoop (S754_finite s m e) neg a fuel n in
  wf_digits (strconv.d b) /\ strconv.d b <> []
  /\ strconv.readsAs (S754_finite s m e) neg b = true.
Proof.
  intros n Hwf Hne Hread. cbv zeta. revert n.
  destruct Hwf as (Hdig & Hhd & Hlast).
  assert (Hdown : forall n,
    strconv.readsAs (S754_finite s m e) neg (strconv.RoundDown a n) = true ->
    wf_digits (strconv.d (strconv.RoundDown a n))
    /\ strconv.d (strconv.RoundDown a n) <> []
    /\ strconv.readsAs (S754_finite s m e) neg (strconv.RoundDown a n)
       = true).
  { intros n H. split; [now apply RoundDown_wf|].
    split; [now apply readsAs_digits in H|assumption]. }
  assert (Hup : forall n,
    strconv.readsAs (S754_finite s m e) neg (strconv.RoundUp a n) = true ->
    wf_digits (strconv.d (strconv.RoundUp a n))
    /\ strconv.d (strconv.RoundUp a n) <> []
    /\ strconv.readsAs (S754_finite s m e) neg (strconv.RoundUp a n)
       = true).
  { intros n H. destruct (RoundUp_wf a n Hdig Hhd). auto. }
  induction fuel as [|fuel IH]; intros n.
  - cbn. repeat split; assumption.
  - cbn [strconv.shortestLoop].
    destruct (strconv.readsAs _ neg (strconv.RoundDown a n)) eqn:Hd;
    destruct (strconv.readsAs _ neg (strconv.RoundUp a n)) eqn:Hu;
      cbn [andb]; auto.
    destruct (Round_cases a n) as [->|[->| ->]]; auto.
    repeat split; assumption.
Qed.

End Shortest.

(** ** [FormatFloat] and [ParseFloat] *)

Section RoundTrip.
Local Open Scope Z_scope.
Local Open Scope list_scope.

Lemma readsAs_exact (neg : bool) (m : positive) (e : Z) (ds : list Z)
    (dp : Z) :
  strconv.roundDecimal neg (strconv.valueOf ds) (dp - Z.of_nat (length ds))
  = (S754_finite neg m e, false) ->
  strconv.readsAs (S754_finite neg m e) neg (strconv.mkDecimal ds dp) = true.
Proof.
  intros H. unfold strconv.readsAs, strconv.ndOf. cbn [strconv.d strconv.dp10].
  rewrite H. cbn [negb andb]. apply float64_eqb_refl.
Qed.

(** The exact expansion of a [float64] reads as that [float64]. *)
Lemma exactDecimal_reads (neg : bool) (m : positive) (e : Z) :
  strconv.is_float64 (S754_finite neg m e) = true ->
  let a := strconv.exactDecimal m e in
  wf_digits (strconv.d a) /\ strconv.d a <> []
  /\ strconv.readsAs (S754_finite neg m e) neg a = true.
Proof.
  intros Hval. cbv zeta. unfold strconv.exactDecimal.
  destruct (Z.leb_spec 0 e) as [He|He].
  - (* an integer *)
    set (A := Zpos m * 2 ^ e).
    assert (HA : 0 < A).
    { unfold A. apply Z.mul_pos_pos; [lia|]. apply Z.pow_pos_nonneg; lia. }
    destruct (digitsOf_spec A HA) as (Hv & Hdig & Hhd).
    destruct (valueOf_trim (strconv.digitsOf A)) as (t & Hlen & Hvt).
    cbn [strconv.d]. split; [now apply trim_wf|].
    assert (Hne : strconv.trim (strconv.digitsOf A) <> []).
    { intros Hnil. rewrite Hnil in Hvt.
      change (strconv.valueOf []) with 0 in Hvt. lia. }
    split; [assumption|].
    apply readsAs_exact.
    replace (Z.of_nat (length (strconv.digitsOf A))
             - Z.of_nat (length (strconv.trim (strconv.digitsOf A))))
      with (Z.of_nat t) by lia.
    unfold strconv.roundDecimal.
    destruct (Z.leb_spec 0 (Z.of_nat t)); [|lia].
    rewrite <- Hvt, Hv.
    apply roundRatio_exact; try assumption; try lia.
  - (* a fraction: m * 5^-e / 10^-e *)
    set (A := Zpos m * 5 ^ (- e)).
    assert (H5 : 0 < 5 ^ (- e)) by (apply Z.pow_pos_nonneg; lia).
    assert (H2 : 0 < 2 ^ (- e)) by (apply Z.pow_pos_nonneg; lia).
    assert (HA : 0 < A) by (unfold A; lia).
    destruct (digitsOf_spec A HA) as (Hv & Hdig & Hhd).
    destruct (valueOf_trim (strconv.digitsOf A)) as (t & Hlen & Hvt).
    cbn [strconv.d]. split; [now apply trim_wf|].
    assert (Hne : strconv.trim (strconv.digitsOf A) <> []).
    { intros Hnil. rewrite Hnil in Hvt.
      change (strconv.valueOf []) with 0 in Hvt. lia. }
    split; [assumption|].
    apply readsAs_exact.
    set (V := strconv.valueOf (strconv.trim (strconv.digitsOf A))) in *.
    replace (Z.of_nat (length (strconv.digitsOf A)) + e
             - Z.of_nat (length (strconv.trim (strconv.digitsOf A))))
      with (Z.of_nat t + e) by lia.
    rewrite Hv in Hvt.
    assert (H10 : 10 ^ (- e) = 2 ^ (- e) * 5 ^ (- e)).
    { change 10 with (2 * 5). apply Z.pow_mul_l. }
    unfold strconv.roundDecimal.
    destruct (Z.leb_spec 0 (Z.of_nat t + e)) as [Hk|Hk].
    + apply roundRatio_exact; try assumption; try lia.
      intros _. rewrite Z.mul_1_r.
      apply (Z.mul_reg_r _ _ (5 ^ (- e))); [lia|].
      rewrite <- Z.mul_assoc, <- H10, <- Z.mul_assoc, <- Z.pow_add_r by lia.
      replace (Z.of_nat t + e + - e) with (Z.of_nat t) by lia.
      rewrite <- Hvt. reflexivity.
    + assert (Hq : 0 < 10 ^ (- (Z.of_nat t + e)))
        by (apply Z.pow_pos_nonneg; lia).
      apply roundRatio_exact; try assumption; try lia.
      intros _.
      assert (Ht : 0 < 10 ^ Z.of_nat t) by (apply Z.pow_pos_nonneg; lia).
      apply (Z.mul_reg_r _ _ (10 ^ Z.of_nat t)); [lia|].
      rewrite <- (Z.mul_assoc (Zpos m)), <- Z.pow_add_r by lia.
      replace (- (Z.of_nat t + e) + Z.of_nat t) with (- e) by lia.
      rewrite H10.
      replace (V * 2 ^ (- e) * 10 ^ Z.of_nat t)
        with (V * 10 ^ Z.of_nat t * 2 ^ (- e)) by ring.
      rewrite <- Hvt. unfold A. ring.
Qed.

(** [ParseFloat] on a number that [fmtF] wrote. *)
Lemma ParseFloat_printed (neg : bool) (ds : list Z) (dp : Z)
    (x : strconv.float64) :
  wf_digits ds -> ds <> [] ->
  strconv.readsAs x neg (strconv.mkDecimal ds dp) = true ->
  strconv.ParseFloat ((if neg then "-" else "") ++ printed ds dp)%string
  = (x, None).
Proof.
  intros Hwf Hne Hread.
  destruct (readFloat_printed neg ds dp Hwf Hne) as (M & E & Hrf & Hround).
  unfold strconv.ParseFloat.
  rewrite special_number.
  - rewrite Hrf, Hround.
    unfold strconv.readsAs, strconv.ndOf in Hread.
    cbn [strconv.d strconv.dp10] in Hread.
    destruct (strconv.roundDecimal _ _ _) as [f ovf].
    apply andb_true_iff in Hread as [Hovf Heq].
    apply negb_true_iff in Hovf. apply float64_eqb_eq in Heq.
    now subst.
  - destruct Hwf as (Hdig & Hhd & _).
    destruct ds as [|d0 ds']; [contradiction|].
    inversion Hdig as [|? ? Hd0 _]; subst. cbn in Hhd.
    unfold printed.
    destruct (Z.of_nat (length (d0 :: ds')) <=? dp).
    + rewrite byteAt_digitString by assumption. unfold is_digit in Hd0. lia.
    + destruct (0 <? dp) eqn:Hdp.
      * apply Z.ltb_lt in Hdp.
        destruct (Z.to_nat dp) eqn:Ek; [lia|]. cbn [firstn].
        rewrite byteAt_digitString by assumption.
        unfold is_digit in Hd0. lia.
      * cbn. lia.
Qed.

(** [strconv.FormatFloat(x, 'f', -1, 64)] reads back as [x]: for every
    [float64], [ParseFloat] returns it exactly and without error. *)
Theorem ParseFloat_FormatFloat (x : strconv.float64) :
  strconv.is_float64 x = true ->
  strconv.ParseFloat (strconv.FormatFloat x) = (x, None).
Proof.
  intros Hval. destruct x as [s|s| |s m e].
  - destruct s; reflexivity.
  - destruct s; reflexivity.
  - reflexivity.
  - unfold strconv.FormatFloat.
    destruct (exactDecimal_reads s m e Hval) as (Hwf & Hne & Hread).
    unfold strconv.roundShortest.
    pose proof (shortestLoop_reads s s m e (strconv.exactDecimal m e)
                  (S (length (strconv.d (strconv.exactDecimal m e)))) 0
                  Hwf Hne Hread) as Hb.
    cbv zeta in Hb.
    destruct (strconv.shortestLoop _ s _ _ 0) as [ds dp].
    cbn [strconv.d] in Hb. destruct Hb as (Hwf' & Hne' & Hread').
    pose proof (fmtF_printed s ds dp Hne') as Hfmt. cbv zeta in Hfmt.
    cbn [strconv.dp10]. rewrite Hfmt.
    now apply ParseFloat_printed.
Qed.

End RoundTrip.



(** ** What [ParseFloat] returns is a [float64] *)

Section ParseValid.
Local Open Scope Z_scope.

Lemma readDigits_mantissa (hex : bool) (s : string) :
  forall st st' rest,
  strconv.readDigits hex st s = Some (st', rest) ->
  0 <= strconv.mantissa st -> 0 <= strconv.mantissa st'.
Proof.
  induction s as [|a r IH]; intros st st' rest H Hm.
  - cbn in H. injection H as <- _. assumption.
  - cbn [strconv.readDigits] in H. unfold strconv.isDigit in H.
    repeat match type of H with
    | context [if ?c then _ else _] => destruct c eqn:?
    end; try discriminate;
    try (injection H as <- _; assumption);
    apply IH in H; try assumption;
    cbn [strconv.mantissa]; zify_bools; try lia.
Qed.

Lemma readFloat_mantissa (s : string) (M E : Z) (neg hex : bool) :
  strconv.readFloat s = Some (M, E, neg, hex) -> 0 <= M.
Proof.
  unfold strconv.readFloat. destruct s as [|a r]; [discriminate|].
  cbv zeta.
  destruct (strconv.readDigits _ _ _) as [[st s3]|] eqn:Hrd;
    [|discriminate].
  apply readDigits_mantissa in Hrd; [|cbn; lia].
  intros H.
  repeat match type of H with
  | context [strconv.readExponent ?a ?b ?c] =>
      destruct (strconv.readExponent a b c) as [[? ?] ?]
  | context [if ?c then _ else _] => destruct c
  | context [match ?c with _ => _ end] => destruct c
  end; try discriminate; injection H as <- _ _ _; assumption.
Qed.

Theorem ParseFloat_float64 (s : string) :
  strconv.is_float64 (fst (strconv.ParseFloat s)) = true.
Proof.
  unfold strconv.ParseFloat.
  destruct (strconv.special s) as [v|] eqn:Hsp.
  - unfold strconv.special in Hsp. destruct s; [discriminate|].
    repeat match type of Hsp with
    | context [if ?c then _ else _] => destruct c
    end; try discriminate; injection Hsp as <-; reflexivity.
  - destruct (strconv.readFloat s) as [[[[M E] neg] hex]|] eqn:Hrf;
      [|reflexivity].
    apply readFloat_mantissa in Hrf.
    assert (Hr : strconv.is_float64
                   (fst (if hex then strconv.roundBinary neg M E
                         else strconv.roundDecimal neg M E)) = true).
    { unfold strconv.roundBinary, strconv.roundDecimal.
      destruct hex; destruct (Z.leb_spec 0 E);
        apply roundRatio_float64; try lia;
        try (apply Z.mul_nonneg_nonneg; [lia|apply Z.pow_nonneg; lia]);
        apply Z.pow_pos_nonneg; lia. }
    destruct (if hex then _ else _) as [f ovf]. exact Hr.
Qed.

End ParseValid.

(** ** Rounding is monotone *)

Section Monotone.
Local Open Scope Z_scope.

(** Rounding to the nearest integer, ties to even, is monotone. *)
Lemma nearest_mono (P1 P2 d : Z) :
  0 < d -> P1 <= P2 ->
  (if (d <? 2 * (P1 mod d)) || ((2 * (P1 mod d) =? d) && Z.odd (P1 / d))
   then P1 / d + 1 else P1 / d)
  <= (if (d <? 2 * (P2 mod d)) || ((2 * (P2 mod d) =? d) && Z.odd (P2 / d))
      then P2 / d + 1 else P2 / d).
Proof.
  intros Hd Hle.
  assert (Hdiv : P1 / d <= P2 / d) by (apply Z.div_le_mono; lia).
  pose proof (Z.div_mod P1 d ltac:(lia)) as E1.
  pose proof (Z.div_mod P2 d ltac:(lia)) as E2.
  pose proof (Z.mod_pos_bound P1 d Hd) as B1.
  pose proof (Z.mod_pos_bound P2 d Hd) as B2.
  destruct (Z.eq_dec (P1 / d) (P2 / d)) as [Heq|Hne].
  - rewrite <- Heq in *.
    assert (Hr : P1 mod d <= P2 mod d) by lia.
    destruct (Z.ltb_spec d (2 * (P1 mod d)));
    destruct (Z.ltb_spec d (2 * (P2 mod d)));
    destruct (Z.eqb_spec (2 * (P1 mod d)) d);
    destruct (Z.eqb_spec (2 * (P2 mod d)) d);
    destruct (Z.odd (P1 / d)); cbn [orb andb]; lia.
  - repeat match goal with
    | |- context [if ?c then _ else _] => destruct c
    end; lia.
Qed.

Lemma roundedUnits_mono (p1 p2 q : Z) :
  0 <= p1 <= p2 -> 0 < q -> roundedUnits p1 q <= roundedUnits p2 q.
Proof.
  intros Hp Hq. unfold roundedUnits. cbv zeta.
  assert (H2 : 0 < 2 ^ 1074) by (apply Z.pow_pos_nonneg; lia).
  set (P1 := p1 * 2 ^ 1074). set (P2 := p2 * 2 ^ 1074).
  assert (HP : 0 <= P1 <= P2) by (unfold P1, P2; nia).
  set (N1 := P1 / q). set (N2 := P2 / q).
  assert (HN1 : 0 <= N1) by (unfold N1; apply Z.div_pos; lia).
  assert (HN : N1 <= N2) by (unfold N1, N2; apply Z.div_le_mono; lia).
  pose proof (leading_bits N1 HN1) as L1.
  pose proof (leading_bits N2 ltac:(lia)) as L2. cbv zeta in L1, L2.
  set (e1 := Z.max (Z.log2 N1 - 52) 0) in *.
  set (e2 := Z.max (Z.log2 N2 - 52) 0) in *.
  assert (He : e1 <= e2).
  { unfold e1, e2. pose proof (Z.log2_le_mono N1 N2 HN). lia. }
  destruct L1 as (He1 & Hm1 & Hn1). destruct L2 as (He2 & Hm2 & Hn2).
  assert (Hd1 : P1 / (q * 2 ^ e1) = N1 / 2 ^ e1).
  { unfold N1. rewrite Z.div_div; [reflexivity|lia|].
    apply Z.pow_pos_nonneg; lia. }
  assert (Hd2 : P2 / (q * 2 ^ e2) = N2 / 2 ^ e2).
  { unfold N2. rewrite Z.div_div; [reflexivity|lia|].
    apply Z.pow_pos_nonneg; lia. }
  destruct (Z.eq_dec e1 e2) as [Heq|Hne].
  - rewrite <- Heq.
    assert (H2e : 0 < 2 ^ e1) by (apply Z.pow_pos_nonneg; lia).
    apply Z.mul_le_mono_nonneg_r; [lia|].
    apply nearest_mono; lia.
  - assert (H2e1 : 0 < 2 ^ e1) by (apply Z.pow_pos_nonneg; lia).
    assert (H2e2 : 0 < 2 ^ e2) by (apply Z.pow_pos_nonneg; lia).
    assert (Hpow : 2 ^ 53 * 2 ^ e1 <= 2 ^ 52 * 2 ^ e2).
    { rewrite <- !Z.pow_add_r by lia. apply Z.pow_le_mono_r; lia. }
    specialize (Hn2 ltac:(lia)).
    rewrite Hd1, Hd2.
    set (m1 := N1 / 2 ^ e1) in *. set (m2 := N2 / 2 ^ e2) in *.
    apply Z.le_trans with (2 ^ 53 * 2 ^ e1).
    + apply Z.mul_le_mono_nonneg_r; [lia|].
      destruct (_ || _); lia.
    + apply Z.le_trans with (2 ^ 52 * 2 ^ e2); [exact Hpow|].
      apply Z.mul_le_mono_nonneg_r; [lia|].
      destruct (_ || _); lia.
Qed.


(** [roundRatio] returns the finite [float64] whose value, in units of
    [2^-1074], is the rounded quotient. *)
Lemma roundRatio_units (neg : bool) (p q : Z) (m : positive) (e : Z) :
  0 <= p -> 0 < q ->
  strconv.is_float64 (S754_finite neg m e) = true ->
  strconv.roundRatio neg p q = (S754_finite neg m e, false)
  <-> roundedUnits p q = Zpos m * 2 ^ (e + 1074).
Proof.
  intros Hp Hq Hval. apply is_float64_finite in Hval.
  destruct Hval as (Hm & He & Hc).
  unfold strconv.roundRatio, roundedUnits. cbv zeta.
  assert (H2 : 0 < 2 ^ 1074) by (apply Z.pow_pos_nonneg; lia).
  set (P := p * 2 ^ 1074).
  assert (HP : 0 <= P) by (unfold P; nia).
  set (N := P / q).
  assert (HN : 0 <= N) by (unfold N; apply Z.div_pos; lia).
  pose proof (leading_bits N HN) as L. cbv zeta in L.
  set (e0 := Z.max (Z.log2 N - 52) 0) in *.
  destruct L as (He0 & Hm0 & Hn0).
  assert (H2e : 0 < 2 ^ e0) by (apply Z.pow_pos_nonneg; lia).
  assert (Hd : P / (q * 2 ^ e0) = N / 2 ^ e0).
  { unfold N. rewrite Z.div_div; [reflexivity|lia|lia]. }
  rewrite Hd. set (m0 := N / 2 ^ e0) in *.
  set (up := (q * 2 ^ e0 <? 2 * (P mod (q * 2 ^ e0)))
             || ((2 * (P mod (q * 2 ^ e0)) =? q * 2 ^ e0) && Z.odd m0)).
  set (m' := if up then m0 + 1 else m0).
  assert (Hm' : 0 <= m' <= 2 ^ 53 /\ (0 < e0 -> 2 ^ 52 <= m')).
  { unfold m'. destruct up; split; lia. }
  destruct Hm' as [Hb' Hn'].
  set (k := e + 1074).
  assert (Hk : 0 <= k) by (unfold k; lia).
  assert (H2k : 0 < 2 ^ k) by (apply Z.pow_pos_nonneg; lia).
  assert (Hck : 2 ^ 52 <= Zpos m \/ k = 0) by (unfold k; lia).
  assert (H53 : 2 ^ 53 = 2 * 2 ^ 52) by reflexivity.
  assert (H52 : 0 < 2 ^ 52) by reflexivity.
  destruct (Z.eqb_spec m' (2 ^ 53)) as [Hfull|Hpart].
  - (* the mantissa overflows into the next exponent *)
    change (2 ^ 52 =? 0) with false. cbv iota.
    assert (Hnext : m' * 2 ^ e0 = 2 ^ 52 * 2 ^ (e0 + 1)).
    { rewrite Hfull, Z.pow_add_r by lia. change (2 ^ 1) with 2.
      rewrite H53. ring. }
    rewrite Hnext.
    pose proof (log2_canonical (2 ^ 52) (e0 + 1)
                  ltac:(rewrite H53; lia) ltac:(lia) ltac:(lia)) as Hl1.
    pose proof (log2_canonical (Zpos m) k ltac:(lia) Hk Hck) as Hl2.
    split.
    + destruct (Z.ltb_spec (971 + 1074) (e0 + 1)); [discriminate|].
      intros Hres. injection Hres as Hmm Hee.
      replace k with (e0 + 1) by (unfold k; lia).
      f_equal. rewrite <- Hmm. reflexivity.
    + intros HR. rewrite HR in Hl1. rewrite Hl1 in Hl2.
      rewrite <- Hl2 in HR.
      assert (H2n : 0 < 2 ^ (e0 + 1)) by (apply Z.pow_pos_nonneg; lia).
      assert (Hmm : 2 ^ 52 = Zpos m) by nia.
      destruct (Z.ltb_spec (971 + 1074) (e0 + 1)); [unfold k in *; lia|].
      f_equal. f_equal; [|unfold k in *; lia].
      apply Pos2Z.inj. rewrite <- Hmm. reflexivity.
  - destruct (Z.eqb_spec m' 0) as [Hz|Hnz].
    + split; [discriminate|]. rewrite Hz. lia.
    + assert (Hcan : 2 ^ 52 <= m' \/ e0 = 0).
      { destruct (Z.eq_dec e0 0); [now right|left; apply Hn'; lia]. }
      pose proof (log2_canonical m' e0 ltac:(lia) He0 Hcan) as Hl1.
      pose proof (log2_canonical (Zpos m) k ltac:(lia) Hk Hck) as Hl2.
      split.
      * destruct (Z.ltb_spec (971 + 1074) e0); [discriminate|].
        intros Hres. injection Hres as Hmm Hee.
        replace k with e0 by (unfold k; lia).
        f_equal. rewrite <- Hmm. rewrite Z2Pos.id by lia. reflexivity.
      * intros HR. rewrite HR in Hl1. rewrite Hl1 in Hl2.
        rewrite <- Hl2 in HR.
        assert (Hmm : m' = Zpos m) by nia.
        destruct (Z.ltb_spec (971 + 1074) e0); [unfold k in *; lia|].
        f_equal. f_equal; [|unfold k in *; lia].
        apply Pos2Z.inj. rewrite <- Hmm. rewrite Z2Pos.id by lia.
        reflexivity.
Qed.

(** The numbers that round to one [float64] are an interval. *)
Lemma roundRatio_between (neg : bool) (p1 p2 p3 q : Z) (m : positive)
    (e : Z) :
  0 <= p1 <= p2 -> p2 <= p3 -> 0 < q ->
  strconv.is_float64 (S754_finite neg m e) = true ->
  strconv.roundRatio neg p1 q = (S754_finite neg m e, false) ->
  strconv.roundRatio neg p3 q = (S754_finite neg m e, false) ->
  strconv.roundRatio neg p2 q = (S754_finite neg m e, false).
Proof.
  intros H12 H23 Hq Hval H1 H3.
  apply roundRatio_units in H1; try assumption; try lia.
  apply roundRatio_units in H3; try assumption; try lia.
  apply roundRatio_units; try assumption; try lia.
  pose proof (roundedUnits_mono p1 p2 q ltac:(lia) Hq).
  pose proof (roundedUnits_mono p2 p3 q ltac:(lia) Hq).
  lia.
Qed.

(** The result has the sign asked for. *)
Lemma roundRatio_sign (neg s : bool) (p q : Z) (m : positive) (e : Z) :
  fst (strconv.roundRatio neg p q) = S754_finite s m e -> s = neg.
Proof.
  unfold strconv.roundRatio. cbv zeta.
  repeat match goal with
  | |- context [if ?c then _ else _] => destruct c
  end; cbn [fst]; intros H; try discriminate; now injection H.
Qed.

(** A common factor of [p] and [q] changes nothing. *)
Lemma roundRatio_scale (neg : bool) (p q c : Z) :
  0 < q -> 0 < c ->
  strconv.roundRatio neg (p * c) (q * c) = strconv.roundRatio neg p q.
Proof.
  intros Hq Hc. unfold strconv.roundRatio. cbv zeta.
  replace (p * c * 2 ^ 1074) with (p * 2 ^ 1074 * c) by ring.
  set (P := p * 2 ^ 1074).
  rewrite Z.div_mul_cancel_r by lia.
  set (e0 := Z.max (Z.log2 (P / q) - 52) 0).
  assert (H2e : 0 < 2 ^ e0) by (apply Z.pow_pos_nonneg; unfold e0; lia).
  replace (q * c * 2 ^ e0) with (q * 2 ^ e0 * c) by ring.
  set (d := q * 2 ^ e0). assert (Hd : 0 < d) by (unfold d; lia).
  rewrite Z.div_mul_cancel_r by lia.
  rewrite Z.mul_mod_distr_r by lia.
  assert (Hlt : (d * c <? 2 * (P mod d * c)) = (d <? 2 * (P mod d))).
  { destruct (Z.ltb_spec d (2 * (P mod d)));
    destruct (Z.ltb_spec (d * c) (2 * (P mod d * c))); try reflexivity; nia. }
  assert (Heq : (2 * (P mod d * c) =? d * c) = (2 * (P mod d) =? d)).
  { destruct (Z.eqb_spec (2 * (P mod d)) d);
    destruct (Z.eqb_spec (2 * (P mod d * c)) (d * c)); try reflexivity; nia. }
  rewrite Hlt, Heq. reflexivity.
Qed.

End Monotone.

(** ** Decimals between two that read alike *)

Section Between.
Local Open Scope Z_scope.
Local Open Scope list_scope.

(** Zeros at the end of the digits move into the exponent. *)
Lemma roundDecimal_shift (neg : bool) (V k j : Z) :
  0 <= j ->
  strconv.roundDecimal neg (V * 10 ^ j) k = strconv.roundDecimal neg V (k + j).
Proof.
  intros Hj. unfold strconv.roundDecimal.
  assert (Hpj : 0 < 10 ^ j) by (apply Z.pow_pos_nonneg; lia).
  destruct (Z.leb_spec 0 k) as [Hk|Hk];
    destruct (Z.leb_spec 0 (k + j)) as [Hkj|Hkj]; try lia.
  - f_equal. rewrite Z.pow_add_r by lia. ring.
  - assert (Hc : 0 < 10 ^ (- k)) by (apply Z.pow_pos_nonneg; lia).
    rewrite <- (roundRatio_scale neg (V * 10 ^ (k + j)) 1 (10 ^ (- k)))
      by lia.
    f_equal; [|lia].
    rewrite <- Z.mul_assoc, <- Z.pow_add_r by lia.
    do 2 f_equal. lia.
  - assert (Hc : 0 < 10 ^ (- (k + j))) by (apply Z.pow_pos_nonneg; lia).
    rewrite <- (roundRatio_scale neg V (10 ^ (- (k + j))) (10 ^ j)) by lia.
    f_equal. rewrite <- Z.pow_add_r by lia. f_equal. lia.
Qed.

Lemma roundDecimal_between (neg : bool) (V1 V2 V3 k : Z) (m : positive)
    (e : Z) :
  0 <= V1 <= V2 -> V2 <= V3 ->
  strconv.is_float64 (S754_finite neg m e) = true ->
  strconv.roundDecimal neg V1 k = (S754_finite neg m e, false) ->
  strconv.roundDecimal neg V3 k = (S754_finite neg m e, false) ->
  strconv.roundDecimal neg V2 k = (S754_finite neg m e, false).
Proof.
  intros H12 H23 Hval. unfold strconv.roundDecimal.
  destruct (Z.leb_spec 0 k) as [Hk|Hk].
  - assert (Hc : 0 < 10 ^ k) by (apply Z.pow_pos_nonneg; lia).
    apply roundRatio_between; try assumption; nia.
  - assert (Hc : 0 < 10 ^ (- k)) by (apply Z.pow_pos_nonneg; lia).
    apply roundRatio_between; try assumption; lia.
Qed.

Lemma roundDecimal_sign (neg s : bool) (V k : Z) (m : positive) (e : Z) :
  fst (strconv.roundDecimal neg V k) = S754_finite s m e -> s = neg.
Proof.
  unfold strconv.roundDecimal. destruct (0 <=? k); apply roundRatio_sign.
Qed.

Lemma readsAs_value (x : strconv.float64) (neg : bool) (ds : list Z)
    (dp : Z) :
  strconv.readsAs x neg (strconv.mkDecimal ds dp) = true
  <-> strconv.roundDecimal neg (strconv.valueOf ds)
        (dp - Z.of_nat (length ds)) = (x, false).
Proof.
  unfold strconv.readsAs, strconv.ndOf. cbn [strconv.d strconv.dp10].
  destruct (strconv.roundDecimal _ _ _) as [f ovf]. split.
  - intros H. apply andb_true_iff in H as [Hovf Heq].
    apply negb_true_iff in Hovf. apply float64_eqb_eq in Heq. now subst.
  - intros H. injection H as -> ->. cbn [negb andb].
    apply float64_eqb_refl.
Qed.

Lemma valueOf_nines (j : nat) :
  strconv.valueOf (repeat 9 j) = 10 ^ Z.of_nat j - 1.
Proof.
  induction j as [|j IH]; [reflexivity|].
  replace (repeat 9 (S j)) with (repeat 9 j ++ [9])
    by (symmetry; apply repeat_cons).
  rewrite valueOf_app, IH. cbn [length].
  change (strconv.valueOf [9]) with 9.
  change (Z.of_nat 1) with 1. change (10 ^ 1) with 10.
  rewrite Nat2Z.inj_succ, Z.pow_succ_r by lia. ring.
Qed.

(** The digits kept by [RoundDown] are the first [n]. *)
Lemma RoundDown_reads (x : strconv.float64) (neg : bool)
    (a : strconv.decimal) (n : nat) :
  let f := firstn n (strconv.d a) in
  strconv.readsAs x neg (strconv.RoundDown a n) = true
  <-> strconv.roundDecimal neg (strconv.valueOf f)
        (strconv.dp10 a - Z.of_nat (length f)) = (x, false).
Proof.
  cbv zeta. unfold strconv.RoundDown. rewrite readsAs_value.
  destruct (valueOf_trim (firstn n (strconv.d a))) as (t & Hlen & Hv).
  rewrite Hv, roundDecimal_shift by lia.
  replace (strconv.dp10 a - Z.of_nat (length (firstn n (strconv.d a)))
           + Z.of_nat t)
    with (strconv.dp10 a
          - Z.of_nat (length (strconv.trim (firstn n (strconv.d a)))))
    by lia.
  reflexivity.
Qed.

(** [RoundUp] adds one in the last of the first [n] places. *)
Lemma RoundUp_reads (x : strconv.float64) (neg : bool)
    (a : strconv.decimal) (n : nat) :
  let f := firstn n (strconv.d a) in
  strconv.readsAs x neg (strconv.RoundUp a n) = true
  <-> strconv.roundDecimal neg (strconv.valueOf f + 1)
        (strconv.dp10 a - Z.of_nat (length f)) = (x, false).
Proof.
  cbv zeta. unfold strconv.RoundUp.
  set (f := firstn n (strconv.d a)).
  destruct (dropNines_spec (rev f)) as (j & Hr & _).
  assert (Hf : f = rev (strconv.dropNines (rev f)) ++ repeat 9 j).
  { rewrite <- (rev_involutive f) at 1. rewrite Hr at 1.
    rewrite rev_app_distr. f_equal. clear.
    induction j as [|j IH]; [reflexivity|].
    cbn [repeat rev]. rewrite IH. clear.
    induction j; cbn; congruence. }
  clearbody f.
  destruct (strconv.dropNines (rev f)) as [|c r].
  - cbn [rev app] in Hf. subst f. rewrite readsAs_value, valueOf_nines.
    rewrite repeat_length. cbn [length].
    replace (10 ^ Z.of_nat j - 1 + 1) with (1 * 10 ^ Z.of_nat j) by ring.
    rewrite roundDecimal_shift by lia.
    change (strconv.valueOf [1]) with 1.
    replace (strconv.dp10 a + 1 - Z.of_nat 1)
      with (strconv.dp10 a - Z.of_nat j + Z.of_nat j) by lia.
    reflexivity.
  - subst f. rewrite readsAs_value.
    cbn [rev]. rewrite (valueOf_app _ (repeat 9 j)), valueOf_nines.
    rewrite !length_app, repeat_length. rewrite !valueOf_app. cbn [length].
    change (strconv.valueOf [c]) with (0 * 10 + c).
    change (strconv.valueOf [c + 1]) with (0 * 10 + (c + 1)).
    replace ((strconv.valueOf (rev r) * 10 ^ Z.of_nat 1 + (0 * 10 + c))
             * 10 ^ Z.of_nat j + (10 ^ Z.of_nat j - 1) + 1)
      with ((strconv.valueOf (rev r) * 10 ^ Z.of_nat 1 + (0 * 10 + (c + 1)))
            * 10 ^ Z.of_nat j) by ring.
    rewrite roundDecimal_shift by lia.
    replace (strconv.dp10 a - Z.of_nat (length (rev r) + 1 + j)
             + Z.of_nat j)
      with (strconv.dp10 a - Z.of_nat (length (rev r) + 1)) by lia.
    reflexivity.
Qed.

(** The size of a number with [length ds] digits. *)
Lemma valueOf_lt (ds : list Z) :
  Forall is_digit ds -> strconv.valueOf ds < 10 ^ Z.of_nat (length ds).
Proof.
  induction ds as [|x ds IH] using rev_ind; intros H; [cbn; lia|].
  apply Forall_app in H as [H1 H2]. inversion H2; subst.
  rewrite valueOf_app, length_app. cbn [length].
  change (strconv.valueOf [x]) with (0 * 10 + x).
  rewrite Nat2Z.inj_add, Z.pow_add_r by lia.
  change (Z.of_nat 1) with 1. change (10 ^ 1) with 10.
  specialize (IH H1). unfold is_digit in *. lia.
Qed.

Lemma valueOf_ge (ds : list Z) :
  Forall is_digit ds -> ds <> [] -> hd 1 ds <> 0 ->
  10 ^ (Z.of_nat (length ds) - 1) <= strconv.valueOf ds.
Proof.
  intros Hdig Hne Hhd. destruct ds as [|x ds]; [contradiction|].
  change (x :: ds) with ([x] ++ ds). rewrite valueOf_app.
  inversion Hdig as [|? ? Hx Hds]; subst. cbn in Hhd.
  change (strconv.valueOf [x]) with (0 * 10 + x).
  pose proof (valueOf_nonneg ds Hds).
  cbn [length app]. rewrite Nat2Z.inj_succ.
  replace (Z.succ (Z.of_nat (length ds)) - 1) with (Z.of_nat (length ds))
    by lia.
  assert (0 < 10 ^ Z.of_nat (length ds)) by (apply Z.pow_pos_nonneg; lia).
  unfold is_digit in Hx. nia.
Qed.

End Between.

(** ** The fewest digits *)

Section Fewer.
Local Open Scope Z_scope.
Local Open Scope list_scope.

(** A decimal of [j] digits that reads as [x] sits on one side of the
    exact expansion of [x]; the expansion cut at [j] digits, down or up,
    lies between the two, and reads as [x] too. *)
Lemma fewer_digits_cut (neg : bool) (m : positive) (e : Z) (ds : list Z)
    (dp : Z) (j : nat) (M k : Z) :
  let x := S754_finite neg m e in
  Forall is_digit ds -> hd 1 ds <> 0 ->
  strconv.is_float64 x = true ->
  (j < length ds)%nat ->
  strconv.roundDecimal neg (strconv.valueOf ds) (dp - Z.of_nat (length ds))
  = (x, false) ->
  0 <= M < 10 ^ Z.of_nat j ->
  strconv.roundDecimal neg M k = (x, false) ->
  strconv.roundDecimal neg (strconv.valueOf (firstn j ds))
    (dp - Z.of_nat j) = (x, false)
  \/ strconv.roundDecimal neg (strconv.valueOf (firstn j ds) + 1)
       (dp - Z.of_nat j) = (x, false).
Proof.
  intros x Hdig Hhd Hval Hj HA HM HD.
  set (nd := length ds) in *.
  set (f := firstn j ds). set (s := skipn j ds).
  assert (Hds : ds = f ++ s) by (symmetry; apply firstn_skipn).
  assert (Hlf : length f = j) by (unfold f; rewrite length_firstn; lia).
  assert (Hls : length s = (nd - j)%nat)
    by (unfold s; rewrite length_skipn; reflexivity).
  assert (Hdf : Forall is_digit f /\ Forall is_digit s).
  { rewrite Hds in Hdig. now apply Forall_app in Hdig. }
  destruct Hdf as [Hdf Hdsk].
  set (w := Z.of_nat nd - Z.of_nat j).
  assert (Hw : 0 < w) by (unfold w; lia).
  assert (HAT : strconv.valueOf ds
                = strconv.valueOf f * 10 ^ w + strconv.valueOf s).
  { rewrite Hds at 1. rewrite valueOf_app, Hls. do 3 f_equal.
    unfold w. lia. }
  assert (HS : 0 <= strconv.valueOf s < 10 ^ w).
  { split; [now apply valueOf_nonneg|].
    replace w with (Z.of_nat (length s)) by (rewrite Hls; unfold w; lia).
    now apply valueOf_lt. }
  assert (HM1 : 1 <= M).
  { destruct (Z.eq_dec M 0) as [HM0|HM0]; [|lia]. rewrite HM0 in HD.
    rewrite roundDecimal_zero in HD. discriminate. }
  assert (Hj1 : (1 <= j)%nat).
  { destruct j; [|lia]. change (10 ^ Z.of_nat 0) with 1 in HM. lia. }
  assert (HT : 10 ^ (Z.of_nat j - 1) <= strconv.valueOf f).
  { rewrite <- Hlf at 1. apply valueOf_ge; try assumption.
    - intros Hnil. rewrite Hnil in Hlf. cbn in Hlf. lia.
    - unfold f. destruct j; [lia|]. destruct ds; [cbn in Hj; lia|].
      exact Hhd. }
  assert (HAge : 10 ^ (Z.of_nat nd - 1) <= strconv.valueOf ds).
  { apply valueOf_ge; try assumption. intros Hnil. subst nd.
    rewrite Hnil in Hj. cbn in Hj. lia. }
  set (A := strconv.valueOf ds) in *.
  set (T := strconv.valueOf f) in *.
  set (S := strconv.valueOf s) in *.
  set (c := Z.min k (dp - Z.of_nat nd)).
  set (u := dp - Z.of_nat nd - c). set (v := k - c).
  assert (Hu : 0 <= u) by (unfold u, c; lia).
  assert (Hv : 0 <= v) by (unfold v, c; lia).
  assert (Huv : u = 0 \/ v = 0) by (unfold u, v, c; lia).
  assert (EA : strconv.roundDecimal neg (A * 10 ^ u) c = (x, false)).
  { rewrite roundDecimal_shift by lia.
    replace (c + u) with (dp - Z.of_nat nd) by (unfold u; lia). exact HA. }
  assert (EM : strconv.roundDecimal neg (M * 10 ^ v) c = (x, false)).
  { rewrite roundDecimal_shift by lia.
    replace (c + v) with k by (unfold v; lia). exact HD. }
  assert (ET : forall V,
    strconv.roundDecimal neg (V * 10 ^ (w + u)) c
    = strconv.roundDecimal neg V (dp - Z.of_nat j)).
  { intros V. rewrite roundDecimal_shift by lia. f_equal.
    unfold w, u. lia. }
  rewrite <- !ET.
  assert (Hpu : 0 < 10 ^ u) by (apply Z.pow_pos_nonneg; lia).
  assert (Hpv : 0 < 10 ^ v) by (apply Z.pow_pos_nonneg; lia).
  assert (Hpw : 0 < 10 ^ w) by (apply Z.pow_pos_nonneg; lia).
  assert (Hpwu : 10 ^ (w + u) = 10 ^ w * 10 ^ u)
    by (apply Z.pow_add_r; lia).
  assert (HTA : T * 10 ^ (w + u) <= A * 10 ^ u).
  { rewrite Hpwu, Z.mul_assoc. apply Z.mul_le_mono_nonneg_r; lia. }
  assert (HT0 : 0 < T).
  { eapply Z.lt_le_trans; [|exact HT]. apply Z.pow_pos_nonneg; lia. }
  destruct (Z.le_gt_cases (w + u) v) as [Hbig|Hsmall].
  - (* the decimal is a multiple of the last place kept *)
    assert (Hu0 : u = 0) by lia.
    assert (Hp1 : 10 ^ u = 1) by (rewrite Hu0; reflexivity).
    assert (Hpw' : 10 ^ (w + u) = 10 ^ w) by (rewrite Hpwu, Hp1; lia).
    set (M2 := M * 10 ^ (v - w)).
    assert (HM2 : M * 10 ^ v = M2 * 10 ^ w).
    { unfold M2. rewrite <- Z.mul_assoc, <- Z.pow_add_r by lia.
      do 2 f_equal. lia. }
    assert (HM2pos : 0 <= M2).
    { unfold M2. apply Z.mul_nonneg_nonneg; [lia|].
      apply Z.pow_nonneg. lia. }
    destruct (Z.le_gt_cases M2 T) as [Hle|Hgt].
    + left.
      apply roundDecimal_between with (V1 := M * 10 ^ v) (V3 := A * 10 ^ u);
        try assumption.
      * rewrite HM2, Hpw'. split; [nia|].
        apply Z.mul_le_mono_nonneg_r; lia.
    + right.
      apply roundDecimal_between with (V1 := A * 10 ^ u) (V3 := M * 10 ^ v);
        try assumption.
      * rewrite Hp1, Hpw'. nia.
      * rewrite HM2, Hpw'. apply Z.mul_le_mono_nonneg_r; lia.
  - (* the decimal is below the first digit of the expansion *)
    left.
    apply roundDecimal_between with (V1 := M * 10 ^ v) (V3 := A * 10 ^ u);
      try assumption.
    split; [nia|].
    apply Z.le_trans with (10 ^ Z.of_nat j * 10 ^ v).
    + apply Z.mul_le_mono_nonneg_r; lia.
    + rewrite <- Z.pow_add_r by lia.
      apply Z.le_trans with (10 ^ (Z.of_nat j - 1) * 10 ^ (w + u)).
      * rewrite <- Z.pow_add_r by lia. apply Z.pow_le_mono_r; lia.
      * apply Z.mul_le_mono_nonneg_r; [|lia].
        apply Z.pow_nonneg. lia.
Qed.

Lemma length_trim (ds : list Z) :
  (length (strconv.trim ds) <= length ds)%nat.
Proof. destruct (valueOf_trim ds) as (t & Hlen & _). lia. Qed.

Lemma length_RoundDown (a : strconv.decimal) (n : nat) :
  (length (strconv.d (strconv.RoundDown a n)) <= n)%nat.
Proof.
  cbn [strconv.RoundDown strconv.d].
  pose proof (length_trim (firstn n (strconv.d a))) as H.
  rewrite length_firstn in H. lia.
Qed.

Lemma length_RoundUp (a : strconv.decimal) (n : nat) :
  (length (strconv.d (strconv.RoundUp a n)) <= Nat.max n 1)%nat.
Proof.
  unfold strconv.RoundUp.
  destruct (dropNines_spec (rev (firstn n (strconv.d a)))) as (j & Hr & _).
  apply (f_equal (@length Z)) in Hr.
  rewrite length_rev, length_firstn, length_app in Hr.
  destruct (strconv.dropNines _) as [|c r]; cbn [strconv.d].
  - cbn. lia.
  - cbn [rev] in *. rewrite length_app in *. cbn [length] in *.
    rewrite length_rev. lia.
Qed.

(** The walk of [roundShortest] stops at the first number of digits at
    which the expansion, cut down or up, reads as [x]. *)
Lemma shortestLoop_first (x : strconv.float64) (neg : bool)
    (a : strconv.decimal) (fuel : nat) :
  forall n,
  (forall j, (j < n)%nat ->
     strconv.readsAs x neg (strconv.RoundDown a j) = false
     /\ strconv.readsAs x neg (strconv.RoundUp a j) = false) ->
  (n + fuel = S (length (strconv.d a)))%nat ->
  forall j,
  (j < length (strconv.d (strconv.shortestLoop x neg a fuel n)))%nat ->
  j = O
  \/ (strconv.readsAs x neg (strconv.RoundDown a j) = false
      /\ strconv.readsAs x neg (strconv.RoundUp a j) = false).
Proof.
  induction fuel as [|fuel IH]; intros n Hfail Hfuel j Hj.
  - cbn [strconv.shortestLoop] in Hj. right. apply Hfail. lia.
  - cbn [strconv.shortestLoop] in Hj.
    pose proof (length_RoundDown a n) as Ld.
    pose proof (length_RoundUp a n) as Lu.
    assert (Hdone : (j < Nat.max n 1)%nat ->
      j = O
      \/ (strconv.readsAs x neg (strconv.RoundDown a j) = false
          /\ strconv.readsAs x neg (strconv.RoundUp a j) = false)).
    { intros Hlt. destruct j; [now left|]. right. apply Hfail. lia. }
    destruct (strconv.readsAs x neg (strconv.RoundDown a n)) eqn:Hd;
    destruct (strconv.readsAs x neg (strconv.RoundUp a n)) eqn:Hu;
      cbn [andb] in Hj.
    + apply Hdone. unfold strconv.Round in Hj.
      destruct (Nat.leb_spec (length (strconv.d a)) n); [lia|].
      destruct (strconv.shouldRoundUp a n); lia.
    + apply Hdone. lia.
    + apply Hdone. lia.
    + apply (IH (S n)); [|lia|exact Hj].
      intros i Hi. destruct (Nat.eq_dec i n) as [->|Hne]; [now split|].
      apply Hfail. lia.
Qed.

(** No decimal of fewer digits than [roundShortest] keeps reads as [x]:
    the digits kept are the fewest. *)
Lemma roundShortest_fewest (neg : bool) (m : positive) (e : Z) :
  let x := S754_finite neg m e in
  strconv.is_float64 x = true ->
  forall (j : nat) (neg' : bool) (M k : Z),
  (j < length (strconv.d
                 (strconv.roundShortest x neg (strconv.exactDecimal m e))))%nat ->
  0 <= M < 10 ^ Z.of_nat j ->
  strconv.roundDecimal neg' M k <> (x, false).
Proof.
  intros x Hval j neg' M k Hj HM HD.
  assert (Hs : neg = neg').
  { apply (roundDecimal_sign neg' neg M k m e). now rewrite HD. }
  subst neg'.
  destruct (exactDecimal_reads neg m e Hval) as (Hwf & Hne & Hread).
  unfold strconv.roundShortest in Hj.
  apply (shortestLoop_first x neg) in Hj; [|intros i Hi; lia|lia].
  destruct (strconv.exactDecimal m e) as [ds dp].
  cbn [strconv.d] in *. destruct Hwf as (Hdig & Hhd & _).
  apply readsAs_value in Hread.
  destruct Hj as [->|[Hd Hu]].
  - change (10 ^ Z.of_nat 0) with 1 in HM.
    replace M with 0 in HD by lia. rewrite roundDecimal_zero in HD.
    discriminate.
  - assert (Hlt : (j < length ds)%nat).
    { destruct (Nat.lt_ge_cases j (length ds)) as [H|H]; [exact H|].
      exfalso. pose proof (RoundDown_reads x neg (strconv.mkDecimal ds dp) j)
        as Hrd. cbv zeta in Hrd. cbn [strconv.d strconv.dp10] in Hrd.
      rewrite firstn_all2 in Hrd by lia. apply Hrd in Hread. congruence. }
    pose proof (RoundDown_reads x neg (strconv.mkDecimal ds dp) j) as Hrd.
    pose proof (RoundUp_reads x neg (strconv.mkDecimal ds dp) j) as Hru.
    cbv zeta in Hrd, Hru. cbn [strconv.d strconv.dp10] in Hrd, Hru.
    rewrite length_firstn in Hrd, Hru.
    replace (Nat.min j (length ds)) with j in Hrd, Hru by lia.
    destruct (fewer_digits_cut neg m e ds dp j M k Hdig Hhd Hval Hlt Hread
                HM HD) as [H|H].
    + apply Hrd in H. congruence.
    + apply Hru in H. congruence.
Qed.

End Fewer.

(** ** The text of a number *)

Section Shape.
Local Open Scope Z_scope.
Local Open Scope list_scope.

Lemma digitChar_digit (x : Z) :
  is_digit x ->
  strconv.isDigit (byteZ (strconv.digitChar x)) = true
  /\ byteZ (strconv.digitChar x) - 0x30 = x
  /\ (byteZ (strconv.digitChar x) =? 0x2E) = false
  /\ (byteZ (strconv.digitChar x) =? 0x2D) = false.
Proof.
  intros Hx. rewrite byteZ_digitChar by assumption.
  unfold is_digit in Hx. unfold strconv.isDigit.
  repeat split; lia.
Qed.

Lemma integer_digits_digits (l : list Z) (rest : string) :
  Forall is_digit l ->
  integer_digits (strconv.digitString l ++ rest) = integer_digits rest.
Proof.
  induction 1 as [|x l Hx _ IH]; [reflexivity|].
  cbn [strconv.digitString append integer_digits].
  destruct (digitChar_digit x Hx) as (Hd & _ & Hp & _).
  now rewrite Hp, Hd, IH.
Qed.

Lemma fraction_digits_digits (l : list Z) :
  Forall is_digit l -> l <> [] -> last l 1 <> 0 ->
  fraction_digits (strconv.digitString l) = true.
Proof.
  induction 1 as [|x l Hx Hl IH]; [contradiction|]. intros _ Hlast.
  cbn [strconv.digitString fraction_digits].
  destruct (digitChar_digit x Hx) as (Hd & Hv & _). rewrite Hd.
  destruct l as [|y l'].
  - cbn [strconv.digitString andb]. cbn in Hlast.
    apply negb_true_iff, Z.eqb_neq. lia.
  - cbn [strconv.digitString andb].
    change (String (strconv.digitChar y) (strconv.digitString l'))
      with (strconv.digitString (y :: l')).
    apply IH; [discriminate|exact Hlast].
Qed.

Lemma digitsIn_digits (l : list Z) (rest : string) :
  Forall is_digit l ->
  digitsIn (strconv.digitString l ++ rest) = l ++ digitsIn rest.
Proof.
  induction 1 as [|x l Hx _ IH]; [reflexivity|].
  cbn [strconv.digitString append digitsIn].
  destruct (digitChar_digit x Hx) as (Hd & Hv & _).
  now rewrite Hd, Hv, IH.
Qed.

Lemma last_app_ne (a b : list Z) (x : Z) :
  b <> [] -> last (a ++ b) x = last b x.
Proof.
  destruct b as [|y b] using rev_ind; [contradiction|]. intros _.
  now rewrite app_assoc, !last_last.
Qed.

Lemma Forall_zeros (t : nat) : Forall is_digit (repeat 0 t).
Proof.
  induction t; cbn; constructor; [unfold is_digit; lia|assumption].
Qed.

Lemma dropZeros_zeros (t : nat) (l : list Z) :
  strconv.dropZeros (repeat 0 t ++ l) = strconv.dropZeros l.
Proof. induction t; cbn; congruence. Qed.

Lemma dropZeros_keep (l : list Z) :
  hd 1 l <> 0 -> strconv.dropZeros l = l.
Proof.
  destruct l as [|x l]; [reflexivity|]. cbn [hd]. intros Hx.
  destruct x; [contradiction|reflexivity|reflexivity].
Qed.

Lemma trim_zeros (l : list Z) (t : nat) :
  last l 1 <> 0 -> strconv.trim (l ++ repeat 0 t) = l.
Proof.
  intros Hlast. unfold strconv.trim.
  rewrite rev_app_distr.
  replace (rev (repeat 0 t)) with (repeat 0 t).
  - rewrite dropZeros_zeros, dropZeros_keep; [apply rev_involutive|].
    now rewrite hd_rev_last.
  - clear. induction t as [|t IH]; [reflexivity|].
    cbn [repeat rev]. rewrite <- IH. apply repeat_cons.
Qed.

(** What [fmtF] writes for the digits of a decimal is plain decimal
    form, and its significant digits are those digits. *)
Lemma printed_shape (neg : bool) (ds : list Z) (dp : Z) :
  wf_digits ds -> ds <> [] ->
  let s := ((if neg then "-" else "") ++ printed ds dp)%string in
  plain_decimal s = true /\ significant_digits s = length ds.
Proof.
  intros (Hdig & Hhd & Hlast) Hne. cbv zeta.
  assert (Hbody : exists c r,
    printed ds dp = String c r
    /\ strconv.isDigit (byteZ c) = true
    /\ integer_digits r = true
    /\ strconv.trim (strconv.dropZeros (digitsIn (String c r))) = ds).
  { unfold printed. rewrite <- !digitString_zeros.
    destruct (Z.leb_spec (Z.of_nat (length ds)) dp) as [Hint|Hfrac].
    - (* digits and zeros *)
      destruct ds as [|x ds']; [contradiction|].
      inversion Hdig as [|? ? Hx Hds']; subst.
      destruct (digitChar_digit x Hx) as (Hd & Hv & _).
      set (t := Z.to_nat (dp - Z.of_nat (length (x :: ds')))).
      exists (strconv.digitChar x),
        (strconv.digitString ds' ++ strconv.digitString (repeat 0 t))%string.
      split; [reflexivity|]. split; [exact Hd|]. split.
      + rewrite integer_digits_digits by assumption.
        rewrite <- (append_nil_r (strconv.digitString _)).
        now rewrite integer_digits_digits by apply Forall_zeros.
      + rewrite <- digitString_app.
        change (String (strconv.digitChar x)
                  (strconv.digitString (ds' ++ repeat 0 t)))
          with (strconv.digitString ((x :: ds') ++ repeat 0 t)).
        rewrite <- (append_nil_r (strconv.digitString _)).
        rewrite digitsIn_digits.
        * cbn [digitsIn]. rewrite app_nil_r.
          rewrite dropZeros_keep by exact Hhd.
          now apply trim_zeros.
        * apply Forall_app. split; [assumption|apply Forall_zeros].
    - destruct (Z.ltb_spec 0 dp) as [Hpos|Hneg].
      + (* the point among the digits *)
        set (k := Z.to_nat dp).
        assert (Hk : (0 < k < length ds)%nat) by (unfold k; lia).
        assert (Hsplit : ds = firstn k ds ++ skipn k ds)
          by (symmetry; apply firstn_skipn).
        assert (Hparts : Forall is_digit (firstn k ds)
                         /\ Forall is_digit (skipn k ds)).
        { rewrite Hsplit in Hdig. now apply Forall_app in Hdig. }
        destruct Hparts as [Hf Hs].
        assert (Hsne : skipn k ds <> []).
        { intros Hnil. apply (f_equal (@length Z)) in Hnil.
          rewrite length_skipn in Hnil. cbn in Hnil. lia. }
        assert (Hslast : last (skipn k ds) 1 <> 0).
        { rewrite Hsplit in Hlast. rewrite last_app_ne in Hlast by assumption.
          exact Hlast. }
        destruct (firstn k ds) as [|x f'] eqn:Ef.
        { apply (f_equal (@length Z)) in Ef. rewrite length_firstn in Ef.
          cbn in Ef. lia. }
        inversion Hf as [|? ? Hx Hf']; subst.
        destruct (digitChar_digit x Hx) as (Hd & Hv & _).
        exists (strconv.digitChar x),
          (strconv.digitString f'
           ++ String "." (strconv.digitString (skipn k ds)))%string.
        split; [reflexivity|]. split; [exact Hd|]. split.
        * rewrite integer_digits_digits by assumption.
          cbn [integer_digits]. change (byteZ "." =? 0x2E) with true.
          cbv iota. now apply fraction_digits_digits.
        * change (String (strconv.digitChar x)
                    (strconv.digitString f'
                     ++ String "." (strconv.digitString (skipn k ds)))%string)
            with (strconv.digitString (x :: f')
                  ++ String "." (strconv.digitString (skipn k ds)))%string.
          rewrite digitsIn_digits by assumption.
          cbn [digitsIn]. change (strconv.isDigit (byteZ ".")) with false.
          cbv iota.
          rewrite <- (append_nil_r (strconv.digitString (skipn k ds))).
          rewrite digitsIn_digits by assumption.
          cbn [digitsIn]. rewrite app_nil_r, <- Hsplit.
          rewrite dropZeros_keep by exact Hhd.
          rewrite <- (app_nil_r ds) at 1.
          now apply (trim_zeros ds 0).
      + (* zero, the point, zeros and the digits *)
        rewrite <- digitString_app.
        exists "0"%char,
          (String "." (strconv.digitString
                         (repeat 0 (Z.to_nat (- dp)) ++ ds))).
        split; [reflexivity|]. split; [reflexivity|].
        assert (Hall : Forall is_digit (repeat 0 (Z.to_nat (- dp)) ++ ds)).
        { apply Forall_app. split; [apply Forall_zeros|assumption]. }
        split.
        * cbn [integer_digits]. change (byteZ "." =? 0x2E) with true.
          cbv iota. apply fraction_digits_digits; try assumption.
          -- intros Hnil. apply app_eq_nil in Hnil as [_ Hnil].
             contradiction.
          -- now rewrite last_app_ne by assumption.
        * cbn [digitsIn]. change (strconv.isDigit (byteZ "0")) with true.
          change (strconv.isDigit (byteZ ".")) with false. cbv iota.
          change (byteZ "0" - 0x30) with 0.
          rewrite <- (append_nil_r (strconv.digitString _)).
          rewrite digitsIn_digits by assumption.
          cbn [digitsIn]. rewrite app_nil_r.
          change (0 :: repeat 0 (Z.to_nat (- dp)) ++ ds)
            with (repeat 0 (S (Z.to_nat (- dp))) ++ ds).
          rewrite dropZeros_zeros, dropZeros_keep by exact Hhd.
          rewrite <- (app_nil_r ds) at 1.
          now apply (trim_zeros ds 0). }
  destruct Hbody as (c & r & Hp & Hc & Hr & Hsig). rewrite Hp.
  unfold significant_digits. destruct neg; cbn [append].
  - split.
    + cbn [plain_decimal]. change (byteZ "-" =? 0x2D) with true. cbv iota.
      cbn [unsigned_decimal]. now rewrite Hc, Hr.
    + cbn [digitsIn]. change (strconv.isDigit (byteZ "-")) with false.
      cbv iota. cbn [digitsIn] in Hsig. now rewrite Hsig.
  - split.
    + cbn [plain_decimal unsigned_decimal].
      assert (Hm : (byteZ c =? 0x2D) = false).
      { unfold strconv.isDigit in Hc. apply andb_true_iff in Hc as [H1 H2].
        apply Z.leb_le in H1, H2. apply Z.eqb_neq. lia. }
      now rewrite Hm, Hc, Hr.
    + now rewrite Hsig.
Qed.

End Shape.

Section NumberValue.
Local Open Scope Z_scope.

(** The text of a finite [float64]: the sign and the digits that
    [roundShortest] keeps. *)
Lemma FormatFloat_digits (s : bool) (m : positive) (e : Z) :
  let x := S754_finite s m e in
  strconv.is_float64 x = true ->
  let b := strconv.roundShortest x s (strconv.exactDecimal m e) in
  wf_digits (strconv.d b) /\ strconv.d b <> nil
  /\ strconv.FormatFloat x
     = (if s then "-" else "") ++ printed (strconv.d b) (strconv.dp10 b).
Proof.
  intros x Hval b.
  destruct (exactDecimal_reads s m e Hval) as (Hwf & Hne & Hread).
  pose proof (shortestLoop_reads s s m e (strconv.exactDecimal m e)
                (S (length (strconv.d (strconv.exactDecimal m e)))) 0
                Hwf Hne Hread) as Hb.
  cbv zeta in Hb. destruct Hb as (Hwf' & Hne' & _).
  split; [exact Hwf'|]. split; [exact Hne'|].
  unfold x. cbn [strconv.FormatFloat]. fold x. fold b.
  pose proof (fmtF_printed s (strconv.d b) (strconv.dp10 b) Hne') as Hfmt.
  cbv zeta in Hfmt. destruct b as [ds dp]. exact Hfmt.
Qed.

(** Without overflow [roundRatio] returns a number. *)
Lemma roundRatio_number (neg : bool) (p q : Z) :
  snd (strconv.roundRatio neg p q) = false ->
  match fst (strconv.roundRatio neg p q) with
  | S754_zero _ | S754_finite _ _ _ => True
  | _ => False
  end.
Proof.
  unfold strconv.roundRatio. cbv zeta.
  repeat match goal with
  | |- context [if ?c then _ else _] => destruct c
  end; cbn [fst snd]; intros H; try exact I; discriminate H.
Qed.

Lemma number_byte_lower (b : ascii) :
  json.isNumberByte (byteZ b) = true -> lower_byte b <> "i"%char.
Proof.
  destruct b as [[] [] [] [] [] [] [] []]; vm_compute; intros H;
    try discriminate H; intros E; discriminate E.
Qed.

(** A text of digits, signs, points and exponent marks is none of the
    names of the infinities and of NaN. *)
Lemma special_numberPrefix (item : string) :
  strconv.special (json.numberPrefix item) = None.
Proof.
  destruct item as [|a r]; [reflexivity|]. cbn [json.numberPrefix].
  destruct (json.isNumberByte (byteZ a)) eqn:Ha; [|reflexivity].
  assert (Hne : forall u t,
    strconv.equalIgnoreCase (String a (json.numberPrefix r))
      (String u (String "i" t)) = false).
  { intros u t. unfold strconv.equalIgnoreCase. apply String.eqb_neq.
    cbn [to_lower]. intros H. injection H as _ H.
    destruct r as [|b r']; cbn [json.numberPrefix to_lower] in H;
      [discriminate|].
    destruct (json.isNumberByte (byteZ b)) eqn:Hb;
      cbn [to_lower] in H; [|discriminate].
    injection H as H _. change (lower_byte "i") with "i"%char in H.
    now apply (number_byte_lower b). }
  unfold strconv.special.
  destruct (byteZ a =? 0x2B); [now rewrite !Hne|].
  destruct (byteZ a =? 0x2D); [now rewrite !Hne|].
  assert (Hletters : (byteZ a =? 0x6E) || (byteZ a =? 0x4E) = false
                     /\ (byteZ a =? 0x69) || (byteZ a =? 0x49) = false).
  { unfold json.isNumberByte, json.is09 in Ha. lia. }
  destruct Hletters as [-> ->]. reflexivity.
Qed.

End NumberValue.

(** ** The numeric decoder *)

Lemma FlexInt_on_error (f : FlexInt.t) (b : list byte) (e : error) :
  snd (json.Unmarshal b) = Some e ->
  FlexInt.UnmarshalJSON f b = (f, Some e).
Proof.
  unfold FlexInt.UnmarshalJSON. destruct (json.Unmarshal b) as [unk err].
  cbn [snd]. now intros ->.
Qed.

Lemma FlexInt_on_value (f : FlexInt.t) (b : list byte) (unk : json.value) :
  json.Unmarshal b = (unk, None) ->
  FlexInt.UnmarshalJSON f b =
  match unk with
  | json.Float64 i => (FlexInt.mk i (strconv.FormatFloat i), None)
  | json.Str i => (FlexInt.mk (fst (strconv.ParseFloat i)) i, None)
  | json.Nil => (FlexInt.mk (S754_zero false) "0", None)
  | _ => (f, Some (Wrapf errCannotUnmarshalFlexInt b))
  end.
Proof.
  unfold FlexInt.UnmarshalJSON. intros ->. destruct unk; reflexivity.
Qed.

(** What [json.Unmarshal] does for each kind of value. *)
Lemma Unmarshal_kind (b : list byte) (k : jsonKind) :
  kindOf b = Some k ->
  let data := string_of_list_byte b in
  match k with
  | KObject =>
      json.Unmarshal b =
      (json.Map, json.savedError (json.numberLiterals json.reset None data))
  | KArray =>
      json.Unmarshal b =
      (json.Slice, json.savedError (json.numberLiterals json.reset None data))
  | KBoolean => exists v, json.Unmarshal b = (json.Bool v, None)
  | KNull => json.Unmarshal b = (json.Nil, None)
  | KString => (exists s, json.Unmarshal b = (json.Str s, None))
               \/ json.Unmarshal b = (json.Nil, None)
  | KNumber =>
      json.Unmarshal b =
      match json.convertNumber (json.numberPrefix (json.skipSpace data)) with
      | (n, None) => (json.Float64 n, None)
      | (_, Some e) => (json.Nil, Some e)
      end
  end.
Proof.
  unfold kindOf, json.Unmarshal, json.unmarshal. cbv zeta.
  destruct (json.checkValid (string_of_list_byte b)); [discriminate|].
  destruct (json.skipSpace (string_of_list_byte b)) as [|a body];
    [discriminate|].
  intros H. injection H as <-.
  destruct (byteZ a =? 0x7B)%Z; [reflexivity|].
  destruct (byteZ a =? 0x5B)%Z; [reflexivity|].
  destruct (byteZ a =? 0x22)%Z eqn:Hq.
  - destruct (byteZ a =? 0x6E)%Z eqn:Hn.
    { apply Z.eqb_eq in Hq, Hn. congruence. }
    destruct (byteZ a =? 0x74)%Z eqn:Ht.
    { apply Z.eqb_eq in Hq, Ht. congruence. }
    destruct (byteZ a =? 0x66)%Z eqn:Hf.
    { apply Z.eqb_eq in Hq, Hf. congruence. }
    destruct (json.unquote body); [left; eauto|now right].
  - destruct (byteZ a =? 0x6E)%Z; [reflexivity|].
    destruct (byteZ a =? 0x74)%Z; [cbn; eauto|].
    destruct (byteZ a =? 0x66)%Z; [cbn; eauto|]. cbn [orb].
    reflexivity.
Qed.

Lemma savedError_spec (lits : list string) :
  json.savedError lits <> None
  <-> exists lit, In lit lits /\ snd (strconv.ParseFloat lit) <> None.
Proof.
  induction lits as [|lit r IH]; cbn [json.savedError In].
  - split; [congruence|]. now intros (? & [] & _).
  - unfold json.convertNumber at 1.
    destruct (strconv.ParseFloat lit) as [v [e|]] eqn:Hp; cbn [snd].
    + split; [|discriminate]. intros _. exists lit. rewrite Hp.
      split; [now left|discriminate].
    + rewrite IH. split.
      * intros (l & Hin & Hl). exists l. split; [now right|assumption].
      * intros (l & [<-|Hin] & Hl).
        -- rewrite Hp in Hl. now contradiction Hl.
        -- now exists l.
Qed.

(** [C9] An error returned by the numeric decoder leaves the receiver as
    it was: [Val] and [Txt] keep the values they had before the call.  The
    inputs at stake do return an error: bytes that are not valid JSON, and
    a JSON object, array or boolean. *)
Theorem FlexInt_error_keeps_receiver (f : FlexInt.t) (b : list byte) :
  (snd (FlexInt.UnmarshalJSON f b) <> None ->
   fst (FlexInt.UnmarshalJSON f b) = f) /\
  (kindOf b = None -> snd (FlexInt.UnmarshalJSON f b) <> None) /\
  (kindOf b = Some KObject \/ kindOf b = Some KArray
   \/ kindOf b = Some KBoolean ->
   snd (FlexInt.UnmarshalJSON f b) <> None).
Proof.
  split; [|split].
  - unfold FlexInt.UnmarshalJSON.
    destruct (json.Unmarshal b) as [unk [e|]]; [reflexivity|].
    destruct unk; cbn [fst snd]; try reflexivity; congruence.
  - unfold kindOf. intros Hk.
    destruct (json.checkValid (string_of_list_byte b)) as [e|] eqn:Hv.
    + rewrite (FlexInt_on_error f b e); [discriminate|].
      unfold json.Unmarshal. now rewrite Hv.
    + exfalso.
      destruct (json.skipSpace (string_of_list_byte b)) eqn:Hs;
        [|discriminate].
      clear Hk. revert Hv Hs.
      unfold json.checkValid.
      assert (Hsp : forall s, json.skipSpace s = "" ->
                json.scanAll json.reset s = Some json.reset).
      { induction s as [|a s IH]; [reflexivity|]. cbn [json.skipSpace].
        destruct (json.isSpace (byteZ a)) eqn:Ha; [|discriminate].
        intros Hs. cbn [json.scanAll]. unfold json.stepScanner.
        cbn [json.step json.reset]. unfold json.doBeginValue.
        rewrite Ha. now apply IH. }
      intros Hv Hs. rewrite (Hsp _ Hs) in Hv. discriminate.
  - intros Hk.
    assert (Hcases : exists k, kindOf b = Some k
                     /\ (k = KObject \/ k = KArray \/ k = KBoolean)).
    { destruct Hk as [Hk|[Hk|Hk]]; eauto 6. }
    destruct Hcases as (k & Hkind & Hk').
    pose proof (Unmarshal_kind b k Hkind) as Hu.
    unfold FlexInt.UnmarshalJSON.
    destruct (json.Unmarshal b) as [unk [e|]]; [discriminate|].
    destruct Hk' as [-> | [-> | ->]]; cbv zeta in Hu.
    + injection Hu as -> _. discriminate.
    + injection Hu as -> _. discriminate.
    + destruct Hu as [v Hv]. injection Hv as ->. discriminate.
Qed.

Lemma FlexInt_error_keeps_receiver_witness :
  fst (FlexInt.UnmarshalJSON used_flexint (bytes "[1, 2]")) = used_flexint /\
  fst (FlexInt.UnmarshalJSON used_flexint (bytes "{1}")) = used_flexint.
Proof.
  split.
  - apply (FlexInt_error_keeps_receiver used_flexint (bytes "[1, 2]")).
    vm_compute. discriminate.
  - apply (FlexInt_error_keeps_receiver used_flexint (bytes "{1}")).
    vm_compute. discriminate.
Defined.

Ltac kinds_done :=
  repeat split; try discriminate; try tauto; try (intuition congruence);
  try (intros [[? _]|[[?|?] _]]; discriminate).

(** [C5] amended: for every valid JSON value, [null] succeeds with [Txt]
    ["0"] and [Val] zero, and the call returns an error exactly when
    [json.Unmarshal] returns one or the value is an object, an array or a
    boolean.  On a valid value [json.Unmarshal] returns an error exactly
    when [strconv.ParseFloat] rejects a number of it: the number itself, or
    a number inside an array or an object.  For an object, an array or a
    boolean that [json.Unmarshal] accepted, the error wraps
    [errCannotUnmarshalFlexInt] with the raw bytes as its message, written
    as the list of their values in decimal. *)
Theorem FlexInt_error_kinds (f : FlexInt.t) (b : list byte) (k : jsonKind) :
  kindOf b = Some k ->
  (k = KNull ->
   FlexInt.UnmarshalJSON f b = (FlexInt.mk zero64 "0", None)) /\
  (snd (FlexInt.UnmarshalJSON f b) <> None
   <-> snd (json.Unmarshal b) <> None
       \/ k = KObject \/ k = KArray \/ k = KBoolean) /\
  (snd (json.Unmarshal b) <> None
   <-> (k = KNumber
        /\ snd (strconv.ParseFloat
                  (json.numberPrefix
                     (json.skipSpace (string_of_list_byte b)))) <> None)
       \/ ((k = KObject \/ k = KArray)
           /\ exists lit,
                In lit (json.numberLiterals json.reset None
                          (string_of_list_byte b))
                /\ snd (strconv.ParseFloat lit) <> None)) /\
  (snd (json.Unmarshal b) = None ->
   k = KObject \/ k = KArray \/ k = KBoolean ->
   snd (FlexInt.UnmarshalJSON f b)
   = Some (withMessage (errorString "cannot unmarshal to FlexInt")
             (fmtBytes b))).
Proof.
  intros Hkind. pose proof (Unmarshal_kind b k Hkind) as Hu.
  cbv zeta in Hu. unfold FlexInt.UnmarshalJSON, json.convertNumber in *.
  destruct k.
  - (* object *)
    rewrite Hu. cbn [snd]. rewrite savedError_spec.
    destruct (json.savedError _) as [e|]; cbn [snd]; kinds_done.
  - (* array *)
    rewrite Hu. cbn [snd]. rewrite savedError_spec.
    destruct (json.savedError _) as [e|]; cbn [snd]; kinds_done.
  - (* string *)
    destruct Hu as [[s ->]| ->]; cbn [snd]; kinds_done.
  - (* number *)
    rewrite Hu.
    destruct (strconv.ParseFloat _) as [n [e|]]; cbn [snd]; kinds_done.
  - (* boolean *)
    destruct Hu as [v ->]. cbn [snd]. kinds_done.
  - (* null *)
    rewrite Hu. cbn [snd]. kinds_done.
Qed.

Lemma FlexInt_error_kinds_witness :
  FlexInt.UnmarshalJSON used_flexint (bytes " null ")
  = (FlexInt.mk zero64 "0", None).
Proof.
  apply (FlexInt_error_kinds used_flexint (bytes " null ") KNull);
    reflexivity.
Defined.

(** [C5] as stated fails on the JSON number [1e999]: it is a valid JSON
    value of the number kind, and the call returns the error of
    [json.Unmarshal], which cannot hold it in a [float64].  Inside an
    array the same number makes the call return that error and not the
    one that carries the raw bytes. *)
Lemma FlexInt_number_out_of_range :
  kindOf (bytes "1e999") = Some KNumber /\
  FlexInt.UnmarshalJSON used_flexint (bytes "1e999")
  = (used_flexint, Some (UnmarshalTypeError "number 1e999")) /\
  kindOf (bytes "[1e999]") = Some KArray /\
  FlexInt.UnmarshalJSON used_flexint (bytes "[1e999]")
  = (used_flexint, Some (UnmarshalTypeError "number 1e999")).
Proof. split; [|split; [|split]]; vm_compute; reflexivity. Qed.

(** ** [strconv.ParseFloat]: what comes with an error *)

Lemma roundRatio_overflow (neg : bool) (p q : Z) :
  snd (strconv.roundRatio neg p q) = true ->
  fst (strconv.roundRatio neg p q) = S754_infinity neg.
Proof.
  unfold strconv.roundRatio. cbv zeta.
  repeat match goal with
  | |- context [if ?c then _ else _] => destruct c
  end; cbn [fst snd]; congruence.
Qed.

Lemma roundNumber_overflow (hex neg : bool) (m e : Z) :
  let r := if hex then strconv.roundBinary neg m e
           else strconv.roundDecimal neg m e in
  snd r = true -> fst r = S754_infinity neg.
Proof.
  cbv zeta. unfold strconv.roundBinary, strconv.roundDecimal.
  destruct hex; destruct (0 <=? e)%Z; apply roundRatio_overflow.
Qed.

(** An error of [ParseFloat] is a syntax error, with the value zero, or a
    range error, with an infinity as the value. *)
Lemma ParseFloat_error (s : string) (e : error) :
  snd (strconv.ParseFloat s) = Some e ->
  (e = strconv.syntaxError strconv.fnParseFloat s
   /\ fst (strconv.ParseFloat s) = S754_zero false)
  \/ (e = strconv.rangeError strconv.fnParseFloat s
      /\ exists neg, fst (strconv.ParseFloat s) = S754_infinity neg).
Proof.
  unfold strconv.ParseFloat.
  destruct (strconv.special s); [discriminate|].
  destruct (strconv.readFloat s) as [[[[m x] neg] hex]|].
  - pose proof (roundNumber_overflow hex neg m x) as Hov. cbv zeta in Hov.
    destruct (if hex then _ else _) as [v ovf]. cbn [fst snd] in *.
    destruct ovf; [|discriminate].
    intros H. injection H as <-. right. split; [reflexivity|].
    exists neg. now apply Hov.
  - cbn [fst snd]. intros H. injection H as <-. now left.
Qed.

(** [C3] amended: for every JSON string value [s] the stored [Txt] is [s]
    and the stored [Val] is what [strconv.ParseFloat] returns for [s], and
    the call returns no error.  When the parse fails on the syntax of [s],
    [Val] is zero; when it fails because [s] is out of range, [Val] is an
    infinity. *)
Theorem FlexInt_string_value (f : FlexInt.t) (b : list byte) (s : string) :
  is_json_string b s ->
  FlexInt.UnmarshalJSON f b = (FlexInt.mk (best_effort_parse s) s, None) /\
  (forall e, snd (strconv.ParseFloat s) = Some e ->
     (e = strconv.syntaxError "ParseFloat" s
      /\ best_effort_parse s = zero64)
     \/ (e = strconv.rangeError "ParseFloat" s
         /\ exists neg, best_effort_parse s = S754_infinity neg)).
Proof.
  unfold is_json_string. intros Hb. split.
  - now rewrite (FlexInt_on_value f b _ Hb).
  - apply ParseFloat_error.
Qed.

(** The JSON strings ["42"] and ["abc"]. *)
Lemma FlexInt_string_value_witness :
  FlexInt.UnmarshalJSON used_flexint (quoted "42")
  = (FlexInt.mk (S754_finite false 5910974510923776 (-47)) "42", None) /\
  FlexInt.UnmarshalJSON used_flexint (quoted "abc")
  = (FlexInt.mk zero64 "abc", None).
Proof.
  split.
  - apply (FlexInt_string_value used_flexint (quoted "42") "42").
    reflexivity.
  - apply (FlexInt_string_value used_flexint (quoted "abc") "abc").
    reflexivity.
Defined.

(** [C3] as stated fails on the JSON string ["1e999"]: the parse fails,
    with a range error, the error is swallowed, and the stored [Val] is
    [+Inf], not zero. *)
Lemma FlexInt_string_out_of_range :
  is_json_string (quoted "1e999") "1e999" /\
  strconv.ParseFloat "1e999"
  = (S754_infinity false, Some (strconv.rangeError "ParseFloat" "1e999")) /\
  FlexInt.UnmarshalJSON used_flexint (quoted "1e999")
  = (FlexInt.mk (S754_infinity false) "1e999", None) /\
  strconv.float64_eqb
    (FlexInt.Val (fst (FlexInt.UnmarshalJSON used_flexint (quoted "1e999"))))
    zero64 = false.
Proof. split; [|split; [|split]]; vm_compute; reflexivity. Qed.

(** ** The numeric decoder on numbers, and its invariant *)

Section NumberKind.
Local Open Scope Z_scope.

(** The number that [json.Unmarshal] stores is a [float64]. *)
Lemma json_number_float64 (b : list byte) (n : strconv.float64) :
  is_json_number b n -> strconv.is_float64 n = true.
Proof.
  unfold is_json_number, json.Unmarshal, json.unmarshal. cbv zeta.
  destruct (json.checkValid _); [discriminate|].
  destruct (json.skipSpace _) as [|a body]; [discriminate|].
  repeat match goal with
  | |- context [if ?c then _ else _] => destruct c
  end; try discriminate.
  - destruct (json.unquote body); discriminate.
  - unfold json.convertNumber.
    pose proof (ParseFloat_float64 (json.numberPrefix (String a body))) as H.
    destruct (strconv.ParseFloat _) as [v [e|]]; [discriminate|].
    intros E. injection E as <-. exact H.
Qed.

(** The number that [json.Unmarshal] stores is neither an infinity nor a
    NaN. *)
Lemma json_number_is_number (b : list byte) (n : strconv.float64) :
  is_json_number b n -> is_number n = true.
Proof.
  intros Hb. unfold is_number.
  rewrite (json_number_float64 b n Hb). cbn [andb].
  revert Hb.
  unfold is_json_number, json.Unmarshal, json.unmarshal. cbv zeta.
  destruct (json.checkValid _); [discriminate|].
  destruct (json.skipSpace _) as [|a body]; [discriminate|].
  repeat match goal with
  | |- context [if ?c then _ else _] => destruct c
  end; try discriminate.
  - destruct (json.unquote body); discriminate.
  - unfold json.convertNumber, strconv.ParseFloat.
    rewrite special_numberPrefix.
    destruct (strconv.readFloat _) as [[[[M E] neg] hex]|];
      [|discriminate].
    pose proof (roundRatio_number neg) as Hrr.
    assert (Hnum : forall r : strconv.float64 * bool,
      r = (if hex then strconv.roundBinary neg M E
           else strconv.roundDecimal neg M E) ->
      snd r = false ->
      match fst r with
      | S754_zero _ | S754_finite _ _ _ => True
      | _ => False
      end).
    { intros r ->. unfold strconv.roundBinary, strconv.roundDecimal.
      destruct hex; destruct (0 <=? E); apply Hrr. }
    specialize (Hnum _ eq_refl).
    destruct (if hex then _ else _) as [v ovf]. cbn [fst snd] in Hnum.
    destruct ovf; [discriminate|]. specialize (Hnum eq_refl).
    intros H. injection H as <-.
    destruct v; try contradiction; reflexivity.
Qed.

End NumberKind.

(** [C4] For every JSON number [n] the stored [Val] is [n] and the stored
    [Txt] is [strconv.FormatFloat(n, 'f', -1, 64)], and the call returns
    no error.  That text is the shortest decimal form that reads back as
    [n]: [strconv.ParseFloat] returns [n] for it, exactly and without
    error; it is written in plain decimal form, a sign, digits and, if
    there is a fraction, a point and the digits of the fraction with no
    zero at its end; and no decimal [M * 10^k] with fewer significant
    digits than the text has rounds to [n]. *)
Theorem FlexInt_number_value (f : FlexInt.t) (b : list byte)
    (n : strconv.float64) :
  is_json_number b n ->
  FlexInt.UnmarshalJSON f b = (FlexInt.mk n (strconv.FormatFloat n), None) /\
  strconv.ParseFloat (strconv.FormatFloat n) = (n, None) /\
  plain_decimal (strconv.FormatFloat n) = true /\
  (forall (j : nat) (neg : bool) (M k : Z),
     (j < significant_digits (strconv.FormatFloat n))%nat ->
     (0 <= M < 10 ^ Z.of_nat j)%Z ->
     strconv.roundDecimal neg M k <> (n, false)).
Proof.
  intros Hb.
  pose proof (json_number_float64 b n Hb) as Hval.
  pose proof (json_number_is_number b n Hb) as Hnum.
  split; [|split].
  - unfold is_json_number in Hb. now rewrite (FlexInt_on_value f b _ Hb).
  - now apply ParseFloat_FormatFloat.
  - destruct n as [s|s| |s m e]; try discriminate Hnum.
    + split; [now destruct s|]. intros j neg M k Hj.
      destruct s; cbn in Hj; lia.
    + destruct (FormatFloat_digits s m e Hval) as (Hwf & Hne & Htxt).
      rewrite Htxt.
      destruct (printed_shape s _ (strconv.dp10
                  (strconv.roundShortest (S754_finite s m e) s
                     (strconv.exactDecimal m e))) Hwf Hne) as [Hplain Hsig].
      split; [exact Hplain|]. rewrite Hsig.
      intros j neg M k Hj HM.
      now apply (roundShortest_fewest s m e Hval j neg M k).
Qed.

(** The JSON numbers [42] and [3.5]. *)
Lemma FlexInt_number_value_witness :
  FlexInt.UnmarshalJSON used_flexint (bytes "42")
  = (FlexInt.mk (S754_finite false 5910974510923776 (-47)) "42", None) /\
  FlexInt.UnmarshalJSON used_flexint (bytes "3.5")
  = (FlexInt.mk (S754_finite false 7881299347898368 (-51)) "3.5", None).
Proof.
  split.
  - destruct (FlexInt_number_value used_flexint (bytes "42")
                (S754_finite false 5910974510923776 (-47))) as [H _].
    + vm_compute. reflexivity.
    + rewrite H. vm_compute. reflexivity.
  - destruct (FlexInt_number_value used_flexint (bytes "3.5")
                (S754_finite false 7881299347898368 (-51))) as [H _].
    + vm_compute. reflexivity.
    + rewrite H. vm_compute. reflexivity.
Defined.

(** [C7] amended: after every call that returns no error, [Val] is what
    [strconv.ParseFloat] returns for [Txt], its error dropped: reading
    the stored [Txt] again gives the stored [Val].  Where that parse has
    no error it is also the parse of the specification; where it has one,
    [Val] is zero for a text that is not a number, and an infinity for a
    number out of range.  The stored pair comes from a number, with [Txt]
    the shortest text of [Val]; from a string, kept as it is; or from
    [null], with [Txt] ["0"] and [Val] zero. *)
Theorem FlexInt_invariant (f f' : FlexInt.t) (b : list byte) :
  FlexInt.UnmarshalJSON f b = (f', None) ->
  best_effort_parse (FlexInt.Txt f') = FlexInt.Val f' /\
  (snd (strconv.ParseFloat (FlexInt.Txt f')) = None ->
   parse_or_zero (FlexInt.Txt f') = FlexInt.Val f') /\
  (forall e, snd (strconv.ParseFloat (FlexInt.Txt f')) = Some e ->
     (e = strconv.syntaxError "ParseFloat" (FlexInt.Txt f')
      /\ FlexInt.Val f' = zero64)
     \/ (e = strconv.rangeError "ParseFloat" (FlexInt.Txt f')
         /\ exists neg, FlexInt.Val f' = S754_infinity neg)) /\
  ((is_json_number b (FlexInt.Val f')
    /\ FlexInt.Txt f' = strconv.FormatFloat (FlexInt.Val f')
    /\ snd (strconv.ParseFloat (FlexInt.Txt f')) = None)
   \/ is_json_string b (FlexInt.Txt f')
   \/ (json.Unmarshal b = (json.Nil, None)
       /\ f' = FlexInt.mk zero64 "0")).
Proof.
  intros Hcall.
  assert (Hval : best_effort_parse (FlexInt.Txt f') = FlexInt.Val f'
    /\ ((is_json_number b (FlexInt.Val f')
         /\ FlexInt.Txt f' = strconv.FormatFloat (FlexInt.Val f')
         /\ snd (strconv.ParseFloat (FlexInt.Txt f')) = None)
        \/ is_json_string b (FlexInt.Txt f')
        \/ (json.Unmarshal b = (json.Nil, None)
            /\ f' = FlexInt.mk zero64 "0"))).
  { destruct (json.Unmarshal b) as [unk [e|]] eqn:Hu.
    { rewrite (FlexInt_on_error f b e) in Hcall by now rewrite Hu.
      discriminate. }
    rewrite (FlexInt_on_value f b unk Hu) in Hcall.
    destruct unk; try discriminate; injection Hcall as <-;
      cbn [FlexInt.Txt FlexInt.Val].
    - split; [reflexivity|]. right. right. now split.
    - pose proof (json_number_float64 b f0 Hu) as Hf.
      pose proof (ParseFloat_FormatFloat f0 Hf) as Hrt.
      unfold best_effort_parse. rewrite Hrt. split; [reflexivity|].
      left. repeat split; assumption.
    - split; [reflexivity|]. right. left. exact Hu. }
  destruct Hval as [Hparse Hfrom].
  split; [exact Hparse|]. split; [|split; [|exact Hfrom]].
  - unfold parse_or_zero. unfold best_effort_parse in Hparse.
    destruct (strconv.ParseFloat (FlexInt.Txt f')) as [v [e|]];
      cbn [fst snd] in *; [intros H; discriminate H|]. now intros _.
  - intros e He. rewrite <- Hparse. now apply ParseFloat_error.
Qed.

(** The JSON number [3.5], the JSON string ["abc"] and [null]. *)
Lemma FlexInt_invariant_witness :
  best_effort_parse "3.5" = S754_finite false 7881299347898368 (-51) /\
  best_effort_parse "abc" = zero64 /\
  best_effort_parse "0" = zero64.
Proof.
  split; [|split].
  - destruct (FlexInt_invariant used_flexint
                (FlexInt.mk (S754_finite false 7881299347898368 (-51)) "3.5")
                (bytes "3.5")) as [H _]; [vm_compute; reflexivity|exact H].
  - destruct (FlexInt_invariant used_flexint (FlexInt.mk zero64 "abc")
                (quoted "abc")) as [H _]; [vm_compute; reflexivity|exact H].
  - destruct (FlexInt_invariant used_flexint (FlexInt.mk zero64 "0")
                (bytes "null")) as [H _]; [vm_compute; reflexivity|exact H].
Defined.

(** [C7] as stated fails on the JSON string ["1e999"]: the call returns no
    error and stores the text with [Val] [+Inf]; the text cannot be parsed,
    [strconv.ParseFloat] returns a range error for it, and the parse that
    gives zero for such a text does not give the stored [Val]. *)
Lemma FlexInt_invariant_out_of_range :
  FlexInt.UnmarshalJSON used_flexint (quoted "1e999")
  = (FlexInt.mk (S754_infinity false) "1e999", None) /\
  snd (strconv.ParseFloat "1e999")
  = Some (strconv.rangeError "ParseFloat" "1e999") /\
  parse_or_zero "1e999" = zero64 /\
  strconv.float64_eqb
    (parse_or_zero
       (FlexInt.Txt (fst (FlexInt.UnmarshalJSON used_flexint
                            (quoted "1e999")))))
    (FlexInt.Val (fst (FlexInt.UnmarshalJSON used_flexint (quoted "1e999"))))
  = false.
Proof. split; [|split; [|split]]; vm_compute; reflexivity. Qed.

(** * Further properties *)

(** ** More on the boolean decoder *)

Lemma bytes_string (s : string) : string_of_list_byte (bytes s) = s.
Proof. apply string_of_list_byte_of_string. Qed.

Lemma all_quotes_append (a b : string) :
  all_quotes a = true -> all_quotes b = true -> all_quotes (a ++ b) = true.
Proof.
  induction a as [|c a IH]; cbn [append all_quotes]; [auto|].
  intros H Hb. apply andb_true_iff in H as [-> H]. now apply IH.
Qed.

(** Quotes around a text do not change what [Trim] leaves of it. *)
Lemma Trim_quotes (l s r : string) :
  all_quotes l = true -> all_quotes r = true ->
  strings.Trim (l ++ s ++ r) dquote = strings.Trim s dquote.
Proof.
  intros Hl Hr.
  destruct (Trim_split s) as (l' & r' & Hs & Hl' & Hr' & Hfirst & Hlast).
  apply (Trim_unique _ (l ++ l') _ (r' ++ r)); try assumption.
  - rewrite Hs at 1. now rewrite !append_assoc.
  - now apply all_quotes_append.
  - now apply all_quotes_append.
Qed.

Lemma Trim_Trim (s : string) :
  strings.Trim (strings.Trim s dquote) dquote = strings.Trim s dquote.
Proof.
  destruct (Trim_split s) as (l & r & _ & _ & _ & Hfirst & Hlast).
  apply (Trim_unique _ "" _ ""); try assumption; try reflexivity.
  cbn [append]. now rewrite append_nil_r.
Qed.

(** Decoding the text that [String] returns gives the decoded value
    again: the boolean decoder is idempotent through [String]. *)
Theorem FlexBool_redecode
    (foldRest : Z -> Z) (f g : FlexBool.t) (b : list byte) :
  let r := fst (FlexBool.UnmarshalJSON foldRest f b) in
  FlexBool.UnmarshalJSON foldRest g (bytes (FlexBool.String_ r)) = (r, None).
Proof.
  cbv zeta. unfold FlexBool.UnmarshalJSON, FlexBool.String_.
  cbn [fst FlexBool.Txt FlexBool.Val]. rewrite bytes_string, Trim_Trim.
  reflexivity.
Qed.

(** Double quotes around the input, however many, are not seen: the
    quoted and the bare form of a text decode alike, whatever the receiver
    held. *)
Theorem FlexBool_quotes_ignored
    (foldRest : Z -> Z) (f g : FlexBool.t) (l s r : string) :
  all_quotes l = true -> all_quotes r = true ->
  FlexBool.UnmarshalJSON foldRest f (bytes (l ++ s ++ r))
  = FlexBool.UnmarshalJSON foldRest g (bytes s).
Proof.
  intros Hl Hr. unfold FlexBool.UnmarshalJSON.
  cbn [FlexBool.Txt FlexBool.Val]. rewrite !bytes_string.
  now rewrite Trim_quotes.
Qed.

Lemma FlexBool_quotes_ignored_witness :
  FlexBool.UnmarshalJSON (fun r => r) (FlexBool.mk false "") (quoted "true")
  = FlexBool.UnmarshalJSON (fun r => r) (FlexBool.mk true "x") (bytes "true").
Proof.
  exact (FlexBool_quotes_ignored (fun r => r) (FlexBool.mk false "")
           (FlexBool.mk true "x") (String dquote "") "true"
           (String dquote "") eq_refl eq_refl).
Defined.

Lemma all_letters_to_lower (s : string) :
  is_ascii s = true -> all_letters (to_lower s) = all_letters s.
Proof.
  induction s as [|c s IH]; [reflexivity|].
  cbn [is_ascii to_lower all_letters]. intros H.
  apply andb_true_iff in H as [Hc Hs]. rewrite (IH Hs). f_equal.
  apply Z.ltb_lt in Hc.
  destruct (byteZ_lower_byte c Hc) as [Hlow _]. rewrite <- Hlow.
  unfold caseless, is_letter.
  repeat match goal with
  | |- context [if ?c then _ else _] => destruct c eqn:?
  end; lia.
Qed.

Lemma to_lower_one (s : string) : to_lower s = "1" -> s = "1".
Proof.
  destruct s as [|c [|d s]]; cbn [to_lower]; try discriminate.
  intros H. injection H as H. f_equal. revert H. unfold lower_byte.
  destruct (_ && _) eqn:E; [|auto]. intros H.
  apply andb_true_iff in E as [E1 E2]. apply Z.leb_le in E1, E2.
  apply (f_equal byteZ) in H. unfold byteZ in H, E1, E2.
  rewrite N_ascii_embedding in H by lia. cbn in H. lia.
Qed.

(** A text of ASCII bytes with a byte that is not a letter -- a digit, a
    space, a line end, a point -- gives [true] only when it is exactly
    [1]: spaces around a token are not trimmed, and no other number is
    true. *)
Theorem FlexBool_not_only_letters
    (foldRest : Z -> Z) (f : FlexBool.t) (b : list byte) :
  let r := fst (FlexBool.UnmarshalJSON foldRest f b) in
  is_ascii (FlexBool.Txt r) = true ->
  all_letters (FlexBool.Txt r) = false ->
  (FlexBool.Val r = true <-> FlexBool.Txt r = "1").
Proof.
  cbv zeta. unfold FlexBool.UnmarshalJSON.
  cbn [fst FlexBool.Txt FlexBool.Val].
  set (txt := strings.Trim (string_of_list_byte b) dquote).
  intros Hascii Hletters. rewrite truthy_disjunction. split.
  - intros [tok [Hin Hm]].
    apply matches_caseless_ascii in Hm; try assumption.
    pose proof (all_letters_to_lower txt Hascii) as Hl.
    rewrite Hm, Hletters in Hl.
    unfold truthy in Hin. cbn [In] in Hin.
    destruct Hin as [<-|Hin]; [now apply to_lower_one|].
    repeat (destruct Hin as [<-|Hin]; [discriminate Hl|]). contradiction.
  - intros ->. exists "1". split; [now left|reflexivity].
Qed.

Lemma FlexBool_not_only_letters_witness :
  FlexBool.Val
    (fst (FlexBool.UnmarshalJSON (fun r => r) (FlexBool.mk true "")
            (bytes " true"))) = false
  /\ FlexBool.Val
       (fst (FlexBool.UnmarshalJSON (fun r => r) (FlexBool.mk true "")
               (bytes "10"))) = false.
Proof.
  split.
  - destruct (FlexBool_not_only_letters (fun r => r) (FlexBool.mk true "")
                (bytes " true") eq_refl eq_refl) as [H _].
    destruct (FlexBool.Val _); [|reflexivity].
    specialize (H eq_refl). discriminate H.
  - destruct (FlexBool_not_only_letters (fun r => r) (FlexBool.mk true "")
                (bytes "10") eq_refl eq_refl) as [H _].
    destruct (FlexBool.Val _); [|reflexivity].
    specialize (H eq_refl). discriminate H.
Defined.

(** ** More on the path resolver *)

(** Two different paths of the legacy form, without the prefix and not the
    new login path, never resolve to the same path. *)
Theorem path_distinct_legacy (u : Unifi) (P Q : string) :
  strings.HasPrefix P APIPrefixNew = false -> P <> APILoginPathNew ->
  strings.HasPrefix Q APIPrefixNew = false -> Q <> APILoginPathNew ->
  P <> Q -> path u P <> path u Q.
Proof.
  intros HP HPn HQ HQn Hne. unfold path.
  destruct (New (config u)); [|exact Hne].
  rewrite HP, HQ. cbn [negb andb].
  destruct (String.eqb_spec P APILoginPathNew) as [|_]; [contradiction|].
  destruct (String.eqb_spec Q APILoginPathNew) as [|_]; [contradiction|].
  destruct (String.eqb_spec P APILoginPath) as [HPl|HPl];
    destruct (String.eqb_spec Q APILoginPath) as [HQl|HQl].
  - congruence.
  - cbn. discriminate.
  - cbn. discriminate.
  - cbn. intros H. apply Hne. now injection H.
Qed.

Lemma path_distinct_legacy_witness :
  path udm_handle "/status" = "/proxy/network/status"
  /\ path udm_handle "/status" <> path udm_handle "/api/login".
Proof.
  split; [reflexivity|].
  apply path_distinct_legacy; try reflexivity; discriminate.
Defined.

(** ** More on the numeric decoder: its errors *)

Section ErrorText.
Local Open Scope Z_scope.

Lemma digitChar_inj (x y : Z) :
  is_digit x -> is_digit y -> strconv.digitChar x = strconv.digitChar y ->
  x = y.
Proof.
  intros Hx Hy H. apply (f_equal byteZ) in H.
  rewrite !byteZ_digitChar in H by assumption. lia.
Qed.

(** Digits up to a byte that is not a digit, or to the end: the digits
    and what follows are told apart. *)
Lemma digitString_split (l1 l2 : list Z) (r1 r2 : string) :
  Forall is_digit l1 -> Forall is_digit l2 ->
  strconv.isDigit (byteAt r1 0) = false ->
  strconv.isDigit (byteAt r2 0) = false ->
  (strconv.digitString l1 ++ r1)%string = (strconv.digitString l2 ++ r2)%string ->
  l1 = l2 /\ r1 = r2.
Proof.
  intros H1. revert l2. induction H1 as [|x l1 Hx _ IH]; intros l2 H2 Hr1 Hr2.
  - destruct H2 as [|y l2 Hy _]; cbn [strconv.digitString append].
    + auto.
    + intros ->. cbn in Hr1.
      destruct (digitChar_digit y Hy) as (Hd & _). congruence.
  - destruct H2 as [|y l2 Hy Hl2]; cbn [strconv.digitString append].
    + intros <-. cbn in Hr2.
      destruct (digitChar_digit x Hx) as (Hd & _). congruence.
    + intros H. injection H as Hc Hrest.
      apply digitChar_inj in Hc; try assumption. subst y.
      destruct (IH l2 Hl2 Hr1 Hr2 Hrest) as [-> ->]. auto.
Qed.

(** The decimal text of a number from 0 to 255. *)
Lemma decimalString_digits (n : Z) :
  0 <= n ->
  exists l, decimalString n = strconv.digitString l
            /\ Forall is_digit l /\ l <> nil /\ strconv.valueOf l = n.
Proof.
  intros Hn. unfold decimalString.
  destruct (Z.eqb_spec n 0) as [->|Hne].
  - exists [0]. repeat split; try discriminate.
    constructor; [unfold is_digit; lia|constructor].
  - destruct (digitsOf_spec n ltac:(lia)) as (Hv & Hdig & Hhd).
    exists (strconv.digitsOf n). repeat split; try assumption.
    intros Hnil. rewrite Hnil in Hv. cbn in Hv. lia.
Qed.

Lemma to_N_inj (x y : byte) : Byte.to_N x = Byte.to_N y -> x = y.
Proof.
  intros H. pose proof (Byte.of_to_N x) as Hx.
  rewrite H, Byte.of_to_N in Hx. congruence.
Qed.

Lemma joinBytes_cons (x : byte) (r : list byte) :
  exists l rest,
    joinBytes (x :: r) = (strconv.digitString l ++ rest)%string
    /\ Forall is_digit l /\ l <> nil
    /\ strconv.valueOf l = Z.of_N (Byte.to_N x)
    /\ rest = match r with
              | nil => ""
              | _ :: _ => String " " (joinBytes r)
              end.
Proof.
  destruct (decimalString_digits (Z.of_N (Byte.to_N x)) ltac:(lia))
    as (l & Hd & Hdig & Hne & Hv).
  exists l. eexists. split; [|repeat split; try eassumption; reflexivity].
  cbn [joinBytes]. rewrite Hd. destruct r; [|reflexivity].
  now rewrite append_nil_r.
Qed.

Lemma joinBytes_inj (b1 : list byte) :
  forall b2, joinBytes b1 = joinBytes b2 -> b1 = b2.
Proof.
  induction b1 as [|x r1 IH]; intros [|y r2] H.
  - reflexivity.
  - destruct (joinBytes_cons y r2) as (l & rest & Hj & _ & Hne & _).
    rewrite Hj in H. destruct l; [contradiction|discriminate H].
  - destruct (joinBytes_cons x r1) as (l & rest & Hj & _ & Hne & _).
    rewrite Hj in H. destruct l; [contradiction|discriminate H].
  - destruct (joinBytes_cons x r1) as (l1 & s1 & Hj1 & Hd1 & _ & Hv1 & Hs1).
    destruct (joinBytes_cons y r2) as (l2 & s2 & Hj2 & Hd2 & _ & Hv2 & Hs2).
    rewrite Hj1, Hj2 in H.
    apply digitString_split in H; try assumption.
    + destruct H as [Hl Hs]. subst l2.
      assert (x = y) by (apply to_N_inj; lia). subst y. f_equal.
      rewrite Hs1, Hs2 in Hs. destruct r1, r2; try discriminate Hs.
      * reflexivity.
      * injection Hs as Hs. now apply IH.
    + rewrite Hs1. now destruct r1.
    + rewrite Hs2. now destruct r2.
Qed.

Lemma append_inj_r (a b c : string) :
  (a ++ String "]" "")%string = (b ++ String "]" "")%string -> a = b.
Proof.
  intros H.
  assert (Hrev : forall s t, (s ++ t)%string
            = string_of_list_ascii (list_ascii_of_string s
                                    ++ list_ascii_of_string t)%list).
  { induction s as [|x s IH]; intros t; cbn.
    - now rewrite string_of_list_ascii_of_string.
    - now rewrite IH. }
  apply (f_equal list_ascii_of_string) in H.
  rewrite !Hrev, !list_ascii_of_string_of_list_ascii in H.
  apply app_inj_tail in H as [H _].
  apply (f_equal string_of_list_ascii) in H.
  now rewrite !string_of_list_ascii_of_string in H.
Qed.

(** The text that [%v] writes for the raw bytes tells them all. *)
Lemma fmtBytes_inj (b1 b2 : list byte) : fmtBytes b1 = fmtBytes b2 -> b1 = b2.
Proof.
  unfold fmtBytes. cbn [append]. intros H. injection H as H.
  apply (append_inj_r _ _ "") in H. now apply joinBytes_inj.
Qed.

End ErrorText.

(** The errors of [json.Unmarshal]: a syntax error, or the type error of
    a number that does not fit. *)
Lemma savedError_kind (lits : list string) (e : error) :
  json.savedError lits = Some e -> exists v, e = UnmarshalTypeError v.
Proof.
  induction lits as [|x lits IH]; cbn [json.savedError]; [discriminate|].
  unfold json.convertNumber at 1.
  destruct (strconv.ParseFloat x) as [v [e'|]]; cbn [snd]; [|exact IH].
  intros H. injection H as <-. eauto.
Qed.

Lemma Unmarshal_error (b : list byte) (e : error) :
  snd (json.Unmarshal b) = Some e ->
  e = SyntaxError \/ exists v, e = UnmarshalTypeError v.
Proof.
  unfold json.Unmarshal, json.checkValid.
  destruct (json.scanAll _ _) as [s|]; cbn [snd];
    [destruct (json.eof s)|]; cbn [snd];
    try (intros H; injection H as <-; now left).
  unfold json.unmarshal. cbv zeta.
  destruct (json.skipSpace _) as [|a body]; [discriminate|].
  repeat match goal with
  | |- context [if ?c then _ else _] => destruct c
  end; cbn [snd]; try discriminate;
    try (intros H; right; now apply savedError_kind in H).
  - destruct (json.unquote body); discriminate.
  - unfold json.convertNumber.
    destruct (strconv.ParseFloat _) as [v [e'|]]; cbn [snd];
      [|discriminate].
    intros H. injection H as <-. right. eauto.
Qed.

(** The error of the type switch identifies the input: two calls that
    return the error that wraps [errCannotUnmarshalFlexInt] with the same
    message were given the same raw bytes. *)
Theorem FlexInt_error_identifies_input
    (f g : FlexInt.t) (b1 b2 : list byte) (msg : string) :
  snd (FlexInt.UnmarshalJSON f b1)
  = Some (withMessage errCannotUnmarshalFlexInt msg) ->
  snd (FlexInt.UnmarshalJSON g b2)
  = Some (withMessage errCannotUnmarshalFlexInt msg) ->
  b1 = b2.
Proof.
  assert (Hmsg : forall h b,
    snd (FlexInt.UnmarshalJSON h b)
    = Some (withMessage errCannotUnmarshalFlexInt msg) ->
    msg = fmtBytes b).
  { intros h b.
    destruct (json.Unmarshal b) as [unk [e|]] eqn:Hu.
    - rewrite (FlexInt_on_error h b e) by now rewrite Hu.
      cbn [snd]. intros H. injection H as ->.
      destruct (Unmarshal_error b _ ltac:(rewrite Hu; reflexivity))
        as [H|[v H]]; discriminate H.
    - rewrite (FlexInt_on_value h b unk Hu).
      destruct unk; cbn [snd]; try discriminate;
        unfold Wrapf; intros H; injection H as H; now symmetry. }
  intros H1 H2. apply Hmsg in H1, H2. apply fmtBytes_inj. congruence.
Qed.

Lemma FlexInt_error_identifies_input_witness :
  snd (FlexInt.UnmarshalJSON used_flexint (bytes "true"))
  = Some (withMessage errCannotUnmarshalFlexInt "[116 114 117 101]")
  /\ bytes "true" = bytes "true".
Proof.
  split; [vm_compute; reflexivity|].
  apply (FlexInt_error_identifies_input used_flexint used_flexint
           (bytes "true") (bytes "true") "[116 114 117 101]");
    vm_compute; reflexivity.
Defined.

(** What the decoder stores for a number. *)
Lemma FlexInt_number_result (f f' : FlexInt.t) (b : list byte) :
  kindOf b = Some KNumber ->
  FlexInt.UnmarshalJSON f b = (f', None) ->
  exists n, is_json_number b n
            /\ f' = FlexInt.mk n (strconv.FormatFloat n).
Proof.
  intros Hk Hcall.
  pose proof (Unmarshal_kind b KNumber Hk) as Hu. cbv zeta in Hu.
  revert Hcall. unfold FlexInt.UnmarshalJSON. rewrite Hu.
  destruct (json.convertNumber _) as [n [e|]]; [discriminate|].
  intros H. injection H as <-. exists n. split; [exact Hu|reflexivity].
Qed.

(** A number that the decoder accepts is stored as a finite [float64]:
    never an infinity, never a NaN, with a mantissa and an exponent in
    range.  A number too large for that is an error and not an
    infinity. *)
Theorem FlexInt_number_is_finite (f f' : FlexInt.t) (b : list byte) :
  kindOf b = Some KNumber ->
  FlexInt.UnmarshalJSON f b = (f', None) ->
  is_number (FlexInt.Val f') = true
  /\ is_json_number b (FlexInt.Val f').
Proof.
  intros Hk Hcall.
  destruct (FlexInt_number_result f f' b Hk Hcall) as (n & Hn & ->).
  cbn [FlexInt.Val]. split; [now apply (json_number_is_number b)|exact Hn].
Qed.

Lemma FlexInt_number_is_finite_witness :
  is_number (S754_finite false 5910974510923776 (-47)) = true
  /\ is_json_number (bytes "42") (S754_finite false 5910974510923776 (-47)).
Proof.
  apply (FlexInt_number_is_finite used_flexint
           (FlexInt.mk (S754_finite false 5910974510923776 (-47)) "42")
           (bytes "42")); vm_compute; reflexivity.
Defined.

(** ** JSON texts that the decoder accepts *)

Section Accepted.
Local Open Scope Z_scope.

Lemma scanAll_plain (s rest : string) :
  plain_text s = true ->
  json.scanAll inString (s ++ rest) = json.scanAll inString rest.
Proof.
  induction s as [|a s IH]; [reflexivity|].
  cbn [plain_text append json.scanAll]. intros H.
  apply andb_true_iff in H as [Ha Hs].
  unfold json.stepScanner at 1. cbn [json.step inString].
  assert (E1 : (byteZ a =? 0x22) = false) by lia.
  assert (E2 : (byteZ a =? 0x5C) = false) by lia.
  assert (E3 : (byteZ a <? 0x20) = false) by lia.
  rewrite E1, E2, E3. now apply IH.
Qed.

Lemma unquoteLoop_plain (s rest : string) (fuel : nat) :
  plain_text s = true -> (String.length s < fuel)%nat ->
  json.unquoteLoop fuel (s ++ String dquote rest) = Some s.
Proof.
  revert fuel. induction s as [|a s IH]; intros fuel Hp Hf.
  - destruct fuel; [cbn in Hf; lia|]. reflexivity.
  - destruct fuel; [cbn in Hf; lia|].
    cbn [plain_text] in Hp. apply andb_true_iff in Hp as [Ha Hs].
    cbn [append json.unquoteLoop]. cbv zeta.
    assert (E1 : (byteZ a =? 0x5C) = false) by lia.
    assert (E2 : (byteZ a =? 0x22) = false) by lia.
    assert (E3 : (byteZ a <? 0x20) = false) by lia.
    assert (E4 : (byteZ a <? utf8.RuneSelf) = true)
      by (change utf8.RuneSelf with 0x80; lia).
    rewrite E1, E2, E3, E4.
    rewrite IH; [reflexivity|assumption|cbn in Hf; lia].
Qed.

Lemma length_append_string (a b : string) :
  String.length (a ++ b) = (String.length a + String.length b)%nat.
Proof. induction a; cbn; congruence. Qed.

(** A plain text between double quotes is the JSON string with that
    text as its value. *)
Lemma json_string_plain (s : string) :
  plain_text s = true -> is_json_string (quoted s) s.
Proof.
  intros Hp. unfold is_json_string, quoted, json.Unmarshal.
  rewrite bytes_string.
  assert (Hvalid : json.checkValid (String dquote (s ++ String dquote ""))
                   = None).
  { unfold json.checkValid. cbn [json.scanAll].
    change (json.stepScanner json.reset (byteZ dquote))
      with (inString, json.scanBeginLiteral).
    cbv iota. rewrite scanAll_plain by assumption. reflexivity. }
  rewrite Hvalid. unfold json.unmarshal. cbv zeta.
  cbn [json.skipSpace]. change (json.isSpace (byteZ dquote)) with false.
  cbv iota. change (byteZ dquote) with 0x22. cbn [Z.eqb Pos.eqb].
  unfold json.unquote. rewrite unquoteLoop_plain; [reflexivity|assumption|].
  rewrite length_append_string. cbn. lia.
Qed.

End Accepted.

(** A plain text between double quotes decodes to that text, with [Val]
    what [strconv.ParseFloat] reads in it: the JSON string literal of such
    a text always succeeds, and [String] gives the text back. *)
Theorem FlexInt_plain_string (f : FlexInt.t) (s : string) :
  plain_text s = true ->
  FlexInt.UnmarshalJSON f (quoted s)
  = (FlexInt.mk (fst (strconv.ParseFloat s)) s, None)
  /\ FlexInt.String_ (fst (FlexInt.UnmarshalJSON f (quoted s))) = s.
Proof.
  intros Hp. pose proof (json_string_plain s Hp) as Hs.
  unfold is_json_string in Hs.
  rewrite (FlexInt_on_value f _ _ Hs). split; reflexivity.
Qed.

Lemma FlexInt_plain_string_witness :
  FlexInt.UnmarshalJSON used_flexint (quoted "12 Mbps")
  = (FlexInt.mk (S754_zero false) "12 Mbps", None)
  /\ FlexInt.String_ (fst (FlexInt.UnmarshalJSON used_flexint
                             (quoted "12 Mbps"))) = "12 Mbps".
Proof.
  apply (FlexInt_plain_string used_flexint "12 Mbps"). reflexivity.
Defined.

Section AcceptedNumber.
Local Open Scope Z_scope.
Local Open Scope list_scope.

Lemma digit_byte (x : Z) :
  is_digit x ->
  let c := byteZ (strconv.digitChar x) in
  json.is09 c = true /\ json.is19 c = negb (x =? 0)
  /\ (c =? 0x30) = (x =? 0) /\ json.isSpace c = false
  /\ json.isNumberByte c = true.
Proof.
  intros Hx. cbv zeta. rewrite byteZ_digitChar by assumption.
  unfold is_digit in Hx.
  unfold json.is09, json.is19, json.isSpace, json.isNumberByte, json.is09.
  repeat split; lia.
Qed.

Lemma scanAll_integer (l : list Z) (rest : string) :
  Forall is_digit l ->
  json.scanAll (inNumber json.state1) (strconv.digitString l ++ rest)
  = json.scanAll (inNumber json.state1) rest.
Proof.
  induction 1 as [|x l Hx _ IH]; [reflexivity|].
  cbn [strconv.digitString append json.scanAll].
  unfold json.stepScanner at 1. cbn [json.step inNumber].
  destruct (digit_byte x Hx) as (-> & _). exact IH.
Qed.

Lemma scanAll_fraction (l : list Z) (rest : string) :
  Forall is_digit l ->
  json.scanAll (inNumber json.stateDot0) (strconv.digitString l ++ rest)
  = json.scanAll (inNumber json.stateDot0) rest.
Proof.
  induction 1 as [|x l Hx _ IH]; [reflexivity|].
  cbn [strconv.digitString append json.scanAll].
  unfold json.stepScanner at 1. cbn [json.step inNumber].
  destruct (digit_byte x Hx) as (-> & _). exact IH.
Qed.

(** The digits after the point: there is one at least. *)
Lemma scanAll_point (l : list Z) :
  Forall is_digit l -> l <> [] ->
  json.scanAll (inNumber json.stateDot) (strconv.digitString l)
  = Some (inNumber json.stateDot0).
Proof.
  intros Hl Hne. destruct Hl as [|x l Hx Hl]; [contradiction|].
  cbn [strconv.digitString json.scanAll].
  unfold json.stepScanner at 1. cbn [json.step inNumber].
  destruct (digit_byte x Hx) as (-> & _).
  change (json.setStep (inNumber json.stateDot) json.stateDot0)
    with (inNumber json.stateDot0). cbv iota.
  rewrite <- (append_nil_r (strconv.digitString l)).
  now rewrite scanAll_fraction.
Qed.

(** What [fmtF] writes for digits is a JSON number, read from the
    start of a value or after a minus sign. *)
Lemma scanAll_printed (ds : list Z) (dp : Z) (st : json.stepState) :
  wf_digits ds -> ds <> [] ->
  st = json.stateBeginValue \/ st = json.stateNeg ->
  exists st',
    json.scanAll (inNumber st) (printed ds dp) = Some (inNumber st')
    /\ (st' = json.state1 \/ st' = json.stateDot0).
Proof.
  intros (Hdig & Hhd & Hlast) Hne Hst.
  assert (Hfirst : forall x, is_digit x -> x <> 0 ->
    json.stepScanner (inNumber st) (byteZ (strconv.digitChar x))
    = (inNumber json.state1,
       if json.isNumberStep st then json.scanContinue
       else json.scanBeginLiteral)).
  { intros x Hx Hx0. destruct (digit_byte x Hx) as (_ & H19 & H0 & Hsp & _).
    assert (Hne0 : (x =? 0) = false) by lia.
    rewrite Hne0 in H19, H0. cbn [negb] in H19.
    assert (Hc : byteZ (strconv.digitChar x) = 0x30 + x)
      by now apply byteZ_digitChar.
    unfold is_digit in Hx.
    destruct Hst as [-> | ->]; unfold json.stepScanner;
      cbn [json.step inNumber]; [unfold json.doBeginValue|];
      rewrite ?Hsp, ?H0, ?H19.
    - repeat match goal with
      | |- context [(byteZ (strconv.digitChar x) =? ?k)] =>
          destruct (Z.eqb_spec (byteZ (strconv.digitChar x)) k); [lia|]
      end. reflexivity.
    - reflexivity. }
  assert (Hzero :
    json.stepScanner (inNumber st) (byteZ "0")
    = (inNumber json.state0,
       if json.isNumberStep st then json.scanContinue
       else json.scanBeginLiteral)).
  { destruct Hst as [-> | ->]; reflexivity. }
  assert (Hop : forall (A : Type) (a b : A),
    match (if json.isNumberStep st then json.scanContinue
           else json.scanBeginLiteral) with
    | json.scanError => a
    | _ => b
    end = b).
  { intros A a b. destruct (json.isNumberStep st); reflexivity. }
  unfold printed. rewrite <- !digitString_zeros.
  destruct (Z.leb_spec (Z.of_nat (length ds)) dp) as [Hint|Hfrac].
  - (* digits and zeros *)
    exists json.state1. split; [|now left].
    rewrite <- digitString_app.
    destruct ds as [|x ds']; [contradiction|].
    inversion Hdig as [|? ? Hx Hds']; subst. cbn [hd] in Hhd.
    cbn [app strconv.digitString json.scanAll].
    rewrite (Hfirst x Hx Hhd), Hop.
    rewrite <- (append_nil_r (strconv.digitString _)).
    rewrite scanAll_integer; [reflexivity|].
    apply Forall_app. split; [assumption|apply Forall_zeros].
  - destruct (Z.ltb_spec 0 dp) as [Hpos|Hneg].
    + (* the point among the digits *)
      exists json.stateDot0. split; [|now right].
      set (k := Z.to_nat dp).
      assert (Hk : (0 < k < length ds)%nat) by (unfold k; lia).
      assert (Hsplit : ds = firstn k ds ++ skipn k ds)
        by (symmetry; apply firstn_skipn).
      assert (Hparts : Forall is_digit (firstn k ds)
                       /\ Forall is_digit (skipn k ds)).
      { rewrite Hsplit in Hdig. now apply Forall_app in Hdig. }
      destruct Hparts as [Hf Hs].
      assert (Hsne : skipn k ds <> []).
      { intros Hnil. apply (f_equal (@length Z)) in Hnil.
        rewrite length_skipn in Hnil. cbn in Hnil. lia. }
      assert (Hfh : hd 1 (firstn k ds) <> 0).
      { destruct k; [lia|]. destruct ds; [contradiction|exact Hhd]. }
      destruct (firstn k ds) as [|x f'] eqn:Ef.
      { apply (f_equal (@length Z)) in Ef. rewrite length_firstn in Ef.
        cbn in Ef. lia. }
      inversion Hf as [|? ? Hx Hf']; subst. cbn [hd] in Hfh.
      cbn [strconv.digitString append json.scanAll].
      rewrite (Hfirst x Hx Hfh), Hop.
      rewrite scanAll_integer by assumption.
      cbn [json.scanAll].
      change (json.stepScanner (inNumber json.state1) (byteZ "."))
        with (inNumber json.stateDot, json.scanContinue).
      cbv iota. now apply scanAll_point.
    + (* zero, the point, zeros and the digits *)
      exists json.stateDot0. split; [|now right].
      rewrite <- digitString_app.
      cbn [json.scanAll]. rewrite Hzero, Hop.
      change (json.stepScanner (inNumber json.state0) (byteZ "."))
        with (inNumber json.stateDot, json.scanContinue).
      cbv iota. apply scanAll_point.
      * apply Forall_app. split; [apply Forall_zeros|assumption].
      * intros Hnil. apply app_eq_nil in Hnil as [_ Hnil]. contradiction.
Qed.

(** The bytes of such a number are the bytes of a literal. *)
Lemma numberPrefix_digits (l : list Z) (rest : string) :
  Forall is_digit l ->
  json.numberPrefix (strconv.digitString l ++ rest)
  = (strconv.digitString l ++ json.numberPrefix rest)%string.
Proof.
  induction 1 as [|x l Hx _ IH]; [reflexivity|].
  cbn [strconv.digitString append json.numberPrefix].
  destruct (digit_byte x Hx) as (_ & _ & _ & _ & ->). now rewrite IH.
Qed.

Lemma numberPrefix_printed (ds : list Z) (dp : Z) :
  Forall is_digit ds ->
  json.numberPrefix (printed ds dp) = printed ds dp.
Proof.
  intros Hdig. unfold printed. rewrite <- !digitString_zeros.
  destruct (Z.of_nat (length ds) <=? dp).
  - rewrite <- digitString_app.
    rewrite <- (append_nil_r (strconv.digitString _)) at 1.
    rewrite numberPrefix_digits, append_nil_r; [reflexivity|].
    apply Forall_app. split; [assumption|apply Forall_zeros].
  - destruct (0 <? dp).
    + rewrite <- (firstn_skipn (Z.to_nat dp) ds) in Hdig.
      apply Forall_app in Hdig as [Hf Hs].
      rewrite numberPrefix_digits by assumption.
      cbn [json.numberPrefix].
      change (json.isNumberByte (byteZ ".")) with true. cbv iota.
      rewrite <- (append_nil_r (strconv.digitString (skipn _ _))) at 1.
      rewrite numberPrefix_digits, append_nil_r by assumption.
      reflexivity.
    + rewrite <- digitString_app. cbn [json.numberPrefix].
      change (json.isNumberByte (byteZ "0")) with true.
      change (json.isNumberByte (byteZ ".")) with true. cbv iota.
      rewrite <- (append_nil_r (strconv.digitString _)) at 1.
      rewrite numberPrefix_digits, append_nil_r; [reflexivity|].
      apply Forall_app. split; [apply Forall_zeros|assumption].
Qed.

(** The first byte of what [fmtF] writes for digits is a digit. *)
Lemma printed_first (ds : list Z) (dp : Z) :
  wf_digits ds -> ds <> [] ->
  exists c r, printed ds dp = String c r /\ json.is09 (byteZ c) = true.
Proof.
  intros (Hdig & _ & _) Hne. unfold printed.
  destruct ds as [|x ds']; [contradiction|].
  inversion Hdig as [|? ? Hx Hds']; subst.
  destruct (digit_byte x Hx) as (H09 & _).
  destruct (Z.of_nat (length (x :: ds')) <=? dp).
  - cbn [strconv.digitString append]. eauto.
  - destruct (Z.ltb_spec 0 dp).
    + destruct (Z.to_nat dp) eqn:E; [lia|].
      cbn [firstn strconv.digitString append]. eauto.
    + eexists _, _. split; reflexivity.
Qed.

(** The text of a number is the JSON number with that value. *)
Lemma json_number_text (n : strconv.float64) :
  is_number n = true ->
  is_json_number (bytes (strconv.FormatFloat n)) n.
Proof.
  intros Hnum. unfold is_number in Hnum.
  apply andb_true_iff in Hnum as [Hval Hkind].
  pose proof (ParseFloat_FormatFloat n Hval) as Hrt.
  unfold is_json_number, json.Unmarshal. rewrite bytes_string.
  destruct n as [s|s| |s m e]; try discriminate Hkind.
  - destruct s; vm_compute; reflexivity.
  - destruct (FormatFloat_digits s m e Hval) as (Hwf & Hne & Htxt).
    rewrite Htxt in *.
    set (b := strconv.roundShortest (S754_finite s m e) s
                (strconv.exactDecimal m e)) in *.
    set (ds := strconv.d b) in *. set (dp := strconv.dp10 b) in *.
    destruct (printed_first ds dp Hwf Hne) as (c & r & Hp & Hc).
    assert (Hend : forall st', st' = json.state1 \/ st' = json.stateDot0 ->
              json.eof (inNumber st') = true).
    { intros st' [-> | ->]; reflexivity. }
    assert (Hvalid : json.checkValid ((if s then "-" else "") ++ printed ds dp)
                     = None).
    { unfold json.checkValid. destruct s; cbn [append json.scanAll].
      - change (json.stepScanner json.reset (byteZ "-"))
          with (inNumber json.stateNeg, json.scanBeginLiteral). cbv iota.
        destruct (scanAll_printed ds dp json.stateNeg Hwf Hne)
          as (st' & -> & Hst'); [now right|].
        now rewrite Hend.
      - destruct (scanAll_printed ds dp json.stateBeginValue Hwf Hne)
          as (st' & Hscan & Hst'); [now left|].
        change json.reset with (inNumber json.stateBeginValue).
        rewrite Hscan. now rewrite Hend. }
    rewrite Hvalid. unfold json.unmarshal. cbv zeta.
    assert (Hconv : json.convertNumber
              ((if s then "-" else "") ++ printed ds dp)
            = (S754_finite s m e, None)).
    { unfold json.convertNumber. now rewrite Hrt. }
    assert (Hpre : json.numberPrefix ((if s then "-" else "") ++ printed ds dp)
                   = ((if s then "-" else "") ++ printed ds dp)%string).
    { destruct Hwf as (Hdig & _).
      destruct s; cbn [append json.numberPrefix];
        [change (json.isNumberByte (byteZ "-")) with true; cbv iota|];
        now rewrite numberPrefix_printed. }
    unfold json.is09 in Hc.
    destruct s; cbn [append] in *.
    + cbn [json.skipSpace]. change (json.isSpace (byteZ "-")) with false.
      cbv iota. change (byteZ "-") with 0x2D. cbn [Z.eqb Pos.eqb].
      change 45 with (byteZ "-").
      change (String "-" (printed ds dp))
        with ("-" ++ printed ds dp)%string in *.
      cbn [append] in Hpre. cbn [append]. rewrite Hpre.
      cbn [append] in Hconv. now rewrite Hconv.
    + rewrite Hp in *. cbn [json.skipSpace].
      assert (Hsp : json.isSpace (byteZ c) = false)
        by (unfold json.isSpace; lia).
      rewrite Hsp.
      repeat match goal with
      | |- context [(byteZ c =? ?k)] =>
          destruct (Z.eqb_spec (byteZ c) k); [lia|]
      end.
      rewrite Hpre, Hconv. reflexivity.
Qed.

End AcceptedNumber.

Section Integers.
Local Open Scope Z_scope.
Local Open Scope list_scope.

(** An integer up to [2^53] is rounded to itself. *)
Lemma roundedUnits_int (k : Z) :
  0 <= k <= 2 ^ 53 -> roundedUnits k 1 = k * 2 ^ 1074.
Proof.
  intros Hk. unfold roundedUnits. cbv zeta.
  rewrite Z.div_1_r, Z.mul_1_l.
  set (P := k * 2 ^ 1074).
  assert (H2 : 0 < 2 ^ 1074) by (apply Z.pow_pos_nonneg; lia).
  assert (HP : 0 <= P) by (unfold P; nia).
  set (e := Z.max (Z.log2 P - 52) 0).
  assert (He : 0 <= e) by (unfold e; lia).
  assert (H2e : 0 < 2 ^ e) by (apply Z.pow_pos_nonneg; lia).
  assert (Hdiv : exists q, P = q * 2 ^ e).
  { destruct (Z.eq_dec k (2 ^ 53)) as [->|Hne].
    - exists (2 ^ 52). unfold e, P. rewrite <- Z.pow_add_r by lia.
      rewrite Z.log2_pow2 by lia. cbn [Z.add Z.sub Z.max].
      rewrite <- Z.pow_add_r by lia. reflexivity.
    - destruct (Z.eq_dec k 0) as [->|Hk0].
      { exists 0. unfold P. lia. }
      assert (Hlog : Z.log2 P < 53 + 1074).
      { apply Z.log2_lt_pow2; [unfold P; nia|].
        unfold P. rewrite Z.pow_add_r by lia.
        apply Z.mul_lt_mono_pos_r; lia. }
      exists (k * 2 ^ (1074 - e)). unfold P.
      rewrite <- Z.mul_assoc, <- Z.pow_add_r by (unfold e; lia).
      do 2 f_equal. lia. }
  destruct Hdiv as [q Hq].
  rewrite Hq, Z.mod_mul, Z.div_mul by lia.
  change (2 * 0) with 0.
  destruct (Z.ltb_spec (2 ^ e) 0); [lia|].
  destruct (Z.eqb_spec 0 (2 ^ e)); [lia|]. reflexivity.
Qed.

(** The [float64] of a positive integer up to [2^53]. *)
Lemma roundRatio_int (neg : bool) (k : Z) :
  0 < k <= 2 ^ 53 ->
  exists m e,
    strconv.is_float64 (S754_finite neg m e) = true
    /\ Zpos m * 2 ^ (e + 1074) = k * 2 ^ 1074
    /\ strconv.roundRatio neg k 1 = (S754_finite neg m e, false).
Proof.
  intros Hk.
  assert (H2 : 0 < 2 ^ 1074) by (apply Z.pow_pos_nonneg; lia).
  set (P := k * 2 ^ 1074).
  assert (HP : 0 < P) by (unfold P; nia).
  pose proof (leading_bits P ltac:(lia)) as L. cbv zeta in L.
  set (e0 := Z.max (Z.log2 P - 52) 0) in *.
  destruct L as (He0 & Hm0 & Hn0).
  assert (H2e : 0 < 2 ^ e0) by (apply Z.pow_pos_nonneg; lia).
  pose proof (roundedUnits_int k ltac:(lia)) as Hr.
  assert (Hexact : P = P / 2 ^ e0 * 2 ^ e0).
  { revert Hr. unfold roundedUnits. cbv zeta.
    rewrite Z.div_1_r, Z.mul_1_l. fold P. fold e0.
    destruct (_ || _) eqn:Hup; [|now intros ->].
    intros Hr. exfalso.
    assert (Hq : P / 2 ^ e0 = P / 2 ^ e0 + 1).
    { rewrite <- Hr at 1. now rewrite Z.div_mul by lia. }
    lia. }
  assert (Hmpos : 0 < P / 2 ^ e0) by nia.
  assert (He53 : e0 <= 1075).
  { unfold e0.
    assert (Z.log2 P < 54 + 1074); [|lia].
    apply Z.log2_lt_pow2; [lia|]. unfold P.
    rewrite Z.pow_add_r by lia. apply Z.mul_lt_mono_pos_r; lia. }
  exists (Z.to_pos (P / 2 ^ e0)), (e0 - 1074).
  assert (Hval : strconv.is_float64
            (S754_finite neg (Z.to_pos (P / 2 ^ e0)) (e0 - 1074)) = true).
  { apply is_float64_finite. rewrite Z2Pos.id by lia.
    repeat split; lia. }
  split; [exact Hval|].
  assert (Hunits : Z.pos (Z.to_pos (P / 2 ^ e0)) * 2 ^ (e0 - 1074 + 1074)
                   = k * 2 ^ 1074).
  { rewrite Z2Pos.id by lia.
    replace (e0 - 1074 + 1074) with e0 by lia. fold P. lia. }
  split; [exact Hunits|].
  apply roundRatio_units; try assumption; lia.
Qed.

(** Digits without a zero in front are those of one number only. *)
Lemma valueOf_inj_length (l1 : list Z) :
  forall l2, length l1 = length l2 ->
  Forall is_digit l1 -> Forall is_digit l2 ->
  strconv.valueOf l1 = strconv.valueOf l2 -> l1 = l2.
Proof.
  induction l1 as [|x l1 IH]; intros [|y l2] Hlen H1 H2 Hv;
    try discriminate Hlen; [reflexivity|].
  injection Hlen as Hlen.
  inversion H1 as [|? ? Hx Hl1]; inversion H2 as [|? ? Hy Hl2]; subst.
  change (x :: l1) with ([x] ++ l1) in Hv.
  change (y :: l2) with ([y] ++ l2) in Hv.
  rewrite !valueOf_app in Hv.
  change (strconv.valueOf [x]) with (0 * 10 + x) in Hv.
  change (strconv.valueOf [y]) with (0 * 10 + y) in Hv.
  pose proof (valueOf_nonneg l1 Hl1). pose proof (valueOf_nonneg l2 Hl2).
  pose proof (valueOf_lt l1 Hl1) as B1. pose proof (valueOf_lt l2 Hl2).
  rewrite Hlen in Hv, B1.
  set (p := 10 ^ Z.of_nat (length l2)) in *.
  unfold is_digit in Hx, Hy.
  assert (x = y) by nia. subst y.
  f_equal. apply IH; try assumption; lia.
Qed.

Lemma valueOf_inj (l1 l2 : list Z) :
  Forall is_digit l1 -> Forall is_digit l2 ->
  hd 1 l1 <> 0 -> hd 1 l2 <> 0 ->
  strconv.valueOf l1 = strconv.valueOf l2 -> l1 = l2.
Proof.
  intros H1 H2 Hh1 Hh2 Hv.
  apply valueOf_inj_length; try assumption.
  destruct l1 as [|x l1], l2 as [|y l2]; try reflexivity.
  - pose proof (valueOf_pos (y :: l2) H2 ltac:(discriminate) Hh2).
    change (strconv.valueOf []) with 0 in Hv. lia.
  - pose proof (valueOf_pos (x :: l1) H1 ltac:(discriminate) Hh1).
    change (strconv.valueOf []) with 0 in Hv. lia.
  - pose proof (valueOf_ge _ H1 ltac:(discriminate) Hh1) as G1.
    pose proof (valueOf_ge _ H2 ltac:(discriminate) Hh2) as G2.
    pose proof (valueOf_lt _ H1) as L1. pose proof (valueOf_lt _ H2) as L2.
    rewrite Hv in *.
    assert (Z.of_nat (length (x :: l1)) - 1 < Z.of_nat (length (y :: l2))).
    { apply (Z.pow_lt_mono_r_iff 10); lia. }
    assert (Z.of_nat (length (y :: l2)) - 1 < Z.of_nat (length (x :: l1))).
    { apply (Z.pow_lt_mono_r_iff 10); lia. }
    lia.
Qed.

(** Multiplying by a power of ten writes zeros at the end. *)
Lemma digitsOf_pow10 (k j : Z) :
  0 < k -> 0 <= j ->
  strconv.digitsOf (k * 10 ^ j)
  = strconv.digitsOf k ++ repeat 0 (Z.to_nat j).
Proof.
  intros Hk Hj.
  assert (Hp : 0 < 10 ^ j) by (apply Z.pow_pos_nonneg; lia).
  destruct (digitsOf_spec k Hk) as (Hv & Hdig & Hhd).
  destruct (digitsOf_spec (k * 10 ^ j) ltac:(nia)) as (Hv' & Hdig' & Hhd').
  apply valueOf_inj; try assumption.
  - apply Forall_app. split; [assumption|apply Forall_zeros].
  - destruct (strconv.digitsOf k); [cbn in Hv; lia|exact Hhd].
  - rewrite Hv', valueOf_app, Hv, repeat_length, valueOf_zeros.
    rewrite Z2Nat.id by lia. ring.
Qed.

Lemma valueOf_last (l : list Z) :
  Forall is_digit l -> l <> [] -> last l 1 <> 0 -> 1 <= strconv.valueOf l.
Proof.
  intros Hdig Hne Hlast.
  destruct l as [|x l] using rev_ind; [contradiction|].
  apply Forall_app in Hdig as [Hl Hx]. inversion Hx; subst.
  rewrite last_last in Hlast. rewrite valueOf_app.
  pose proof (valueOf_nonneg l Hl).
  change (strconv.valueOf [x]) with (0 * 10 + x).
  cbn [length]. change (10 ^ Z.of_nat 1) with 10.
  unfold is_digit in *. lia.
Qed.

(** The expansion of the [float64] of an integer is the integer. *)
Lemma exactDecimal_int (m : positive) (e k : Z) :
  -1074 <= e -> 0 < k ->
  Zpos m * 2 ^ (e + 1074) = k * 2 ^ 1074 ->
  strconv.exactDecimal m e
  = strconv.mkDecimal (strconv.trim (strconv.digitsOf k))
      (Z.of_nat (length (strconv.digitsOf k))).
Proof.
  intros He Hk Hu. unfold strconv.exactDecimal.
  assert (H2 : 0 < 2 ^ 1074) by (apply Z.pow_pos_nonneg; lia).
  destruct (Z.leb_spec 0 e) as [Hpos|Hneg].
  - assert (Hm : Zpos m * 2 ^ e = k).
    { rewrite Z.pow_add_r in Hu by lia. nia. }
    now rewrite Hm.
  - assert (H2e : 0 < 2 ^ (- e)) by (apply Z.pow_pos_nonneg; lia).
    assert (Hm : Zpos m = k * 2 ^ (- e)).
    { replace 1074 with (e + 1074 + - e) in Hu at 2 by lia.
      rewrite (Z.pow_add_r 2 (e + 1074)) in Hu by lia.
      assert (0 < 2 ^ (e + 1074)) by (apply Z.pow_pos_nonneg; lia).
      nia. }
    rewrite Hm.
    replace (k * 2 ^ (- e) * 5 ^ (- e)) with (k * 10 ^ (- e)).
    + rewrite digitsOf_pow10 by lia.
      rewrite length_app, repeat_length. f_equal; [|lia].
      destruct (trim_spec (strconv.digitsOf k)) as (t & Hds & Hlast).
      rewrite Hds at 1. rewrite <- app_assoc, <- repeat_app.
      now apply trim_zeros.
    + change 10 with (2 * 5). rewrite Z.pow_mul_l. ring.
Qed.

(** The walk of [roundShortest] keeps every digit of an integer below
    [2^53]: cut anywhere, the expansion is another integer, and that one
    is rounded to itself or past it. *)
Lemma shortestLoop_int (neg : bool) (m : positive) (e k : Z) :
  let x := S754_finite neg m e in
  let T := strconv.trim (strconv.digitsOf k) in
  let L := Z.of_nat (length (strconv.digitsOf k)) in
  strconv.is_float64 x = true ->
  0 < k < 2 ^ 53 ->
  Zpos m * 2 ^ (e + 1074) = k * 2 ^ 1074 ->
  strconv.roundShortest x neg (strconv.mkDecimal T L) = strconv.mkDecimal T L.
Proof.
  intros x T L Hval Hk Hu.
  destruct (digitsOf_spec k ltac:(lia)) as (Hv & Hdig & Hhd).
  destruct (trim_spec (strconv.digitsOf k)) as (t & Hds & Hlast).
  fold T in Hds, Hlast.
  assert (HdT : Forall is_digit T).
  { rewrite Hds in Hdig. now apply Forall_app in Hdig. }
  assert (HL : L = Z.of_nat (length T) + Z.of_nat t).
  { unfold L. rewrite Hds at 1. rewrite length_app, repeat_length. lia. }
  assert (HkT : k = strconv.valueOf T * 10 ^ Z.of_nat t).
  { rewrite <- Hv. rewrite Hds at 1.
    rewrite valueOf_app, repeat_length, valueOf_zeros. ring. }
  assert (Hpt : 0 < 10 ^ Z.of_nat t) by (apply Z.pow_pos_nonneg; lia).
  set (a := strconv.mkDecimal T L).
  assert (H2 : 0 < 2 ^ 1074) by (apply Z.pow_pos_nonneg; lia).
  (* a cut that is an integer [D] reads as [x] only if [D] is [k] *)
  assert (Hread : forall V j, 0 <= V -> 0 <= j ->
    strconv.roundDecimal neg V j = (x, false) -> V * 10 ^ j = k).
  { intros V j HV Hj Hrd. unfold strconv.roundDecimal in Hrd.
    destruct (Z.leb_spec 0 j); [|lia].
    assert (Hpj : 0 < 10 ^ j) by (apply Z.pow_pos_nonneg; lia).
    apply roundRatio_units in Hrd; try assumption; try lia; try nia.
    rewrite Hu in Hrd. set (D := V * 10 ^ j) in *.
    assert (HD : 0 <= D) by (unfold D; nia).
    destruct (Z.lt_trichotomy D k) as [Hlt|[Heq|Hgt]]; [|exact Heq|].
    - pose proof (roundedUnits_mono D (k - 1) 1 ltac:(lia) ltac:(lia)) as Hm.
      rewrite (roundedUnits_int (k - 1)) in Hm by lia. nia.
    - pose proof (roundedUnits_mono (k + 1) D 1 ltac:(lia) ltac:(lia)) as Hm.
      rewrite (roundedUnits_int (k + 1)) in Hm by lia. nia. }
  assert (Hfail : forall j, (j < length T)%nat ->
    strconv.readsAs x neg (strconv.RoundDown a j) = false
    /\ strconv.readsAs x neg (strconv.RoundUp a j) = false).
  { intros j Hj.
    pose proof (RoundDown_reads x neg a j) as Hrd.
    pose proof (RoundUp_reads x neg a j) as Hru.
    cbv zeta in Hrd, Hru. cbn [a strconv.d strconv.dp10] in Hrd, Hru.
    rewrite length_firstn in Hrd, Hru.
    replace (Nat.min j (length T)) with j in Hrd, Hru by lia.
    set (f := firstn j T) in *. set (s := skipn j T).
    assert (HT : T = f ++ s) by (symmetry; apply firstn_skipn).
    assert (Hfs : Forall is_digit f /\ Forall is_digit s).
    { rewrite HT in HdT. now apply Forall_app in HdT. }
    destruct Hfs as [Hf Hs].
    assert (Hls : length s = (length T - j)%nat)
      by (unfold s; apply length_skipn).
    assert (Hsne : s <> []).
    { intros Hnil. apply (f_equal (@length Z)) in Hnil.
      rewrite Hls in Hnil. cbn [length] in Hnil. lia. }
    assert (Hslast : last s 1 <> 0).
    { rewrite HT in Hlast. now rewrite last_app_ne in Hlast. }
    pose proof (valueOf_last s Hs Hsne Hslast) as HS1.
    pose proof (valueOf_lt s Hs) as HS2.
    pose proof (valueOf_nonneg f Hf) as HV.
    set (w := Z.of_nat (length T) - Z.of_nat j).
    assert (Hw : 0 < w) by (unfold w; lia).
    assert (Hpw : 0 < 10 ^ w) by (apply Z.pow_pos_nonneg; lia).
    assert (HTv : strconv.valueOf T
                  = strconv.valueOf f * 10 ^ w + strconv.valueOf s).
    { rewrite HT at 1. rewrite valueOf_app, Hls. do 3 f_equal.
      unfold w. lia. }
    replace (Z.of_nat (length s)) with w in HS2 by (rewrite Hls; unfold w; lia).
    assert (Hexp : 10 ^ (L - Z.of_nat j) = 10 ^ w * 10 ^ Z.of_nat t).
    { rewrite <- Z.pow_add_r by lia. f_equal. unfold w. lia. }
    split.
    - apply not_true_is_false. intros E.
      apply Hrd in E. apply Hread in E; [rewrite Hexp in E; nia|lia|lia].
    - apply not_true_is_false. intros E.
      apply Hru in E. apply Hread in E; [rewrite Hexp in E; nia|lia|lia]. }
  assert (Hkeep : strconv.RoundDown a (length T) = a).
  { unfold strconv.RoundDown, a. cbn [strconv.d strconv.dp10].
    rewrite firstn_all. f_equal.
    rewrite <- (app_nil_r T) at 1. now apply (trim_zeros T 0). }
  assert (Hloop : forall fuel n,
    (n + fuel = S (length T))%nat ->
    strconv.shortestLoop x neg a fuel n = a).
  { induction fuel as [|fuel IH]; intros n Hn; [reflexivity|].
    cbn [strconv.shortestLoop].
    destruct (Nat.eq_dec n (length T)) as [->|Hne].
    - rewrite Hkeep.
      assert (Hra : strconv.readsAs x neg a = true).
      { apply readsAs_value. rewrite HL.
        replace (Z.of_nat (length T) + Z.of_nat t - Z.of_nat (length T))
          with (0 + Z.of_nat t) by lia.
        rewrite <- roundDecimal_shift, <- HkT by lia.
        unfold strconv.roundDecimal. cbn [Z.leb Z.compare].
        change (10 ^ 0) with 1. rewrite Z.mul_1_r.
        apply roundRatio_units; try assumption; try lia.
        rewrite roundedUnits_int by lia. now rewrite Hu. }
      rewrite Hra. cbn [andb].
      destruct (strconv.readsAs x neg (strconv.RoundUp a (length T)));
        [|reflexivity].
      unfold strconv.Round. cbn [a strconv.d].
      now rewrite Nat.leb_refl.
    - destruct (Hfail n ltac:(lia)) as [-> ->]. cbn [andb].
      apply IH. lia. }
  unfold strconv.roundShortest. apply Hloop. cbn [a strconv.d]. lia.
Qed.

End Integers.

Section IntegerText.
Local Open Scope Z_scope.
Local Open Scope list_scope.

(** The text of the [float64] of an integer below [2^53] is the integer
    in decimal. *)
Lemma FormatFloat_int (neg : bool) (k : Z) :
  0 < k < 2 ^ 53 ->
  exists m e,
    strconv.is_float64 (S754_finite neg m e) = true
    /\ Zpos m * 2 ^ (e + 1074) = k * 2 ^ 1074
    /\ strconv.FormatFloat (S754_finite neg m e)
       = ((if neg then "-" else "") ++ decimalString k)%string.
Proof.
  intros Hk.
  destruct (roundRatio_int neg k ltac:(lia)) as (m & e & Hval & Hu & _).
  exists m, e. split; [exact Hval|]. split; [exact Hu|].
  destruct (FormatFloat_digits neg m e Hval) as (_ & _ & ->).
  pose proof (proj1 (is_float64_finite neg m e) Hval) as (_ & He & _).
  rewrite (exactDecimal_int m e k) by (try assumption; lia).
  rewrite (shortestLoop_int neg m e k) by (try assumption; lia).
  cbn [strconv.d strconv.dp10]. f_equal.
  unfold decimalString. destruct (Z.eqb_spec k 0); [lia|].
  destruct (trim_spec (strconv.digitsOf k)) as (t & Hds & _).
  unfold printed.
  assert (Hlen : length (strconv.digitsOf k)
                 = (length (strconv.trim (strconv.digitsOf k)) + t)%nat).
  { rewrite Hds at 1. now rewrite length_app, repeat_length. }
  destruct (Z.leb_spec (Z.of_nat (length (strconv.trim (strconv.digitsOf k))))
              (Z.of_nat (length (strconv.digitsOf k)))); [|lia].
  replace (Z.to_nat (Z.of_nat (length (strconv.digitsOf k))
                     - Z.of_nat (length (strconv.trim (strconv.digitsOf k)))))
    with t by lia.
  rewrite <- digitString_zeros, <- digitString_app. now rewrite <- Hds.
Qed.

Lemma intText_cases (k : Z) :
  k <> 0 ->
  intText k
  = ((if (k <? 0)%Z then "-" else "") ++ decimalString (Z.abs k))%string.
Proof.
  intros Hk. unfold intText. destruct (Z.ltb_spec k 0).
  - now rewrite Z.abs_neq by lia.
  - now rewrite Z.abs_eq by lia.
Qed.

Lemma plain_text_digits (l : list Z) (rest : string) :
  Forall is_digit l ->
  plain_text (strconv.digitString l ++ rest) = plain_text rest.
Proof.
  induction 1 as [|x l Hx _ IH]; [reflexivity|].
  cbn [strconv.digitString append plain_text].
  rewrite byteZ_digitChar by assumption. rewrite IH.
  unfold is_digit in Hx.
  assert (((32 <=? 48 + x) && (48 + x <? 128) && negb (48 + x =? 34)
           && negb (48 + x =? 92)) = true) as -> by lia.
  reflexivity.
Qed.

Lemma plain_text_printed (neg : bool) (ds : list Z) (dp : Z) :
  Forall is_digit ds ->
  plain_text ((if neg then "-" else "") ++ printed ds dp) = true.
Proof.
  intros Hdig.
  assert (Hbody : plain_text (printed ds dp) = true).
  { unfold printed. rewrite <- !digitString_zeros.
    destruct (Z.of_nat (length ds) <=? dp).
    - rewrite <- digitString_app.
      rewrite <- (append_nil_r (strconv.digitString _)).
      rewrite plain_text_digits; [reflexivity|].
      apply Forall_app. split; [assumption|apply Forall_zeros].
    - destruct (0 <? dp).
      + rewrite <- (firstn_skipn (Z.to_nat dp) ds) in Hdig.
        apply Forall_app in Hdig as [Hf Hs].
        rewrite plain_text_digits by assumption.
        cbn [plain_text].
        rewrite <- (append_nil_r (strconv.digitString (skipn _ _))).
        now rewrite plain_text_digits by assumption.
      + rewrite <- digitString_app. cbn [plain_text].
        rewrite <- (append_nil_r (strconv.digitString _)).
        rewrite plain_text_digits; [reflexivity|].
        apply Forall_app. split; [apply Forall_zeros|assumption]. }
  destruct neg; [cbn [append plain_text]|exact Hbody].
  now rewrite Hbody.
Qed.

(** The text of a number is plain. *)
Lemma plain_text_FormatFloat (n : strconv.float64) :
  is_number n = true -> plain_text (strconv.FormatFloat n) = true.
Proof.
  unfold is_number. intros H. apply andb_true_iff in H as [Hval Hkind].
  destruct n as [s|s| |s m e]; try discriminate Hkind.
  - now destruct s.
  - destruct (FormatFloat_digits s m e Hval) as ((Hdig & _) & _ & ->).
    now apply plain_text_printed.
Qed.

Lemma skipSpace_space (ws s : string) :
  all_space ws = true -> json.skipSpace (ws ++ s) = json.skipSpace s.
Proof.
  induction ws as [|a ws IH]; [reflexivity|].
  cbn [all_space append json.skipSpace]. intros H.
  apply andb_true_iff in H as [-> H]. now apply IH.
Qed.

Lemma scanAll_space (ws s : string) :
  all_space ws = true ->
  json.scanAll json.reset (ws ++ s) = json.scanAll json.reset s.
Proof.
  induction ws as [|a ws IH]; [reflexivity|].
  cbn [all_space append json.scanAll]. intros H.
  apply andb_true_iff in H as [Ha H].
  unfold json.stepScanner at 1. cbn [json.step json.reset].
  unfold json.doBeginValue. rewrite Ha. now apply IH.
Qed.

Lemma numberLiterals_space (ws s : string) :
  all_space ws = true ->
  json.numberLiterals json.reset None (ws ++ s)
  = json.numberLiterals json.reset None s.
Proof.
  induction ws as [|a ws IH]; [reflexivity|].
  cbn [all_space append json.numberLiterals]. intros H.
  apply andb_true_iff in H as [Ha H].
  unfold json.stepScanner at 1. cbn [json.step json.reset].
  unfold json.doBeginValue. rewrite Ha. now apply IH.
Qed.

(** White space before a JSON text changes nothing of what
    [json.Unmarshal] does with it. *)
Lemma Unmarshal_space (ws s : string) :
  all_space ws = true ->
  json.Unmarshal (bytes (ws ++ s)) = json.Unmarshal (bytes s).
Proof.
  intros Hws. unfold json.Unmarshal, json.checkValid.
  rewrite !bytes_string, scanAll_space by assumption.
  destruct (json.scanAll json.reset s) as [st|]; [|reflexivity].
  destruct (json.eof st); [|reflexivity].
  unfold json.unmarshal. cbv zeta.
  now rewrite skipSpace_space, numberLiterals_space by assumption.
Qed.

End IntegerText.

(** A JSON integer of magnitude below [2^53], written in decimal, is
    decoded exactly and keeps its text digit for digit, as a bare number
    and between double quotes alike: [Val] is the integer and [Txt] is the
    decimal text. *)
Theorem FlexInt_integer_exact (f : FlexInt.t) (k : Z) :
  (- 2 ^ 53 < k < 2 ^ 53)%Z ->
  exists x,
    FlexInt.UnmarshalJSON f (bytes (intText k))
    = (FlexInt.mk x (intText k), None)
    /\ FlexInt.UnmarshalJSON f (quoted (intText k))
       = (FlexInt.mk x (intText k), None)
    /\ units x = (k * 2 ^ 1074)%Z
    /\ is_number x = true.
Proof.
  intros Hk. destruct (Z.eq_dec k 0) as [->|Hne].
  - exists (S754_zero false). repeat split.
  - rewrite (intText_cases k Hne).
    destruct (FormatFloat_int (k <? 0)%Z (Z.abs k) ltac:(lia))
      as (m & e & Hval & Hu & Htxt).
    exists (S754_finite (k <? 0)%Z m e).
    assert (Hnum : is_number (S754_finite (k <? 0)%Z m e) = true).
    { unfold is_number. now rewrite Hval. }
    pose proof (json_number_text _ Hnum) as Hjson.
    pose proof (json_string_plain _ (plain_text_FormatFloat _ Hnum)) as Hstr.
    pose proof (ParseFloat_FormatFloat _ Hval) as Hrt.
    rewrite Htxt in Hjson, Hstr, Hrt.
    unfold is_json_number in Hjson. unfold is_json_string in Hstr.
    rewrite (FlexInt_on_value f _ _ Hjson), (FlexInt_on_value f _ _ Hstr).
    rewrite Htxt, Hrt.
    split; [reflexivity|]. split; [reflexivity|]. split; [|exact Hnum].
    cbn [units]. rewrite Hu. destruct (Z.ltb_spec k 0); lia.
Qed.

Lemma FlexInt_integer_exact_witness :
  FlexInt.UnmarshalJSON used_flexint (bytes "-1500")
  = (FlexInt.mk (S754_finite true 6597069766656000 (-42)) "-1500", None)
  /\ FlexInt.UnmarshalJSON used_flexint (quoted "-1500")
     = (FlexInt.mk (S754_finite true 6597069766656000 (-42)) "-1500", None)
  /\ units (S754_finite true 6597069766656000 (-42)) = (-1500 * 2 ^ 1074)%Z.
Proof.
  destruct (FlexInt_integer_exact used_flexint (-1500))
    as (x & H & Hq & Hu & _); [lia|].
  pose proof H as H'. vm_compute in H'. injection H' as <-.
  split; [exact H|]. split; [exact Hq|exact Hu].
Defined.

(** Every finite [float64] is decoded from its own text: the decoder
    inverts [strconv.FormatFloat], for the bare number and for the number
    between double quotes alike. *)
Theorem FlexInt_decodes_number_text (f : FlexInt.t) (n : strconv.float64) :
  is_number n = true ->
  FlexInt.UnmarshalJSON f (bytes (strconv.FormatFloat n))
  = (FlexInt.mk n (strconv.FormatFloat n), None)
  /\ FlexInt.UnmarshalJSON f (quoted (strconv.FormatFloat n))
     = (FlexInt.mk n (strconv.FormatFloat n), None).
Proof.
  intros Hnum. split.
  - pose proof (json_number_text n Hnum) as H. unfold is_json_number in H.
    now rewrite (FlexInt_on_value f _ _ H).
  - pose proof (json_string_plain _ (plain_text_FormatFloat n Hnum)) as H.
    unfold is_json_string in H. rewrite (FlexInt_on_value f _ _ H).
    rewrite ParseFloat_FormatFloat; [reflexivity|].
    unfold is_number in Hnum. now apply andb_true_iff in Hnum as [? _].
Qed.

Lemma FlexInt_decodes_number_text_witness :
  FlexInt.UnmarshalJSON used_flexint (bytes "0.1")
  = (FlexInt.mk (S754_finite false 7205759403792794 (-56)) "0.1", None)
  /\ FlexInt.UnmarshalJSON used_flexint (quoted "0.1")
     = (FlexInt.mk (S754_finite false 7205759403792794 (-56)) "0.1", None).
Proof.
  pose proof (FlexInt_decodes_number_text used_flexint
                (S754_finite false 7205759403792794 (-56)) eq_refl) as H.
  assert (E : strconv.FormatFloat (S754_finite false 7205759403792794 (-56))
              = "0.1") by (vm_compute; reflexivity).
  rewrite E in H. exact H.
Defined.

(** [Val] is what [strconv.ParseFloat] reads in [Txt], after every call
    without error. *)
Lemma FlexInt_Val_parse (f f' : FlexInt.t) (b : list byte) :
  FlexInt.UnmarshalJSON f b = (f', None) ->
  fst (strconv.ParseFloat (FlexInt.Txt f')) = FlexInt.Val f'.
Proof.
  intros Hcall. destruct (json.Unmarshal b) as [unk [e|]] eqn:Hu.
  { rewrite (FlexInt_on_error f b e) in Hcall by now rewrite Hu.
    discriminate. }
  rewrite (FlexInt_on_value f b unk Hu) in Hcall.
  destruct unk; try discriminate; injection Hcall as <-;
    cbn [FlexInt.Txt FlexInt.Val]; try reflexivity.
  now rewrite (ParseFloat_FormatFloat _ (json_number_float64 b _ Hu)).
Qed.

(** Decoding again what [String] returns gives the same value: written
    between double quotes whenever the text is plain, and written bare
    after a number or a [null], whose text is always plain. *)
Theorem FlexInt_redecode (f g f' : FlexInt.t) (b : list byte) :
  FlexInt.UnmarshalJSON f b = (f', None) ->
  (plain_text (FlexInt.String_ f') = true ->
   FlexInt.UnmarshalJSON g (quoted (FlexInt.String_ f')) = (f', None))
  /\ (kindOf b = Some KNumber \/ kindOf b = Some KNull ->
      plain_text (FlexInt.String_ f') = true
      /\ FlexInt.UnmarshalJSON g (bytes (FlexInt.String_ f')) = (f', None)).
Proof.
  intros Hcall. unfold FlexInt.String_. split.
  - intros Hp. pose proof (json_string_plain _ Hp) as H.
    unfold is_json_string in H. rewrite (FlexInt_on_value g _ _ H).
    rewrite (FlexInt_Val_parse f f' b Hcall). now destruct f'.
  - intros Hk.
    assert (Hcases : f' = FlexInt.mk (S754_zero false) "0"
                     \/ exists n, is_json_number b n
                          /\ f' = FlexInt.mk n (strconv.FormatFloat n)).
    { destruct Hk as [Hk|Hk];
        pose proof (Unmarshal_kind b _ Hk) as Hu; cbv zeta in Hu;
        revert Hcall; unfold FlexInt.UnmarshalJSON; rewrite Hu.
      - destruct (json.convertNumber _) as [n [e|]] eqn:Hc; [discriminate|].
        intros H. injection H as <-. right. exists n. split; [|reflexivity].
        exact Hu.
      - intros H. injection H as <-. now left. }
    destruct Hcases as [->|(n & Hn & ->)]; cbn [FlexInt.Txt].
    + split; vm_compute; reflexivity.
    + pose proof (json_number_is_number b n Hn) as Hnum.
      split; [now apply plain_text_FormatFloat|].
      pose proof (json_number_text n Hnum) as H. unfold is_json_number in H.
      now rewrite (FlexInt_on_value g _ _ H).
Qed.

Lemma FlexInt_redecode_witness :
  FlexInt.UnmarshalJSON used_flexint (quoted "3.5")
  = (FlexInt.mk (S754_finite false 7881299347898368 (-51)) "3.5", None)
  /\ FlexInt.UnmarshalJSON used_flexint (bytes "3.5")
     = (FlexInt.mk (S754_finite false 7881299347898368 (-51)) "3.5", None).
Proof.
  destruct (FlexInt_redecode (FlexInt.mk (S754_zero false) "") used_flexint
              (FlexInt.mk (S754_finite false 7881299347898368 (-51)) "3.5")
              (bytes "3.50")) as [Hq Hb]; [vm_compute; reflexivity|].
  split.
  - apply Hq. reflexivity.
  - apply Hb. left. vm_compute. reflexivity.
Defined.

(** For a plain text between double quotes the two decoders keep the
    same text: the text itself. *)
Theorem Flex_texts_agree
    (foldRest : Z -> Z) (fb : FlexBool.t) (fi : FlexInt.t) (s : string) :
  plain_text s = true ->
  FlexBool.String_ (fst (FlexBool.UnmarshalJSON foldRest fb (quoted s))) = s
  /\ FlexInt.String_ (fst (FlexInt.UnmarshalJSON fi (quoted s))) = s.
Proof.
  intros Hp. split.
  - unfold FlexBool.UnmarshalJSON, FlexBool.String_, quoted.
    cbn [fst FlexBool.Txt]. rewrite bytes_string.
    apply (Trim_unique _ (String dquote "") s (String dquote ""));
      try reflexivity.
    + destruct s as [|a s]; [discriminate|]. cbn [plain_text] in Hp.
      cbn [first_byte]. intros H. injection H as ->.
      vm_compute in Hp. discriminate.
    + clear fb fi. induction s as [|a s IH]; [discriminate|].
      cbn [plain_text] in Hp. apply andb_true_iff in Hp as [Ha Hs].
      destruct s as [|a' s'].
      * cbn [last_byte]. intros H. injection H as ->.
        vm_compute in Ha. discriminate.
      * exact (IH Hs).
  - pose proof (json_string_plain s Hp) as H. unfold is_json_string in H.
    now rewrite (FlexInt_on_value fi _ _ H).
Qed.

Lemma Flex_texts_agree_witness :
  FlexBool.String_
    (fst (FlexBool.UnmarshalJSON (fun r => r) (FlexBool.mk false "")
            (quoted "enabled"))) = "enabled"
  /\ FlexInt.String_ (fst (FlexInt.UnmarshalJSON used_flexint
                             (quoted "enabled"))) = "enabled".
Proof.
  apply (Flex_texts_agree (fun r => r) (FlexBool.mk false "") used_flexint
           "enabled"). reflexivity.
Defined.

(** JSON white space in front of the input is skipped: the receiver
    after the call is the same with and without it, and so is whether
    there is an error. *)
Theorem FlexInt_leading_space (f : FlexInt.t) (ws s : string) :
  all_space ws = true ->
  fst (FlexInt.UnmarshalJSON f (bytes (ws ++ s)))
  = fst (FlexInt.UnmarshalJSON f (bytes s))
  /\ (snd (FlexInt.UnmarshalJSON f (bytes (ws ++ s))) = None
      <-> snd (FlexInt.UnmarshalJSON f (bytes s)) = None).
Proof.
  intros Hws. unfold FlexInt.UnmarshalJSON.
  rewrite (Unmarshal_space ws s Hws).
  destruct (json.Unmarshal (bytes s)) as [unk [e|]]; cbn [fst snd].
  - split; [reflexivity|tauto].
  - destruct unk; cbn [fst snd]; split; try reflexivity; try tauto;
      split; discriminate.
Qed.

Lemma FlexInt_leading_space_witness :
  fst (FlexInt.UnmarshalJSON used_flexint (bytes "  42"))
  = fst (FlexInt.UnmarshalJSON used_flexint (bytes "42")).
Proof.
  apply (FlexInt_leading_space used_flexint "  " "42"). reflexivity.
Defined.

(** Every error of the numeric decoder is one of three: the syntax error
    of [json.Unmarshal] for bytes that are not JSON, its type error for a
    number that does not fit a [float64], or [errCannotUnmarshalFlexInt]
    wrapped with the raw bytes of the input. *)
Theorem FlexInt_error_classes (f : FlexInt.t) (b : list byte) (e : error) :
  snd (FlexInt.UnmarshalJSON f b) = Some e ->
  e = SyntaxError
  \/ (exists v, e = UnmarshalTypeError v)
  \/ e = withMessage (errorString "cannot unmarshal to FlexInt") (fmtBytes b).
Proof.
  destruct (json.Unmarshal b) as [unk [e'|]] eqn:Hu.
  - rewrite (FlexInt_on_error f b e') by now rewrite Hu.
    cbn [snd]. intros H. injection H as <-.
    destruct (Unmarshal_error b e' ltac:(now rewrite Hu)) as [H|H]; auto.
  - rewrite (FlexInt_on_value f b unk Hu).
    destruct unk; cbn [snd]; try discriminate;
      intros H; injection H as <-; right; right; reflexivity.
Qed.

Lemma FlexInt_error_classes_witness :
  snd (FlexInt.UnmarshalJSON used_flexint (bytes "{")) = Some SyntaxError
  /\ (SyntaxError = SyntaxError
      \/ (exists v, SyntaxError = UnmarshalTypeError v)
      \/ SyntaxError
         = withMessage (errorString "cannot unmarshal to FlexInt")
             (fmtBytes (bytes "{"))).
Proof.
  split; [vm_compute; reflexivity|].
  apply (FlexInt_error_classes used_flexint (bytes "{") SyntaxError).
  vm_compute. reflexivity.
Defined.

(** The text kept for a number is a canonical form of its value: two
    numbers, however they are spelled, get the same [Txt] exactly when
    they get the same [Val]. *)
Theorem FlexInt_text_canonical
    (f g f1 f2 : FlexInt.t) (b1 b2 : list byte) :
  kindOf b1 = Some KNumber -> kindOf b2 = Some KNumber ->
  FlexInt.UnmarshalJSON f b1 = (f1, None) ->
  FlexInt.UnmarshalJSON g b2 = (f2, None) ->
  (FlexInt.String_ f1 = FlexInt.String_ f2
   <-> FlexInt.Val f1 = FlexInt.Val f2).
Proof.
  intros Hk1 Hk2 H1 H2.
  destruct (FlexInt_number_result f f1 b1 Hk1 H1) as (n1 & Hn1 & ->).
  destruct (FlexInt_number_result g f2 b2 Hk2 H2) as (n2 & Hn2 & ->).
  unfold FlexInt.String_. cbn [FlexInt.Txt FlexInt.Val]. split.
  - intros Htxt.
    pose proof (ParseFloat_FormatFloat n1 (json_number_float64 b1 n1 Hn1))
      as P1.
    pose proof (ParseFloat_FormatFloat n2 (json_number_float64 b2 n2 Hn2))
      as P2.
    rewrite Htxt in P1. congruence.
  - now intros ->.
Qed.

Lemma FlexInt_text_canonical_witness :
  FlexInt.UnmarshalJSON used_flexint (bytes "1e3")
  = (FlexInt.mk (S754_finite false 8796093022208000 (-43)) "1000", None)
  /\ FlexInt.UnmarshalJSON used_flexint (bytes "1000.0")
     = (FlexInt.mk (S754_finite false 8796093022208000 (-43)) "1000", None)
  /\ ("1000" = "1000"
      <-> S754_finite false 8796093022208000 (-43)
          = S754_finite false 8796093022208000 (-43)).
Proof.
  assert (H1 : FlexInt.UnmarshalJSON used_flexint (bytes "1e3")
            = (FlexInt.mk (S754_finite false 8796093022208000 (-43)) "1000",
               None)) by (vm_compute; reflexivity).
  assert (H2 : FlexInt.UnmarshalJSON used_flexint (bytes "1000.0")
            = (FlexInt.mk (S754_finite false 8796093022208000 (-43)) "1000",
               None)) by (vm_compute; reflexivity).
  split; [exact H1|]. split; [exact H2|].
  apply (FlexInt_text_canonical used_flexint used_flexint
           (FlexInt.mk (S754_finite false 8796093022208000 (-43)) "1000")
           (FlexInt.mk (S754_finite false 8796093022208000 (-43)) "1000")
           (bytes "1e3") (bytes "1000.0")); try assumption;
    vm_compute; reflexivity.
Defined.

Section NotANumber.
Local Open Scope Z_scope.

(** [ParseFloat] returns a NaN for the text [nan] only, in any case. *)
Lemma ParseFloat_nan (s : string) :
  fst (strconv.ParseFloat s) = S754_nan <-> to_lower s = "nan"%string.
Proof.
  unfold strconv.ParseFloat. split.
  - destruct (strconv.special s) as [v|] eqn:Hsp.
    + cbn [fst]. intros ->. revert Hsp. unfold strconv.special.
      destruct s as [|c r]; [discriminate|].
      repeat match goal with
      | |- context [if ?c then _ else _] => destruct c eqn:?
      end; try discriminate.
      intros _.
      match goal with
      | H : strconv.equalIgnoreCase _ "nan" = true |- _ =>
          unfold strconv.equalIgnoreCase in H; now apply String.eqb_eq in H
      end.
    + destruct (strconv.readFloat s) as [[[[M E] neg] hex]|];
        [|discriminate].
      pose proof (roundNumber_overflow hex neg M E) as Hov.
      cbv zeta in Hov.
      assert (Hnum : snd (if hex then strconv.roundBinary neg M E
                          else strconv.roundDecimal neg M E) = false ->
                fst (if hex then strconv.roundBinary neg M E
                     else strconv.roundDecimal neg M E) <> S754_nan).
      { unfold strconv.roundBinary, strconv.roundDecimal.
        destruct hex; destruct (0 <=? E); intros H;
          apply roundRatio_number in H; intros Hn; now rewrite Hn in H. }
      destruct (if hex then _ else _) as [v ovf]. cbn [fst snd] in *.
      destruct ovf.
      * rewrite (Hov eq_refl). discriminate.
      * intros Hn. now apply Hnum in Hn.
  - intros Hlow.
    assert (Hsp : strconv.special s = Some S754_nan).
    { destruct s as [|c r]; [discriminate|].
      unfold strconv.special.
      assert (Heq : strconv.equalIgnoreCase (String c r) "nan" = true).
      { unfold strconv.equalIgnoreCase. rewrite Hlow. reflexivity. }
      cbn [to_lower] in Hlow. injection Hlow as Hc _.
      assert (Hn : byteZ c = 0x6E \/ byteZ c = 0x4E).
      { revert Hc. unfold lower_byte.
        destruct (_ && _) eqn:E.
        - intros Hc. apply (f_equal byteZ) in Hc.
          apply andb_true_iff in E as [E1 E2]. apply Z.leb_le in E1, E2.
          unfold byteZ in Hc, E1, E2 |- *.
          rewrite N_ascii_embedding in Hc by lia. cbn in Hc. lia.
        - intros ->. now left. }
      rewrite Heq.
      destruct Hn as [-> | ->]; reflexivity. }
    now rewrite Hsp.
Qed.

End NotANumber.

(** Through a JSON string a NaN can be stored, and without an error: it
    is stored exactly for the text [nan], written in any case. *)
Theorem FlexInt_string_nan (f : FlexInt.t) (b : list byte) (s : string) :
  is_json_string b s ->
  snd (FlexInt.UnmarshalJSON f b) = None
  /\ (FlexInt.Val (fst (FlexInt.UnmarshalJSON f b)) = S754_nan
      <-> to_lower s = "nan").
Proof.
  unfold is_json_string. intros Hs. rewrite (FlexInt_on_value f b _ Hs).
  cbn [fst snd FlexInt.Val]. split; [reflexivity|apply ParseFloat_nan].
Qed.

Lemma FlexInt_string_nan_witness :
  snd (FlexInt.UnmarshalJSON used_flexint (quoted "NaN")) = None
  /\ FlexInt.Val (fst (FlexInt.UnmarshalJSON used_flexint (quoted "NaN")))
     = S754_nan.
Proof.
  destruct (FlexInt_string_nan used_flexint (quoted "NaN") "NaN")
    as [He Hv]; [reflexivity|].
  split; [exact He|]. apply Hv. reflexivity.
Defined.
